(** * The schema migration runner of goUserAPI (internal/database/migrations.go)

    A shallow embedding of [MigrationRunner] and of what it consumes:
    the Go string helpers it calls, SHA-256 with hex encoding (the
    checksum), the migrations directory, and the transactional database
    handle with the [schema_migrations] ledger table.

    Conventions of the model.
    - Go strings are byte strings: [string] with [String.ltb] for [<].
    - The migrations directory is a finite map from entry names to entries;
      [os.ReadDir] lists it sorted by name. A name with a path separator
      is joined to a path outside these entries; what is read there is a
      parameter of the directory.
    - The ledger table is a finite map keyed by [version] (its PRIMARY KEY).
      The table itself is taken to exist; what a script does to the rest of
      the database is left to an abstract SQL engine, which also decides
      whether the ledger can still be written after a script ran in the same
      transaction.
    - Connection faults of the pool (Begin, Commit, Query failing on their
      own) and the [log.Printf] lines are outside the model; every call made
      on the database handle is recorded in a trace instead. *)

From Stdlib Require Import String Ascii NArith List OrdersEx.
From stdpp Require Import gmap strings list fin_maps sorting.

Local Open Scope string_scope.
Local Open Scope list_scope.

Set Warnings "-clear-no-such-hyp".

(** ** Go's [strings] package, as far as the runner uses it *)

Module strings.

(** [strings.HasPrefix]. *)
Fixpoint HasPrefix (s p : string) {struct p} : bool :=
  match p with
  | EmptyString => true
  | String c p' =>
      match s with
      | EmptyString => false
      | String d s' => Ascii.eqb d c && HasPrefix s' p'
      end
  end.

(** [strings.HasSuffix]: [len(s) >= len(suffix) && s[len(s)-len(suffix):] == suffix]. *)
Definition HasSuffix (s suffix : string) : bool :=
  (String.length suffix <=? String.length s)%nat
  && String.eqb
       (substring (String.length s - String.length suffix)
                  (String.length suffix) s)
       suffix.

(** [strings.TrimSuffix]: [s[:len(s)-len(suffix)]] when the suffix is there. *)
Definition TrimSuffix (s suffix : string) : string :=
  if HasSuffix s suffix
  then substring 0 (String.length s - String.length suffix) s
  else s.

(** [strings.Contains]: some position of [s] starts with [substr]. *)
Fixpoint Contains (s substr : string) : bool :=
  HasPrefix s substr
  || match s with
     | EmptyString => false
     | String _ s' => Contains s' substr
     end.

End strings.

(** ** SHA-256 and hex encoding: [crypto/sha256], [encoding/hex] *)

Module sha256.

Local Open Scope N_scope.

Definition w32 (x : N) : N := N.land x 0xffffffff.
Definition add32 (x y : N) : N := w32 (x + y).
Definition rotr (n x : N) : N :=
  N.lor (N.shiftr x n) (w32 (N.shiftl x (32 - n))).
Definition not32 (x : N) : N := N.lxor x 0xffffffff.

Definition Ch (x y z : N) : N := N.lxor (N.land x y) (N.land (not32 x) z).
Definition Maj (x y z : N) : N :=
  N.lxor (N.lxor (N.land x y) (N.land x z)) (N.land y z).
Definition bsig0 (x : N) : N := N.lxor (N.lxor (rotr 2 x) (rotr 13 x)) (rotr 22 x).
Definition bsig1 (x : N) : N := N.lxor (N.lxor (rotr 6 x) (rotr 11 x)) (rotr 25 x).
Definition ssig0 (x : N) : N := N.lxor (N.lxor (rotr 7 x) (rotr 18 x)) (N.shiftr x 3).
Definition ssig1 (x : N) : N := N.lxor (N.lxor (rotr 17 x) (rotr 19 x)) (N.shiftr x 10).

(** The round constants: the first 32 bits of the fractional part of the
    cube root of each of the first 64 primes. *)
Definition is_prime (n : N) : bool :=
  forallb (fun d => negb (N.eqb (N.modulo n (N.of_nat d)) 0)) (seq 2 (N.to_nat n - 2)).

Definition primes : list N := List.filter is_prime (map N.of_nat (seq 2 310)).

Definition cube_root (x : N) : N :=
  fold_left (fun r i => let r' := N.lor r (N.shiftl 1 (N.of_nat i)) in
                        if N.leb (r' * r' * r') x then r' else r)
            (rev (seq 0 36)) 0%N.

Definition K : list N :=
  Eval vm_compute in map (fun p => w32 (cube_root (N.shiftl p 96))) primes.

(** The eight working words. *)
Record digest : Type := Digest
  { ha : N; hb : N; hc : N; hd : N; he : N; hf : N; hg : N; hh : N }.

Definition init : digest :=
  Digest 0x6a09e667 0xbb67ae85 0x3c6ef372 0xa54ff53a
         0x510e527f 0x9b05688c 0x1f83d9ab 0x5be0cd19.

(** Message padding: 0x80, zeros up to 56 mod 64, the bit length on 8 bytes. *)
Definition be_bytes (n : nat) (x : N) : list N :=
  map (fun i => N.land (N.shiftr x (8 * N.of_nat i)) 0xff) (rev (seq 0 n)).

Definition pad (msg : list N) : list N :=
  let len := length msg in
  let zeros := ((64 - (len + 9) mod 64) mod 64)%nat in
  msg ++ [0x80] ++ repeat 0 zeros ++ be_bytes 8 (8 * N.of_nat len).

Fixpoint words (bs : list N) : list N :=
  match bs with
  | a :: b :: c :: d :: rest =>
      N.lor (N.lor (N.shiftl a 24) (N.shiftl b 16)) (N.lor (N.shiftl c 8) d)
      :: words rest
  | _ => []
  end.

(** The message schedule, most recent word first while it is extended. *)
Fixpoint extend (n : nat) (rw : list N) : list N :=
  match n with
  | O => rw
  | S n' =>
      let w := add32 (add32 (ssig1 (nth 1 rw 0)) (nth 6 rw 0))
                     (add32 (ssig0 (nth 14 rw 0)) (nth 15 rw 0)) in
      extend n' (w :: rw)
  end.

Definition schedule (block : list N) : list N := rev (extend 48 (rev block)).

Definition round (s : digest) (kw : N * N) : digest :=
  let t1 := add32 (add32 (add32 (hh s) (bsig1 (he s)))
                         (add32 (Ch (he s) (hf s) (hg s)) (fst kw)))
                  (snd kw) in
  let t2 := add32 (bsig0 (ha s)) (Maj (ha s) (hb s) (hc s)) in
  Digest (add32 t1 t2) (ha s) (hb s) (hc s) (add32 (hd s) t1) (he s) (hf s) (hg s).

Definition compress (h : digest) (block : list N) : digest :=
  let s := fold_left round (combine K (schedule block)) h in
  Digest (add32 (ha h) (ha s)) (add32 (hb h) (hb s)) (add32 (hc h) (hc s))
         (add32 (hd h) (hd s)) (add32 (he h) (he s)) (add32 (hf h) (hf s))
         (add32 (hg h) (hg s)) (add32 (hh h) (hh s)).

Fixpoint blocks (fuel : nat) (ws : list N) (h : digest) : digest :=
  match fuel with
  | O => h
  | S fuel' =>
      match ws with
      | [] => h
      | _ => blocks fuel' (skipn 16 ws) (compress h (firstn 16 ws))
      end
  end.

Definition bytes_of_string (s : string) : list N :=
  map N_of_ascii (list_ascii_of_string s).

(** [sha256.Sum256([]byte(content))]. *)
Definition Sum256 (content : string) : digest :=
  let ws := words (pad (bytes_of_string content)) in
  blocks (length ws) ws init.

Definition hex_digit (d : N) : ascii :=
  match String.get (N.to_nat d) "0123456789abcdef" with
  | Some c => c
  | None => "0"%char
  end.

Definition hex_word (w : N) (tail : string) : string :=
  fold_right (fun i acc => String (hex_digit (N.land (N.shiftr w (4 * N.of_nat i)) 0xf)) acc)
             tail (rev (seq 0 8)).

(** [hex.EncodeToString(hash[:])]. *)
Definition EncodeToString (h : digest) : string :=
  hex_word (ha h) (hex_word (hb h) (hex_word (hc h) (hex_word (hd h)
    (hex_word (he h) (hex_word (hf h) (hex_word (hg h) (hex_word (hh h) ""))))))).

End sha256.

(** [calculateChecksum]: SHA-256 of the content, hex encoded. *)
Definition calculateChecksum (content : string) : string :=
  sha256.EncodeToString (sha256.Sum256 content).

(** ** [sort.Slice]

    The runner only sorts migrations whose versions are pairwise different,
    and then every correct sort returns the same slice ([sorted_unique]);
    insertion with the caller's [less] stands for Go's pdqsort. *)

Section SortSlice.

Context {A : Type} (less : A -> A -> bool).

Fixpoint insert_sorted (x : A) (l : list A) : list A :=
  match l with
  | [] => [x]
  | y :: l' => if less y x then y :: insert_sorted x l' else x :: l
  end.

Fixpoint sort_Slice (l : list A) : list A :=
  match l with
  | [] => []
  | x :: l' => insert_sorted x (sort_Slice l')
  end.

End SortSlice.

(** ** Errors

    One constructor per [fmt.Errorf] of migrations.go, carrying what its
    format string prints, and one per kind of failure raised underneath it. *)

Inductive error : Type :=
(* raised by the database driver and by package os *)
| PgStatementError (sql : string)
| PgUniqueViolation (version : string)
| PgLedgerUnavailable
| PgScanNull
| OsReadDirError
| OsReadFileError (name : string)
(* RunMigrations *)
| ErrCreateTable (cause : error)
| ErrLoadFiles (cause : error)
| ErrGetExecuted (cause : error)
| ErrExecuteMigration (version : string) (cause : error)
| ErrIntegrity (cause : error)
(* loadMigrationFiles *)
| ErrReadDir (cause : error)
| ErrReadMigrationFile (filename : string) (cause : error)
(* executeMigration *)
| ErrMigrationSQL (cause : error)
| ErrRecord (cause : error)
(* verifyMigrationIntegrity *)
| ErrScanExecuted (cause : error)
| ErrNotInDirectory (version : string)
| ErrChecksumMismatch (version : string)
(* RollbackLastMigration, RunDownMigrations *)
| ErrReadRollbackFile (filename : string) (cause : error)
| ErrRollbackSQL (cause : error)
| ErrRemoveTracking (cause : error).

(** The text of an error, [err.Error()]. The texts of the driver and of
    package os stand for whatever those layers print. *)
Fixpoint Error (e : error) : string :=
  match e with
  | PgStatementError _ => "ERROR: statement failed"
  | PgUniqueViolation _ =>
      "ERROR: duplicate key value violates unique constraint (SQLSTATE 23505)"
  | PgLedgerUnavailable => "ERROR: relation schema_migrations is not available"
  | PgScanNull => "cannot scan NULL into *string"
  | OsReadDirError => "open: no such file or directory"
  | OsReadFileError _ => "open: no such file or directory"
  | ErrCreateTable c => "failed to create migrations table: " +:+ Error c
  | ErrLoadFiles c => "failed to load migration files: " +:+ Error c
  | ErrGetExecuted c => "failed to get executed migrations: " +:+ Error c
  | ErrExecuteMigration v c =>
      "failed to execute migration " +:+ v +:+ ": " +:+ Error c
  | ErrIntegrity c => "migration integrity verification failed: " +:+ Error c
  | ErrReadDir c => "failed to read migrations directory: " +:+ Error c
  | ErrReadMigrationFile f c =>
      "failed to read migration file " +:+ f +:+ ": " +:+ Error c
  | ErrMigrationSQL c => "failed to execute migration SQL: " +:+ Error c
  | ErrRecord c => "failed to record migration: " +:+ Error c
  | ErrScanExecuted c => "failed to scan executed migration: " +:+ Error c
  | ErrNotInDirectory v =>
      "migration " +:+ v +:+ " found in database but not in migrations directory"
  | ErrChecksumMismatch v =>
      "migration " +:+ v +:+ " has been modified after execution (checksum mismatch)"
  | ErrReadRollbackFile f c =>
      "failed to read rollback file " +:+ f +:+ ": " +:+ Error c
  | ErrRollbackSQL c => "failed to execute rollback SQL: " +:+ Error c
  | ErrRemoveTracking c => "failed to remove migration from tracking: " +:+ Error c
  end.

Inductive result (A : Type) : Type :=
| Ok (a : A)
| Err (e : error).

Arguments Ok {A} a.
Arguments Err {A} e.

Definition is_Ok {A} (r : result A) : bool :=
  match r with Ok _ => true | Err _ => false end.

(** ** The migrations directory *)

Inductive DirEntry : Type :=
| SubDirectory
| RegularFile (content : string)
| UnreadableFile.

Definition IsDir (e : DirEntry) : bool :=
  match e with SubDirectory => true | _ => false end.

(** [m.dir]: whether it can be listed, what it holds under each name, and
    what [os.ReadFile] finds where a name with a path separator leads
    (below the directory, or above it). *)
Record Directory : Type := MkDirectory
  { listable : bool;
    entries : gmap string DirEntry;
    beyond : string -> option string }.

Definition Name (f : string * DirEntry) : string := fst f.

(** [os.ReadDir]: the entries sorted by file name. *)
Definition ReadDir (dir : Directory) : result (list (string * DirEntry)) :=
  if listable dir
  then Ok (sort_Slice (fun a b => String.ltb (Name a) (Name b))
                      (map_to_list (entries dir)))
  else Err OsReadDirError.

(** [os.ReadFile(filepath.Join(m.dir, name))]. A name that is an entry of
    the directory reads that entry. A name with a path separator is not an
    entry: the joined path leaves the directory, and [beyond] says what is
    found there. *)
Definition ReadFile (dir : Directory) (name : string) : result string :=
  match entries dir !! name with
  | Some (RegularFile content) => Ok content
  | Some _ => Err (OsReadFileError name)
  | None =>
      if strings.Contains name "/"
      then match beyond dir name with
           | Some content => Ok content
           | None => Err (OsReadFileError name)
           end
      else Err (OsReadFileError name)
  end.

(** ** Migrations and the catalog *)

Record Migration : Type := MkMigration
  { Version : string;
    Filename : string;
    SQLContent : string;
    Checksum : string }.

Fixpoint load_entries (dir : Directory) (files : list (string * DirEntry))
  : result (list Migration) :=
  match files with
  | [] => Ok []
  | entry :: rest =>
      if IsDir (snd entry) || negb (strings.HasSuffix (Name entry) ".sql")
      then load_entries dir rest
      else
        let filename := Name entry in
        (* Skip down migrations - they should only be used for rollbacks *)
        if strings.Contains filename "_down_"
        then load_entries dir rest
        else
          let version := strings.TrimSuffix filename ".sql" in
          match ReadFile dir filename with
          | Err e => Err (ErrReadMigrationFile filename e)
          | Ok contentStr =>
              match load_entries dir rest with
              | Err e => Err e
              | Ok migrations =>
                  Ok (MkMigration version filename contentStr
                                  (calculateChecksum contentStr) :: migrations)
              end
          end
  end.

Definition version_less (a b : Migration) : bool :=
  String.ltb (Version a) (Version b).

Definition version_greater (a b : Migration) : bool :=
  String.ltb (Version b) (Version a).

(** [loadMigrationFiles]. *)
Definition loadMigrationFiles (dir : Directory) : result (list Migration) :=
  match ReadDir dir with
  | Err e => Err (ErrReadDir e)
  | Ok files =>
      match load_entries dir files with
      | Err e => Err e
      | Ok migrations => Ok (sort_Slice version_less migrations)
      end
  end.

(** ** The database

    What scripts do to the database is the SQL engine's business: an engine
    is a type of database contents (everything but the ledger rows), the
    effect of a script on it ([None] when the server rejects the script), and
    whether the ledger table still takes row changes in a given state (a
    script that ran earlier in the same transaction may have dropped or
    locked it, as the shipped 001 down script does). *)

Class Engine : Type := MkEngine
  { objects : Type;
    exec_sql : string -> objects -> option objects;
    ledger_writable : objects -> bool }.

(** A row of [schema_migrations]; [version], the primary key, is the key of
    the map that holds the rows. *)
Record LedgerEntry : Type := MkEntry
  { executed_at : nat;
    checksum : option string }.

Definition legacy_checksum : string := "legacy_migration_no_checksum_available".

(** What the runner sends to the database. *)
Inductive Statement : Type :=
| CreateLedgerTable        (* CREATE TABLE IF NOT EXISTS schema_migrations *)
| CreateLedgerIndex        (* CREATE INDEX IF NOT EXISTS idx_..._executed_at *)
| AddChecksumColumn        (* ALTER TABLE ... ADD COLUMN IF NOT EXISTS checksum *)
| BackfillLegacyChecksum   (* UPDATE ... SET checksum = legacy WHERE checksum IS NULL *)
| Script (sql : string)    (* the content of a migration file *)
| InsertLedger (version cksum : string)
                           (* INSERT INTO schema_migrations (version, checksum) *)
| DeleteLedger (version : string).
                           (* DELETE FROM schema_migrations WHERE version = $1 *)

Inductive Query : Type :=
| SelectVersions           (* SELECT version FROM schema_migrations *)
| SelectVersionsChecksums. (* SELECT version, checksum ... ORDER BY version *)

(** The calls made on the pool and on its transactions, in order. A deferred
    [tx.Rollback] is recorded where it ends an open transaction; after a
    commit it finds the transaction closed and does nothing. *)
Inductive Call : Type :=
| PoolExec (st : Statement)
| PoolQuery (q : Query)
| Begin
| TxExec (st : Statement)
| Commit
| Rollback.

Section Runner.

Context {E : Engine}.

Record Database : Type := MkDatabase
  { contents : objects;
    ledger : gmap string LedgerEntry }.

(** The committed database and the server clock, which gives [NOW()]. *)
Record World : Type := MkWorld
  { db : Database;
    now : nat }.

(** An open transaction: its own view of the database and its start time. *)
Record Tx : Type := MkTx
  { view : Database;
    started : nat }.

Definition backfill (r : LedgerEntry) : LedgerEntry :=
  match checksum r with
  | Some _ => r
  | None => MkEntry (executed_at r) (Some legacy_checksum)
  end.

(** The effect of one statement at time [t]. *)
Definition run_statement (st : Statement) (t : nat) (d : Database)
  : result Database :=
  match st with
  | CreateLedgerTable | CreateLedgerIndex | AddChecksumColumn => Ok d
  | BackfillLegacyChecksum =>
      if ledger_writable (contents d)
      then Ok (MkDatabase (contents d) (backfill <$> ledger d))
      else Err PgLedgerUnavailable
  | Script sql =>
      match exec_sql sql (contents d) with
      | Some c => Ok (MkDatabase c (ledger d))
      | None => Err (PgStatementError sql)
      end
  | InsertLedger version cksum =>
      if ledger_writable (contents d)
      then match ledger d !! version with
           | Some _ => Err (PgUniqueViolation version)
           | None =>
               Ok (MkDatabase (contents d)
                              (<[version := MkEntry t (Some cksum)]> (ledger d)))
           end
      else Err PgLedgerUnavailable
  | DeleteLedger version =>
      if ledger_writable (contents d)
      then Ok (MkDatabase (contents d) (delete version (ledger d)))
      else Err PgLedgerUnavailable
  end.

(** *** The runner's monad: the world, an error or a value, the calls made *)

Definition M (A : Type) : Type := World -> result A * World * list Call.

Definition ret {A} (a : A) : M A := fun w => (Ok a, w, []).

Definition fail {A} (e : error) : M A := fun w => (Err e, w, []).

Definition bind {A B} (m : M A) (f : A -> M B) : M B := fun w =>
  match m w with
  | (Ok a, w1, t1) =>
      match f a w1 with
      | (r, w2, t2) => (r, w2, t1 ++ t2)
      end
  | (Err e, w1, t1) => (Err e, w1, t1)
  end.

(** [if err != nil { return fmt.Errorf("...: %w", err) }]. *)
Definition wrap {A} (f : error -> error) (m : M A) : M A := fun w =>
  match m w with
  | (Err e, w1, t1) => (Err (f e), w1, t1)
  | r => r
  end.

(** The same under [defer tx.Rollback(ctx)]: returning the error ends the
    open transaction. *)
Definition wrap_rollback {A} (f : error -> error) (m : M A) : M A := fun w =>
  match m w with
  | (Err e, w1, t1) => (Err (f e), w1, t1 ++ [Rollback])
  | r => r
  end.

Definition lift {A} (r : result A) : M A := fun w => (r, w, []).

Notation "x <- m ;; k" := (bind m (fun x => k))
  (at level 90, m at level 80, k at level 90, right associativity, only parsing).
Notation "m ;;; k" := (bind m (fun _ => k))
  (at level 90, k at level 90, right associativity, only parsing).

(** [m.db.Exec]. *)
Definition pool_Exec (st : Statement) : M unit := fun w =>
  match run_statement st (now w) (db w) with
  | Ok d => (Ok tt, MkWorld d (now w), [PoolExec st])
  | Err e => (Err e, w, [PoolExec st])
  end.

(** [m.db.Begin]. *)
Definition pool_Begin : M Tx := fun w =>
  (Ok (MkTx (db w) (now w)), MkWorld (db w) (S (now w)), [Begin]).

(** [tx.Exec]. *)
Definition tx_Exec (st : Statement) (tx : Tx) : M Tx := fun w =>
  match run_statement st (started tx) (view tx) with
  | Ok d => (Ok (MkTx d (started tx)), w, [TxExec st])
  | Err e => (Err e, w, [TxExec st])
  end.

(** [tx.Commit]. *)
Definition tx_Commit (tx : Tx) : M unit := fun w =>
  (Ok tt, MkWorld (view tx) (now w), [Commit]).

(** *** createMigrationsTable, executeMigrationSQL *)

Definition executeMigrationSQL (st : Statement) : M unit := pool_Exec st.

Definition createMigrationsTable : M unit :=
  executeMigrationSQL CreateLedgerTable ;;;
  executeMigrationSQL CreateLedgerIndex ;;;
  executeMigrationSQL AddChecksumColumn ;;;
  executeMigrationSQL BackfillLegacyChecksum.

(** *** getExecutedMigrations, isMigrationExecuted *)

Definition getExecutedMigrations : M (gset string) := fun w =>
  (Ok (dom (ledger (db w))), w, [PoolQuery SelectVersions]).

Definition isMigrationExecuted (version : string) (executed : gset string) : bool :=
  bool_decide (version ∈ executed).

(** *** executeMigration *)

Definition executeMigration (migration : Migration) : M unit :=
  tx <- pool_Begin ;;
  tx <- wrap_rollback ErrMigrationSQL (tx_Exec (Script (SQLContent migration)) tx) ;;
  tx <- wrap_rollback ErrRecord
          (tx_Exec (InsertLedger (Version migration) (Checksum migration)) tx) ;;
  tx_Commit tx.

(** *** verifyMigrationIntegrity *)

Record ExecutedMigration : Type := MkExecuted
  { ExVersion : string;
    ExChecksum : string }.

(** The rows of [SELECT version, checksum ... ORDER BY version], in byte order. *)
Definition ledger_rows (d : Database) : list (string * option string) :=
  sort_Slice (fun a b => String.ltb (fst a) (fst b))
             ((fun kv => (fst kv, checksum (snd kv))) <$> map_to_list (ledger d)).

(** [rows.Scan(&em.Version, &em.Checksum)]: a NULL does not fit a Go string. *)
Fixpoint scan_rows (rows : list (string * option string))
  : result (list ExecutedMigration) :=
  match rows with
  | [] => Ok []
  | (v, Some c) :: rest =>
      match scan_rows rest with
      | Ok ems => Ok (MkExecuted v c :: ems)
      | Err e => Err e
      end
  | (v, None) :: rest => Err (ErrScanExecuted PgScanNull)
  end.

(** Verify each executed migration against current file checksum. *)
Fixpoint verify_rows (migrations : list Migration) (rows : list ExecutedMigration)
  : result unit :=
  match rows with
  | [] => Ok tt
  | executed :: rest =>
      match find (fun mig => String.eqb (Version mig) (ExVersion executed)) migrations with
      | None => Err (ErrNotInDirectory (ExVersion executed))
      | Some currentMigration =>
          if String.eqb (ExChecksum executed) legacy_checksum
          then verify_rows migrations rest
          else if negb (String.eqb (Checksum currentMigration) (ExChecksum executed))
          then Err (ErrChecksumMismatch (ExVersion executed))
          else verify_rows migrations rest
      end
  end.

Definition verifyMigrationIntegrity (migrations : list Migration) : M unit := fun w =>
  (match scan_rows (ledger_rows (db w)) with
   | Err e => Err e
   | Ok executedMigrations => verify_rows migrations executedMigrations
   end, w, [PoolQuery SelectVersionsChecksums]).

(** *** RunMigrations *)

(** The loop over the catalog: run pending migrations. *)
Fixpoint run_pending (executedMigrations : gset string) (migrations : list Migration)
  : M unit :=
  match migrations with
  | [] => ret tt
  | migration :: rest =>
      if negb (isMigrationExecuted (Version migration) executedMigrations)
      then
        wrap (ErrExecuteMigration (Version migration)) (executeMigration migration) ;;;
        run_pending executedMigrations rest
      else run_pending executedMigrations rest
  end.

Definition RunMigrations (dir : Directory) : M unit :=
  wrap ErrCreateTable createMigrationsTable ;;;
  migrations <- wrap ErrLoadFiles (lift (loadMigrationFiles dir)) ;;
  executedMigrations <- wrap ErrGetExecuted getExecutedMigrations ;;
  run_pending executedMigrations migrations ;;;
  wrap ErrIntegrity (verifyMigrationIntegrity migrations).

(** *** Down migrations *)

(** The file a version is rolled back with: the three shipped versions by
    name, any other by the first directory entry that is marked [_down_]
    and contains the version, else [<version>_down.sql]. The source has
    this switch twice, in [RollbackLastMigration] and [RunDownMigrations]. *)
Definition downFilename (dir : Directory) (version : string) : string :=
  if String.eqb version "001_create_schema_migrations_table"
  then "001_down_create_schema_migrations_table.sql"
  else if String.eqb version "002_create_users_table"
  then "002_down_create_users_table.sql"
  else if String.eqb version "003_create_indexes"
  then "003_down_create_indexes.sql"
  else
    let found :=
      match ReadDir dir with
      | Ok files =>
          find (fun file => strings.Contains (Name file) "_down_"
                            && strings.Contains (Name file) version) files
      | Err _ => None
      end in
    match found with
    | Some file => Name file
    | None => version +:+ "_down.sql"
    end.

(** Read the down file, then in one transaction run it and delete the
    ledger row. Both rollback operations do exactly this for a version. *)
Definition rollback_version (dir : Directory) (version : string) : M unit :=
  let downFilename := downFilename dir version in
  content <- wrap (ErrReadRollbackFile downFilename) (lift (ReadFile dir downFilename)) ;;
  tx <- pool_Begin ;;
  tx <- wrap_rollback ErrRollbackSQL (tx_Exec (Script content) tx) ;;
  tx <- wrap_rollback ErrRemoveTracking (tx_Exec (DeleteLedger version) tx) ;;
  tx_Commit tx.

(** Find the last executed migration: the greatest key of the map. *)
Definition last_version (versions : list string) : string :=
  fold_left (fun lastMigration version =>
               if String.ltb lastMigration version then version else lastMigration)
            versions "".

Definition RollbackLastMigration (dir : Directory) : M unit :=
  executedMigrations <- wrap ErrGetExecuted getExecutedMigrations ;;
  if (size executedMigrations =? 0)%nat
  then ret tt
  else
    let lastMigration := last_version (elements executedMigrations) in
    rollback_version dir lastMigration.

Fixpoint rollback_each (dir : Directory) (executedMigrations : gset string)
         (targetVersion : string) (migrationFiles : list Migration) : M unit :=
  match migrationFiles with
  | [] => ret tt
  | migration :: rest =>
      if negb (strings.Contains (Version migration) "_down_")
         && (isMigrationExecuted (Version migration) executedMigrations
             && String.ltb targetVersion (Version migration))
      then
        rollback_version dir (Version migration) ;;;
        rollback_each dir executedMigrations targetVersion rest
      else rollback_each dir executedMigrations targetVersion rest
  end.

Definition RunDownMigrations (dir : Directory) (targetVersion : string) : M unit :=
  executedMigrations <- wrap ErrGetExecuted getExecutedMigrations ;;
  migrationFiles <- wrap ErrLoadFiles (lift (loadMigrationFiles dir)) ;;
  (* Sort migrations in reverse order for rollback *)
  let migrationFiles := sort_Slice version_greater migrationFiles in
  rollback_each dir executedMigrations targetVersion migrationFiles.

End Runner.

(** ** Vocabulary of the statements *)

(** A forward script by its name: ends in .sql, not marked as a down script. *)
Definition forward_name (name : string) : bool :=
  strings.HasSuffix name ".sql" && negb (strings.Contains name "_down_").

(** The catalog entry [loadMigrationFiles] builds from a file. *)
Definition migration_of (name content : string) : Migration :=
  MkMigration (strings.TrimSuffix name ".sql") name content (calculateChecksum content).

Definition ascending (a b : Migration) : Prop :=
  String.ltb (Version a) (Version b) = true.

Definition descending (a b : Migration) : Prop :=
  String.ltb (Version b) (Version a) = true.

(** The calls of one migration that goes through: its own transaction. *)
Definition apply_calls (m : Migration) : list Call :=
  [Begin; TxExec (Script (SQLContent m));
   TxExec (InsertLedger (Version m) (Checksum m)); Commit].

(** The calls of a migration that does not: the transaction is rolled back,
    after the script alone or after the script and the refused insert. *)
Definition failed_apply_calls (m : Migration) (insert_reached : bool) : list Call :=
  Begin :: TxExec (Script (SQLContent m))
  :: (if insert_reached then [TxExec (InsertLedger (Version m) (Checksum m))] else [])
  ++ [Rollback].

(** What [RunMigrations] sends before its loop. *)
Definition prelude_calls : list Call :=
  [PoolExec CreateLedgerTable; PoolExec CreateLedgerIndex;
   PoolExec AddChecksumColumn; PoolExec BackfillLegacyChecksum;
   PoolQuery SelectVersions].

(** The calls of one version rolled back with the down script [content]. *)
Definition rollback_calls (content version : string) : list Call :=
  [Begin; TxExec (Script content); TxExec (DeleteLedger version); Commit].

(** The calls of a rollback that does not go through: the down script is
    rejected, or the ledger delete after it is refused. *)
Definition failed_rollback_calls (content version : string) (delete_reached : bool)
  : list Call :=
  Begin :: TxExec (Script content)
  :: (if delete_reached then [TxExec (DeleteLedger version)] else [])
  ++ [Rollback].

(** Pending = catalog scripts whose version is not in the applied set. *)
Definition pending (applied : gset string) (catalog : list Migration) : list Migration :=
  filter (fun m => Version m ∉ applied) catalog.

(** The ledger after the migrations [ms] were recorded one after the other,
    the first at time [t]. *)
Fixpoint record_all (t : nat) (ms : list Migration) (l : gmap string LedgerEntry)
  : gmap string LedgerEntry :=
  match ms with
  | [] => l
  | m :: ms' =>
      record_all (S t) ms' (<[Version m := MkEntry t (Some (Checksum m))]> l)
  end.

(** A ledger row whose version no catalog script has. *)
Definition orphaned (catalog : list Migration) (l : gmap string LedgerEntry)
           (v : string) : Prop :=
  is_Some (l !! v) /\ v ∉ Version <$> catalog.

(** A ledger row, not a legacy one, whose checksum is not the one of the
    catalog script of its version. *)
Definition modified (catalog : list Migration) (l : gmap string LedgerEntry)
           (v : string) : Prop :=
  exists entry c m,
    l !! v = Some entry /\ checksum entry = Some c /\ c <> legacy_checksum
    /\ m ∈ catalog /\ Version m = v /\ Checksum m <> c.

(** The versions [RunDownMigrations] goes through: those of the catalog,
    greatest first, that are applied and greater than the target. *)
Definition candidates (applied : gset string) (target : string)
           (catalog : list Migration) : list string :=
  Version <$> filter (fun m => Version m ∈ applied /\ String.ltb target (Version m) = true)
                     (sort_Slice version_greater catalog).

(** The ledger without the rows of these versions. *)
Definition remove_all (versions : list string) (l : gmap string LedgerEntry)
  : gmap string LedgerEntry :=
  foldl (fun l v => delete v l) l versions.

Section EngineVocabulary.

Context {E : Engine}.

(** A script goes through in its transaction: the server accepts it and the
    ledger can still be written afterwards. *)
Definition script_passes (body : string) (c : objects) : bool :=
  match exec_sql body c with
  | Some c' => ledger_writable c'
  | None => false
  end.

(** The database contents after the scripts ran in order, each going through. *)
Fixpoint scripts_pass (bodies : list string) (c : objects) : option objects :=
  match bodies with
  | [] => Some c
  | body :: rest =>
      match exec_sql body c with
      | Some c' => if ledger_writable c' then scripts_pass rest c' else None
      | None => None
      end
  end.

(** What integrity verification answers on a database. *)
Definition integrity (catalog : list Migration) (d : Database) : result unit :=
  match scan_rows (ledger_rows d) with
  | Err e => Err e
  | Ok executedMigrations => verify_rows catalog executedMigrations
  end.

(** The answer of [RunMigrations] once its loop is through. *)
Definition integrity_answer (catalog : list Migration) (d : Database) : result unit :=
  match integrity catalog d with
  | Ok _ => Ok tt
  | Err e => Err (ErrIntegrity e)
  end.

(** The content of the down script resolved for a version, if it can be read. *)
Definition down_content (dir : Directory) (version : string) : option string :=
  match ReadFile dir (downFilename dir version) with
  | Ok content => Some content
  | Err _ => None
  end.

(** The rollback of a version goes through: its down script is there, the
    server accepts it, and the ledger can still be written afterwards. *)
Definition rollback_passes (dir : Directory) (version : string) (c : objects) : bool :=
  match down_content dir version with
  | Some content => script_passes content c
  | None => false
  end.

(** The database contents after these versions were rolled back in order. *)
Fixpoint rollbacks_pass (dir : Directory) (versions : list string) (c : objects)
  : option objects :=
  match versions with
  | [] => Some c
  | v :: rest =>
      match down_content dir v with
      | Some content =>
          match exec_sql content c with
          | Some c' => if ledger_writable c' then rollbacks_pass dir rest c' else None
          | None => None
          end
      | None => None
      end
  end.

(** The calls of the versions rolled back one after the other. *)
Definition rollbacks_calls (dir : Directory) (versions : list string) : list Call :=
  concat ((fun v => rollback_calls (default "" (down_content dir v)) v) <$> versions).

End EngineVocabulary.

(** ** Worked examples

    A small engine: the database contents are the scripts that ran, most
    recent first; a script that contains INVALID is rejected, and the ledger
    stops taking rows once a script dropped its table. *)

Definition toy_exec (sql : string) (history : list string) : option (list string) :=
  if strings.Contains sql "INVALID" then None else Some (sql :: history).

Definition toy_writable (history : list string) : bool :=
  forallb (fun q => negb (strings.Contains q "DROP TABLE schema_migrations")) history.

Definition toy : Engine := MkEngine (list string) toy_exec toy_writable.

(** Three forward scripts, a down script and a subdirectory. *)
Definition dir_abc : Directory :=
  MkDirectory true
    (list_to_map
       [("001_a.sql", RegularFile "CREATE a"); ("002_b.sql", RegularFile "CREATE b");
        ("003_c.sql", RegularFile "CREATE c"); ("002_down_b.sql", RegularFile "DROP b");
        ("notes", SubDirectory)])
    (fun _ => None).

(** The same with an invalid second script. *)
Definition dir_bad : Directory :=
  MkDirectory true
    (list_to_map
       [("001_a.sql", RegularFile "CREATE a"); ("002_b.sql", RegularFile "INVALID b");
        ("003_c.sql", RegularFile "CREATE c")])
    (fun _ => None).

(** A database on which nothing ran yet. *)
Definition fresh : @World toy := @MkWorld toy (@MkDatabase toy [] ∅) 0.

(** The row a script with this content leaves when applied at time [t]. *)
Definition applied_row (t : nat) (content : string) : LedgerEntry :=
  MkEntry t (Some (calculateChecksum content)).

(** [dir_abc] fully applied, after which 002_b.sql was edited on disk. *)
Definition tampered : @World toy :=
  @MkWorld toy
    (@MkDatabase toy ["CREATE c"; "CREATE b -- as first applied"; "CREATE a"]
       (list_to_map
          [("001_a", applied_row 0 "CREATE a");
           ("002_b", applied_row 1 "CREATE b -- as first applied");
           ("003_c", applied_row 2 "CREATE c")]))
    3.

(** A ledger row whose script is gone from the directory. *)
Definition orphan_world : @World toy :=
  @MkWorld toy
    (@MkDatabase toy ["CREATE z"] (list_to_map [("000_gone", applied_row 0 "CREATE z")]))
    1.

(** 001_a applied before checksums were recorded. *)
Definition legacy_world : @World toy :=
  @MkWorld toy
    (@MkDatabase toy ["CREATE a"] (list_to_map [("001_a", MkEntry 0 (Some legacy_checksum))]))
    1.

(** Two applied scripts whose down scripts carry the fallback names. *)
Definition dir_down : Directory :=
  MkDirectory true
    (list_to_map
       [("001_a.sql", RegularFile "CREATE a"); ("001_a_down.sql", RegularFile "DROP a");
        ("002_b.sql", RegularFile "CREATE b"); ("002_b_down.sql", RegularFile "DROP b")])
    (fun _ => None).

Definition two_applied : @World toy :=
  @MkWorld toy
    (@MkDatabase toy ["CREATE b"; "CREATE a"]
       (list_to_map [("001_a", applied_row 0 "CREATE a"); ("002_b", applied_row 1 "CREATE b")]))
    2.

(** A script and its down script named as the built-in ones are
    (NNN_description.sql, NNN_down_description.sql), applied. *)
Definition dir_conventional : Directory :=
  MkDirectory true
    (list_to_map
       [("004_add_email.sql", RegularFile "ALTER TABLE users ADD email");
        ("004_down_add_email.sql", RegularFile "ALTER TABLE users DROP email")])
    (fun _ => None).

Definition email_applied : @World toy :=
  @MkWorld toy
    (@MkDatabase toy ["ALTER TABLE users ADD email"]
       (list_to_map [("004_add_email", applied_row 0 "ALTER TABLE users ADD email")]))
    1.

(** ** More of the package: the exported methods, more vocabulary *)

(** [LoadMigrationFiles], the exported form of [loadMigrationFiles]. *)
Definition LoadMigrationFiles (dir : Directory) : result (list Migration) :=
  loadMigrationFiles dir.

(** [GetExecutedMigrations], the exported form of [getExecutedMigrations]. *)
Definition GetExecutedMigrations {E : Engine} : M (gset string) :=
  getExecutedMigrations.

(** A character [hex.EncodeToString] can print. *)
Definition lower_hex (c : ascii) : bool :=
  existsb (Ascii.eqb c) (list_ascii_of_string "0123456789abcdef").

(** A file [loadMigrationFiles] wants to read and cannot. *)
Definition unreadable_forward (dir : Directory) (name : string) : Prop :=
  entries dir !! name = Some UnreadableFile /\ forward_name name = true.

(** [dir_abc] with a script, a down script and a text file that cannot be read. *)
Definition dir_locked : Directory :=
  MkDirectory true
    (list_to_map
       [("001_a.sql", RegularFile "CREATE a"); ("002_b.sql", UnreadableFile);
        ("003_c.sql", UnreadableFile); ("002_down_b.sql", UnreadableFile);
        ("notes.txt", UnreadableFile)])
    (fun _ => None).

(** [dir_abc] without its down script and its subdirectory. *)
Definition dir_forward_only : Directory :=
  MkDirectory true
    (list_to_map
       [("001_a.sql", RegularFile "CREATE a"); ("002_b.sql", RegularFile "CREATE b");
        ("003_c.sql", RegularFile "CREATE c")])
    (fun _ => None).

(** What the directory scan of the rollback operations looks for in a name. *)
Definition down_match (version name : string) : bool :=
  strings.Contains name "_down_" && strings.Contains name version.

(** Two files that the scan takes for the down script of 005_x, one of them
    a directory, and the file with the fallback name. *)
Definition dir_scan : Directory :=
  MkDirectory true
    (list_to_map
       [("005_x.sql", RegularFile "CREATE x");
        ("005_x_down_b.sql", RegularFile "DROP x");
        ("005_x_down_a.sql", SubDirectory);
        ("005_x_down.sql", RegularFile "DROP x")])
    (fun _ => None).

(** 001_a applied by a runner that had no checksum column: the checksum is NULL. *)
Definition null_world : @World toy :=
  @MkWorld toy (@MkDatabase toy ["CREATE a"] (list_to_map [("001_a", MkEntry 0 None)])) 1.

(** Two scripts whose down scripts the directory scan finds. *)
Definition dir_updown : Directory :=
  MkDirectory true
    (list_to_map
       [("001_a.sql", RegularFile "CREATE a"); ("001_a_down_v1.sql", RegularFile "DROP a");
        ("002_b.sql", RegularFile "CREATE b"); ("002_b_down_v1.sql", RegularFile "DROP b")])
    (fun _ => None).

(** The directory before 001_a.sql and 003_c.sql were added to it. *)
Definition dir_b_only : Directory :=
  MkDirectory true (list_to_map [("002_b.sql", RegularFile "CREATE b")])
    (fun _ => None).

(** A row whose script is gone, and after it a row whose script was edited. *)
Definition two_bad_world : @World toy :=
  @MkWorld toy
    (@MkDatabase toy ["CREATE b -- as first applied"; "CREATE z"]
       (list_to_map
          [("000_gone", applied_row 0 "CREATE z");
           ("002_b", applied_row 1 "CREATE b -- as first applied")]))
    2.

(** The file a version is rolled back with, said without the code: the
    three shipped versions have their down scripts by name; for any other
    version it is the first entry of the directory, in name order, whose
    name contains both [_down_] and the version, and [<version>_down.sql]
    when there is no such entry or the directory cannot be listed. *)
Definition resolved_down_name (dir : Directory) (version name : string) : Prop :=
  (version = "001_create_schema_migrations_table"
   /\ name = "001_down_create_schema_migrations_table.sql")
  \/ (version = "002_create_users_table" /\ name = "002_down_create_users_table.sql")
  \/ (version = "003_create_indexes" /\ name = "003_down_create_indexes.sql")
  \/ (version <> "001_create_schema_migrations_table"
      /\ version <> "002_create_users_table"
      /\ version <> "003_create_indexes"
      /\ ((listable dir = true
           /\ is_Some (entries dir !! name)
           /\ down_match version name = true
           /\ forall other, is_Some (entries dir !! other) ->
                            down_match version other = true ->
                            String.ltb other name = false)
          \/ (name = version +:+ "_down.sql"
              /\ (listable dir = false
                  \/ forall other, is_Some (entries dir !! other) ->
                                   down_match version other = false)))).

(** The shipped users script with its down script, and a file under the
    fallback name that must not be taken for it. *)
Definition dir_shipped : Directory :=
  MkDirectory true
    (list_to_map
       [("002_create_users_table.sql", RegularFile "CREATE TABLE users");
        ("002_down_create_users_table.sql", RegularFile "DROP TABLE users");
        ("002_create_users_table_down.sql", RegularFile "INVALID decoy")])
    (fun _ => None).

Definition users_applied : @World toy :=
  @MkWorld toy
    (@MkDatabase toy ["CREATE TABLE users"]
       (list_to_map [("002_create_users_table", applied_row 0 "CREATE TABLE users")]))
    1.

(** * Properties *)

Example calculateChecksum_empty :
  calculateChecksum "" = "e3b0c44298fc1c149afbf4c8996fb92427ae41e4649b934ca495991b7852b855".
Proof. vm_compute. reflexivity. Qed.

Example calculateChecksum_abc :
  calculateChecksum "abc" = "ba7816bf8f01cfea414140de5dae2223b00361a396177a9cb410ff61f20015ad".
Proof. vm_compute. reflexivity. Qed.

Example calculateChecksum_two_blocks :
  calculateChecksum "abcdbcdecdefdefgefghfghighijhijkijkljklmklmnlmnomnopnopq"
  = "248d6a61d20638b8e5c026930c3e6039a33ce45964ff2167f6ecedd419db06c1".
Proof. vm_compute. reflexivity. Qed.

Example calculateChecksum_sql :
  calculateChecksum "CREATE TABLE a"
  = "6300e8a1d644c77dcdcdbbb4724a990014d362334bbdb1ff58090bab747dc8fc".
Proof. vm_compute. reflexivity. Qed.

(** Every checksum is 64 hex digits, so [migration.Checksum[:16]] is in range. *)
Lemma calculateChecksum_length content :
  String.length (calculateChecksum content) = 64.
Proof. reflexivity. Qed.

(** ** Facts about the string helpers *)

Section StringFacts.

Import strings.

Lemma append_cons (c : ascii) (a b : string) :
  String c a +:+ b = String c (a +:+ b).
Proof. reflexivity. Qed.

Lemma substring_all (s : string) : substring 0 (String.length s) s = s.
Proof. induction s as [|d s IH]; simpl; congruence. Qed.

Lemma substring_split (s : string) (n : nat) :
  n <= String.length s ->
  s = substring 0 n s +:+ substring n (String.length s - n) s.
Proof.
  revert n. induction s as [|c s IH]; intros [|n] Hn; simpl in *; try lia.
  - reflexivity.
  - change (String c s = String c (substring 0 (String.length s) s)).
    now rewrite substring_all.
  - rewrite append_cons. f_equal. apply IH. lia.
Qed.

Lemma HasSuffix_split (s suffix : string) :
  HasSuffix s suffix = true -> s = TrimSuffix s suffix +:+ suffix.
Proof.
  intros H. unfold TrimSuffix. rewrite H.
  unfold HasSuffix in H. apply andb_prop in H as [Hlen Heq].
  apply Nat.leb_le in Hlen. apply String.eqb_eq in Heq.
  rewrite (substring_split s (String.length s - String.length suffix)) at 1 by lia.
  f_equal.
  replace (String.length s - (String.length s - String.length suffix))
    with (String.length suffix) by lia.
  exact Heq.
Qed.

Lemma TrimSuffix_inj (a b suffix : string) :
  HasSuffix a suffix = true -> HasSuffix b suffix = true ->
  TrimSuffix a suffix = TrimSuffix b suffix -> a = b.
Proof.
  intros Ha Hb Heq.
  rewrite (HasSuffix_split a suffix Ha), (HasSuffix_split b suffix Hb).
  now rewrite Heq.
Qed.

Lemma HasPrefix_app (a b p : string) :
  HasPrefix a p = true -> HasPrefix (a +:+ b) p = true.
Proof.
  revert a. induction p as [|c p IH]; intros [|d a]; simpl; try easy.
  intros H. apply andb_prop in H as [-> H]. now apply IH.
Qed.

Lemma Contains_app (a b substr : string) :
  Contains a substr = true -> Contains (a +:+ b) substr = true.
Proof.
  induction a as [|d a IH]; simpl.
  - rewrite orb_false_r. destruct substr; [|discriminate].
    intros _. destruct b; reflexivity.
  - intros H. apply orb_prop in H as [H|H].
    + apply (HasPrefix_app _ b) in H. rewrite append_cons in H.
      now rewrite H.
    + rewrite (IH H). apply orb_true_r.
Qed.

(** A name that lacks a substring keeps lacking it once [TrimSuffix] cut it. *)
Lemma Contains_TrimSuffix (s suffix substr : string) :
  Contains s substr = false -> Contains (TrimSuffix s suffix) substr = false.
Proof.
  intros H. destruct (HasSuffix s suffix) eqn:Hs.
  - destruct (Contains (TrimSuffix s suffix) substr) eqn:Hc; [|reflexivity].
    rewrite (HasSuffix_split s suffix Hs) in H.
    now rewrite (Contains_app _ suffix _ Hc) in H.
  - unfold TrimSuffix. now rewrite Hs.
Qed.

End StringFacts.

(** ** Go's [<] on strings: byte-wise lexicographic order *)

Section StringOrder.

Lemma compare_as_OT (a b : string) : String.compare a b = String_as_OT.compare a b.
Proof. revert b. induction a; intros [|? b]; simpl; auto. Qed.

Lemma ltb_lt (a b : string) : String.ltb a b = true <-> String_as_OT.lt a b.
Proof.
  unfold String.ltb, String_as_OT.lt. rewrite compare_as_OT.
  destruct (String_as_OT.compare a b); split; congruence.
Qed.

Lemma ltb_irrefl (a : string) : String.ltb a a = false.
Proof.
  destruct (String.ltb a a) eqn:H; [|reflexivity].
  apply ltb_lt in H. now apply (StrictOrder_Irreflexive a) in H.
Qed.

Lemma ltb_trans (a b c : string) :
  String.ltb a b = true -> String.ltb b c = true -> String.ltb a c = true.
Proof.
  rewrite !ltb_lt. apply (StrictOrder_Transitive (R := String_as_OT.lt)).
Qed.

Lemma ltb_asym (a b : string) : String.ltb a b = true -> String.ltb b a = false.
Proof.
  intros H. destruct (String.ltb b a) eqn:H'; [|reflexivity].
  pose proof (ltb_trans _ _ _ H H') as Hc. now rewrite ltb_irrefl in Hc.
Qed.

Lemma ltb_trichotomy (a b : string) :
  String.ltb a b = true \/ a = b \/ String.ltb b a = true.
Proof.
  rewrite !ltb_lt.
  destruct (String_as_OT.compare_spec a b) as [H|H|H]; auto.
Qed.

End StringOrder.

Section SortSliceFacts.

Context {A : Type} (less : A -> A -> bool).

Lemma insert_sorted_perm x l : insert_sorted less x l ≡ₚ x :: l.
Proof.
  induction l as [|y l IH]; simpl; [reflexivity|].
  destruct (less y x); [|reflexivity].
  rewrite IH. apply Permutation_swap.
Qed.

Lemma sort_Slice_perm l : sort_Slice less l ≡ₚ l.
Proof.
  induction l as [|x l IH]; simpl; [reflexivity|].
  now rewrite insert_sorted_perm, IH.
Qed.

Lemma sort_Slice_elem x l : x ∈ sort_Slice less l <-> x ∈ l.
Proof. now rewrite sort_Slice_perm. Qed.

(** [less] is a strict order that compares any two different elements of
    the slice: what [String.ltb] on pairwise different versions gives. *)
Definition strict_on (l : list A) : Prop :=
  (forall x y z, less x y = true -> less y z = true -> less x z = true)
  /\ (forall x y, x ∈ l -> y ∈ l -> x <> y -> less x y = true \/ less y x = true).

Definition lessP (x y : A) : Prop := less x y = true.

Lemma insert_sorted_sorted x l :
  (forall x y z, less x y = true -> less y z = true -> less x z = true) ->
  (forall y, y ∈ l -> less y x = true \/ less x y = true) ->
  StronglySorted lessP l -> StronglySorted lessP (insert_sorted less x l).
Proof.
  intros Htr Htot Hs. induction Hs as [|y l Hs IH Hy]; simpl.
  - repeat constructor.
  - destruct (less y x) eqn:Hyx.
    + constructor.
      * apply IH. intros z Hz. apply Htot. now right.
      * apply Forall_forall. intros z Hz.
        rewrite insert_sorted_perm in Hz. apply elem_of_cons in Hz as [->|Hz]; [exact Hyx|].
        rewrite Forall_forall in Hy. now apply Hy.
    + assert (Hxy : less x y = true).
      { destruct (Htot y) as [H|H]; [now left|congruence|exact H]. }
      constructor; [now constructor|].
      constructor; [exact Hxy|].
      apply Forall_forall. intros z Hz. rewrite Forall_forall in Hy.
      apply (Htr x y z Hxy). now apply Hy.
Qed.

Lemma sort_Slice_sorted l :
  NoDup l -> strict_on l -> StronglySorted lessP (sort_Slice less l).
Proof.
  intros Hnd [Htr Htot]. induction l as [|x l IH]; simpl; [constructor|].
  apply NoDup_cons in Hnd as [Hx Hnd].
  apply insert_sorted_sorted; [exact Htr| |].
  - intros y Hy. apply (proj1 (sort_Slice_elem y l)) in Hy.
    apply Htot; [now right|now left|]. intros ->. contradiction.
  - apply IH; [exact Hnd|].
    intros a b Ha Hb. apply Htot; now right.
Qed.

(** Two strictly sorted slices with the same elements are the same slice. *)
Lemma sorted_unique l1 l2 :
  (forall x, less x x = false) ->
  (forall x y z, less x y = true -> less y z = true -> less x z = true) ->
  StronglySorted lessP l1 -> StronglySorted lessP l2 -> l1 ≡ₚ l2 -> l1 = l2.
Proof.
  intros Hirr Htr Hs1. revert l2.
  induction Hs1 as [|x l1 Hs1 IH Hx]; intros l2 Hs2 Hp.
  - now apply Permutation_nil_l in Hp.
  - destruct Hs2 as [|y l2 Hs2 Hy].
    + now apply Permutation_nil_r in Hp.
    + rewrite Forall_forall in Hx, Hy.
      assert (x = y) as <-.
      { assert (Hxin : x ∈ y :: l2) by (rewrite <- Hp; now left).
        assert (Hyin : y ∈ x :: l1) by (rewrite Hp; now left).
        apply elem_of_cons in Hxin as [?|Hxin]; [assumption|].
        apply elem_of_cons in Hyin as [?|Hyin]; [congruence|].
        specialize (Hx _ Hyin). specialize (Hy _ Hxin).
        pose proof (Htr _ _ _ Hx Hy) as Hc. now rewrite Hirr in Hc. }
      f_equal. apply IH; [exact Hs2|]. now apply Permutation_cons_inv in Hp.
Qed.

End SortSliceFacts.

(** ** The catalog *)

Section Catalog.

Lemma ReadDir_elem dir files name e :
  ReadDir dir = Ok files -> (name, e) ∈ files <-> entries dir !! name = Some e.
Proof.
  unfold ReadDir. destruct (listable dir); [|discriminate].
  intros [= <-]. rewrite sort_Slice_elem. apply elem_of_map_to_list.
Qed.

Lemma ReadDir_NoDup dir files : ReadDir dir = Ok files -> NoDup (fst <$> files).
Proof.
  unfold ReadDir. destruct (listable dir); [|discriminate].
  intros [= <-]. rewrite sort_Slice_perm. apply NoDup_fst_map_to_list.
Qed.

Lemma load_entries_elem dir files migrations :
  (forall name e, (name, e) ∈ files -> entries dir !! name = Some e) ->
  load_entries dir files = Ok migrations ->
  forall m, m ∈ migrations <->
    exists name content,
      (name, RegularFile content) ∈ files /\ forward_name name = true
      /\ m = migration_of name content.
Proof.
  revert migrations. induction files as [|[name e] files IH]; intros migrations Hdir Hload m.
  - injection Hload as <-. split; [intros H; inversion H|].
    intros (n & c & H & _). inversion H.
  - assert (Hrest : forall n e', (n, e') ∈ files -> entries dir !! n = Some e').
    { intros n e' H. apply Hdir. now right. }
    simpl in Hload. unfold Name in Hload. simpl in Hload.
    assert (Hskip : forall ms, load_entries dir files = Ok ms ->
              (IsDir e || negb (strings.HasSuffix name ".sql") = true
               \/ strings.Contains name "_down_" = true) ->
              forall m, m ∈ ms <-> exists n c, (n, RegularFile c) ∈ (name, e) :: files
                                    /\ forward_name n = true /\ m = migration_of n c).
    { intros ms Hms Hcond m'. rewrite (IH ms Hrest Hms m'). split.
      - intros (n & c & Hin & Hf & ->). exists n, c. split; [now right|done].
      - intros (n & c & Hin & Hf & ->). exists n, c. split; [|done].
        apply elem_of_cons in Hin as [[= -> <-]|Hin]; [|done].
        unfold forward_name in Hf. apply andb_prop in Hf as [Hs Hd].
        rewrite Hs in Hcond. simpl in Hcond.
        destruct Hcond as [Hc|Hc]; [discriminate|].
        rewrite Hc in Hd. discriminate. }
    destruct (IsDir e || negb (strings.HasSuffix name ".sql")) eqn:Hc1.
    { apply (Hskip _ Hload). now left. }
    destruct (strings.Contains name "_down_") eqn:Hc2.
    { apply (Hskip _ Hload). now right. }
    apply orb_false_elim in Hc1 as [Hd Hs]. apply negb_false_iff in Hs.
    unfold ReadFile in Hload. rewrite (Hdir name e) in Hload by now left.
    destruct e as [|content|]; try discriminate.
    destruct (load_entries dir files) as [ms|] eqn:Hms; [|discriminate].
    injection Hload as <-. rewrite elem_of_cons, (IH ms Hrest eq_refl m). split.
    + intros [->|(n & c & Hin & Hf & ->)].
      * exists name, content. split; [now left|]. split; [|done].
        unfold forward_name. now rewrite Hs, Hc2.
      * exists n, c. split; [now right|done].
    + intros (n & c & Hin & Hf & ->).
      apply elem_of_cons in Hin as [[= -> ->]|Hin]; [now left|].
      right. now exists n, c.
Qed.

Lemma load_entries_NoDup dir files migrations :
  (forall name e, (name, e) ∈ files -> entries dir !! name = Some e) ->
  NoDup (fst <$> files) ->
  load_entries dir files = Ok migrations ->
  NoDup (Version <$> migrations).
Proof.
  revert migrations. induction files as [|[name e] files IH]; intros migrations Hdir Hnd Hload.
  - injection Hload as <-. constructor.
  - assert (Hrest : forall n e', (n, e') ∈ files -> entries dir !! n = Some e').
    { intros n e' H. apply Hdir. now right. }
    simpl in Hnd. apply NoDup_cons in Hnd as [Hname Hnd].
    simpl in Hload. unfold Name in Hload. simpl in Hload.
    destruct (IsDir e || negb (strings.HasSuffix name ".sql")) eqn:Hc1; [now apply IH|].
    destruct (strings.Contains name "_down_") eqn:Hc2; [now apply IH|].
    apply orb_false_elim in Hc1 as [Hd Hs]. apply negb_false_iff in Hs.
    destruct (ReadFile dir name) as [content|]; [|discriminate].
    destruct (load_entries dir files) as [ms|] eqn:Hms; [|discriminate].
    injection Hload as <-. simpl. apply NoDup_cons. split; [|now apply IH].
    intros Hin. apply list_elem_of_fmap in Hin as (m & Hv & Hm).
    apply (load_entries_elem dir files ms Hrest Hms) in Hm as (n & c & Hin & Hf & ->).
    simpl in Hv. unfold forward_name in Hf. apply andb_prop in Hf as [Hs' _].
    apply TrimSuffix_inj in Hv; [|done..]. subst n.
    apply Hname. apply list_elem_of_fmap. now exists (name, RegularFile c).
Qed.

Lemma version_less_strict (l : list Migration) :
  NoDup (Version <$> l) -> strict_on version_less l.
Proof.
  intros Hnd. split.
  - intros x y z. apply ltb_trans.
  - intros x y Hx Hy Hne. unfold version_less.
    destruct (ltb_trichotomy (Version x) (Version y)) as [H|[H|H]]; auto.
    exfalso. apply Hne.
    apply list_elem_of_lookup in Hx as [i Hi]. apply list_elem_of_lookup in Hy as [j Hj].
    assert (i = j) as ->.
    { apply (NoDup_lookup (Version <$> l) i j (Version x)); [done| |].
      - now rewrite list_lookup_fmap, Hi.
      - now rewrite list_lookup_fmap, Hj, H. }
    congruence.
Qed.

Lemma version_greater_strict (l : list Migration) :
  NoDup (Version <$> l) -> strict_on version_greater l.
Proof.
  intros Hnd. destruct (version_less_strict l Hnd) as [Htr Htot]. split.
  - intros x y z Hxy Hyz. exact (Htr z y x Hyz Hxy).
  - intros x y Hx Hy Hne. destruct (Htot x y Hx Hy Hne); auto.
Qed.

Lemma loadMigrationFiles_elem dir catalog :
  loadMigrationFiles dir = Ok catalog ->
  forall m, m ∈ catalog <->
    exists name content,
      entries dir !! name = Some (RegularFile content) /\ forward_name name = true
      /\ m = migration_of name content.
Proof.
  unfold loadMigrationFiles. destruct (ReadDir dir) as [files|] eqn:Hrd; [|discriminate].
  destruct (load_entries dir files) as [ms|] eqn:Hload; [|discriminate].
  intros [= <-] m. rewrite sort_Slice_elem.
  rewrite (load_entries_elem dir files ms); [|intros n e; now apply ReadDir_elem|done].
  split; intros (n & c & Hin & Hrest); exists n, c; split; try done;
    now apply (ReadDir_elem dir files n (RegularFile c) Hrd).
Qed.

Lemma loadMigrationFiles_NoDup dir catalog :
  loadMigrationFiles dir = Ok catalog -> NoDup (Version <$> catalog).
Proof.
  unfold loadMigrationFiles. destruct (ReadDir dir) as [files|] eqn:Hrd; [|discriminate].
  destruct (load_entries dir files) as [ms|] eqn:Hload; [|discriminate].
  intros [= <-]. rewrite sort_Slice_perm.
  apply (load_entries_NoDup dir files ms); [|now apply (ReadDir_NoDup dir)|done].
  intros n e. now apply ReadDir_elem.
Qed.

Lemma loadMigrationFiles_sorted dir catalog :
  loadMigrationFiles dir = Ok catalog -> StronglySorted ascending catalog.
Proof.
  intros Hload. pose proof (loadMigrationFiles_NoDup dir catalog Hload) as Hnd.
  unfold loadMigrationFiles in Hload.
  destruct (ReadDir dir) as [files|] eqn:Hrd; [|discriminate].
  destruct (load_entries dir files) as [ms|] eqn:Hms; [|discriminate].
  injection Hload as <-. rewrite sort_Slice_perm in Hnd.
  apply (sort_Slice_sorted version_less ms).
  - eapply NoDup_fmap_1. exact Hnd.
  - now apply version_less_strict.
Qed.

Lemma catalog_no_down_marker dir catalog m :
  loadMigrationFiles dir = Ok catalog -> m ∈ catalog ->
  strings.Contains (Version m) "_down_" = false.
Proof.
  intros Hload Hm. apply (loadMigrationFiles_elem dir catalog Hload) in Hm
    as (n & c & _ & Hf & ->). simpl.
  unfold forward_name in Hf. apply andb_prop in Hf as [_ Hd].
  apply negb_true_iff in Hd. now apply Contains_TrimSuffix.
Qed.

Lemma find_version (l : list Migration) (v : string) (m : Migration) :
  NoDup (Version <$> l) ->
  find (fun mig => String.eqb (Version mig) v) l = Some m <-> m ∈ l /\ Version m = v.
Proof.
  induction l as [|x l IH]; simpl; intros Hnd.
  - split; [discriminate|]. intros [H _]. inversion H.
  - apply NoDup_cons in Hnd as [Hx Hnd]. destruct (String.eqb_spec (Version x) v) as [He|He].
    + split.
      * intros [= <-]. split; [now left|done].
      * intros [Hin Hv]. apply elem_of_cons in Hin as [->|Hin]; [done|].
        exfalso. apply Hx. apply list_elem_of_fmap. exists m. split; [congruence|done].
    + rewrite (IH Hnd). split.
      * intros [Hin Hv]. split; [now right|done].
      * intros [Hin Hv]. apply elem_of_cons in Hin as [->|Hin]; [contradiction|done].
Qed.

Lemma find_version_None (l : list Migration) (v : string) :
  find (fun mig => String.eqb (Version mig) v) l = None <-> v ∉ Version <$> l.
Proof.
  induction l as [|x l IH]; simpl.
  - split; [intros _ H; inversion H|done].
  - destruct (String.eqb_spec (Version x) v) as [He|He].
    + split; [discriminate|]. intros H. exfalso. apply H. rewrite He. now left.
    + rewrite IH, not_elem_of_cons. intuition congruence.
Qed.

End Catalog.

(** ** The runner *)

Section RunnerFacts.

Context {E : Engine}.

Lemma record_all_lookup_notin t ms (l : gmap string LedgerEntry) v :
  v ∉ Version <$> ms -> record_all t ms l !! v = l !! v.
Proof.
  revert t l. induction ms as [|m ms IH]; intros t l Hv; simpl; [done|].
  simpl in Hv. apply not_elem_of_cons in Hv as [Hne Hv].
  rewrite IH by done. now apply lookup_insert_ne.
Qed.

Lemma record_all_lookup_in t ms (l : gmap string LedgerEntry) m :
  NoDup (Version <$> ms) -> m ∈ ms ->
  exists ts, t <= ts < t + length ms
    /\ record_all t ms l !! Version m = Some (MkEntry ts (Some (Checksum m))).
Proof.
  revert t l. induction ms as [|x ms IH]; intros t l Hnd Hm; [inversion Hm|].
  simpl in Hnd. apply NoDup_cons in Hnd as [Hx Hnd]. simpl.
  apply elem_of_cons in Hm as [->|Hm].
  - exists t. split; [lia|]. rewrite record_all_lookup_notin by done.
    apply lookup_insert_eq.
  - destruct (IH (S t) (<[Version x:=MkEntry t (Some (Checksum x))]> l) Hnd Hm)
      as (ts & Hts & Hl).
    exists ts. split; [lia|done].
Qed.

Lemma record_all_dom t ms (l : gmap string LedgerEntry) :
  dom (record_all t ms l) = dom l ∪ list_to_set (Version <$> ms).
Proof.
  revert t l. induction ms as [|x ms IH]; intros t l; simpl.
  - set_solver.
  - rewrite IH, dom_insert_L. set_solver.
Qed.

Lemma record_all_app t ms1 ms2 (l : gmap string LedgerEntry) :
  record_all t (ms1 ++ ms2) l = record_all (t + length ms1) ms2 (record_all t ms1 l).
Proof.
  revert t l. induction ms1 as [|x ms1 IH]; intros t l; simpl.
  - now rewrite Nat.add_0_r.
  - rewrite IH. f_equal. lia.
Qed.

Lemma scripts_pass_app bodies1 bodies2 c :
  scripts_pass (bodies1 ++ bodies2) c
  = match scripts_pass bodies1 c with
    | Some c' => scripts_pass bodies2 c'
    | None => None
    end.
Proof.
  revert c. induction bodies1 as [|b bodies1 IH]; intros c; simpl; [done|].
  destruct (exec_sql b c) as [c'|]; [|done].
  destruct (ledger_writable c'); [apply IH|done].
Qed.

(** Either every script goes through, or there is a first one that does not. *)
Lemma scripts_pass_cases {A} (body : A -> string) (l : list A) c :
  (exists c', scripts_pass (body <$> l) c = Some c')
  \/ (exists done failed rest c',
        l = done ++ failed :: rest
        /\ scripts_pass (body <$> done) c = Some c'
        /\ script_passes (body failed) c' = false).
Proof.
  revert c. induction l as [|x l IH]; intros c; simpl.
  - left. now exists c.
  - unfold script_passes.
    destruct (exec_sql (body x) c) as [c1|] eqn:Hx.
    + destruct (ledger_writable c1) eqn:Hw.
      * destruct (IH c1) as [[c' Hc']|(dn & f & rest & c' & -> & Hd & Hf)].
        -- left. now exists c'.
        -- right. exists (x :: dn), f, rest, c'. simpl. now rewrite Hx, Hw.
      * right. exists [], x, l, c. simpl. now rewrite Hx.
    + right. exists [], x, l, c. simpl. now rewrite Hx.
Qed.

Lemma executeMigration_cases (m : Migration) (w : World) :
  executeMigration m w =
  match exec_sql (SQLContent m) (contents (db w)) with
  | None =>
      (Err (ErrMigrationSQL (PgStatementError (SQLContent m))),
       MkWorld (db w) (S (now w)), failed_apply_calls m false)
  | Some c =>
      if ledger_writable c
      then match ledger (db w) !! Version m with
           | Some _ =>
               (Err (ErrRecord (PgUniqueViolation (Version m))),
                MkWorld (db w) (S (now w)), failed_apply_calls m true)
           | None =>
               (Ok tt,
                MkWorld (MkDatabase c (<[Version m := MkEntry (now w) (Some (Checksum m))]>
                                         (ledger (db w))))
                        (S (now w)),
                apply_calls m)
           end
      else (Err (ErrRecord PgLedgerUnavailable),
            MkWorld (db w) (S (now w)), failed_apply_calls m true)
  end.
Proof.
  unfold executeMigration, bind, pool_Begin, wrap_rollback, tx_Exec, tx_Commit. simpl.
  destruct (exec_sql (SQLContent m) (contents (db w))) as [c|]; simpl; [|done].
  destruct (ledger_writable c); simpl; [|done].
  destruct (ledger (db w) !! Version m); simpl; done.
Qed.

Lemma pending_cons_in applied m ms :
  Version m ∈ applied -> pending applied (m :: ms) = pending applied ms.
Proof. intros H. unfold pending. rewrite filter_cons_False; [done|]. now intros Hn. Qed.

Lemma pending_cons_notin applied m ms :
  Version m ∉ applied -> pending applied (m :: ms) = m :: pending applied ms.
Proof. intros H. unfold pending. now rewrite filter_cons_True. Qed.

Lemma pending_elem applied ms m :
  m ∈ pending applied ms <-> m ∈ ms /\ Version m ∉ applied.
Proof. unfold pending. rewrite list_elem_of_filter. tauto. Qed.

Lemma run_pending_step_in applied m ms w :
  Version m ∈ applied -> run_pending applied (m :: ms) w = run_pending applied ms w.
Proof.
  intros H. simpl. unfold isMigrationExecuted. now rewrite bool_decide_eq_true_2.
Qed.

Lemma run_pending_step_notin applied m ms w :
  Version m ∉ applied ->
  run_pending applied (m :: ms) w =
  match executeMigration m w with
  | (Ok _, w1, t1) =>
      match run_pending applied ms w1 with
      | (r, w2, t2) => (r, w2, t1 ++ t2)
      end
  | (Err e, w1, t1) => (Err (ErrExecuteMigration (Version m) e), w1, t1)
  end.
Proof.
  intros H. simpl. unfold isMigrationExecuted. rewrite bool_decide_eq_false_2 by done.
  simpl. unfold bind, wrap. destruct (executeMigration m w) as [[[[]|e] w1] t1]; done.
Qed.

(** Every pending script goes through: the loop applies them all, in order. *)
Lemma run_pending_ok applied ms w c :
  NoDup (Version <$> ms) ->
  (forall m, m ∈ ms -> Version m ∉ applied -> ledger (db w) !! Version m = None) ->
  scripts_pass (SQLContent <$> pending applied ms) (contents (db w)) = Some c ->
  run_pending applied ms w =
  (Ok tt,
   MkWorld (MkDatabase c (record_all (now w) (pending applied ms) (ledger (db w))))
           (now w + length (pending applied ms)),
   concat (apply_calls <$> pending applied ms)).
Proof.
  revert w. induction ms as [|m ms IH]; intros w Hnd Hfresh Hpass.
  - simpl in *. injection Hpass as <-. unfold ret. rewrite Nat.add_0_r.
    destruct w as [[c l] t]. done.
  - simpl in Hnd. apply NoDup_cons in Hnd as [Hm Hnd].
    destruct (decide (Version m ∈ applied)) as [Hin|Hout].
    + rewrite run_pending_step_in by done. rewrite pending_cons_in in * by done.
      apply IH; [done| |done]. intros m' Hm'. apply Hfresh. now right.
    + rewrite run_pending_step_notin by done. rewrite pending_cons_notin in * by done.
      simpl in Hpass. rewrite executeMigration_cases.
      destruct (exec_sql (SQLContent m) (contents (db w))) as [c1|]; [|done].
      destruct (ledger_writable c1); [|done].
      rewrite (Hfresh m) by (done || now left).
      rewrite (IH _ Hnd); simpl; [| |done].
      * do 2 f_equal. f_equal. lia.
      * intros m' Hm' Hout'. rewrite lookup_insert_ne.
        -- apply Hfresh; [now right|done].
        -- intros Heq. apply Hm. rewrite Heq. apply list_elem_of_fmap. now exists m'.
Qed.

(** A pending script does not go through: the loop stops there, with what
    came before it committed. *)
Lemma run_pending_fail applied ms w finished failed rest c :
  NoDup (Version <$> ms) ->
  (forall m, m ∈ ms -> Version m ∉ applied -> ledger (db w) !! Version m = None) ->
  pending applied ms = finished ++ failed :: rest ->
  scripts_pass (SQLContent <$> finished) (contents (db w)) = Some c ->
  script_passes (SQLContent failed) c = false ->
  exists e reached,
    run_pending applied ms w =
    (Err (ErrExecuteMigration (Version failed) e),
     MkWorld (MkDatabase c (record_all (now w) finished (ledger (db w))))
             (S (now w + length finished)),
     concat (apply_calls <$> finished) ++ failed_apply_calls failed reached).
Proof.
  revert w finished. induction ms as [|m ms IH]; intros w finished Hnd Hfresh Hsplit Hpass Hfail.
  - simpl in Hsplit. now destruct finished.
  - simpl in Hnd. apply NoDup_cons in Hnd as [Hm Hnd].
    destruct (decide (Version m ∈ applied)) as [Hin|Hout].
    + rewrite pending_cons_in in Hsplit by done.
      destruct (IH w finished Hnd) as (e & reached & Hrun); try done.
      { intros m' Hm'. apply Hfresh. now right. }
      exists e, reached. now rewrite run_pending_step_in.
    + rewrite pending_cons_notin in Hsplit by done.
      rewrite run_pending_step_notin by done. rewrite executeMigration_cases.
      destruct finished as [|d finished]; simpl in Hsplit; injection Hsplit as <- Hsplit.
      * simpl in Hpass. injection Hpass as <-. unfold script_passes in Hfail.
        destruct (exec_sql (SQLContent m) (contents (db w))) as [c1|].
        -- rewrite Hfail. exists (ErrRecord PgLedgerUnavailable), true.
           rewrite Nat.add_0_r. destruct w as [[c l] t]. done.
        -- exists (ErrMigrationSQL (PgStatementError (SQLContent m))), false.
           rewrite Nat.add_0_r. destruct w as [[c l] t]. done.
      * simpl in Hpass.
        destruct (exec_sql (SQLContent m) (contents (db w))) as [c1|]; [|done].
        destruct (ledger_writable c1); [|done].
        rewrite (Hfresh m) by (done || now left).
        edestruct (IH (MkWorld (MkDatabase c1
                         (<[Version m := MkEntry (now w) (Some (Checksum m))]> (ledger (db w))))
                       (S (now w))) finished Hnd)
          as (e & reached & Hrun); [|exact Hsplit|exact Hpass|exact Hfail|].
        { simpl. intros m' Hm' Hout'. rewrite lookup_insert_ne.
          - apply Hfresh; [now right|done].
          - intros Heq. apply Hm. rewrite Heq. apply list_elem_of_fmap. now exists m'. }
        exists e, reached. rewrite Hrun. simpl. do 3 f_equal. lia.
Qed.

Lemma createMigrationsTable_cases (w : World) :
  createMigrationsTable w =
  if ledger_writable (contents (db w))
  then (Ok tt,
        MkWorld (MkDatabase (contents (db w)) (backfill <$> ledger (db w))) (now w),
        [PoolExec CreateLedgerTable; PoolExec CreateLedgerIndex;
         PoolExec AddChecksumColumn; PoolExec BackfillLegacyChecksum])
  else (Err PgLedgerUnavailable, w,
        [PoolExec CreateLedgerTable; PoolExec CreateLedgerIndex;
         PoolExec AddChecksumColumn; PoolExec BackfillLegacyChecksum]).
Proof.
  destruct w as [[c l] t].
  unfold createMigrationsTable, executeMigrationSQL, bind, pool_Exec. simpl.
  destruct (ledger_writable c); done.
Qed.

Lemma RunMigrations_cases (dir : Directory) (w : World) :
  RunMigrations dir w =
  if ledger_writable (contents (db w))
  then
    let w0 := MkWorld (MkDatabase (contents (db w)) (backfill <$> ledger (db w))) (now w) in
    match loadMigrationFiles dir with
    | Err e =>
        (Err (ErrLoadFiles e), w0,
         [PoolExec CreateLedgerTable; PoolExec CreateLedgerIndex;
          PoolExec AddChecksumColumn; PoolExec BackfillLegacyChecksum])
    | Ok catalog =>
        match run_pending (dom (ledger (db w))) catalog w0 with
        | (Ok _, w1, t1) =>
            (integrity_answer catalog (db w1), w1,
             prelude_calls ++ t1 ++ [PoolQuery SelectVersionsChecksums])
        | (Err e, w1, t1) => (Err e, w1, prelude_calls ++ t1)
        end
    end
  else (Err (ErrCreateTable PgLedgerUnavailable), w,
        [PoolExec CreateLedgerTable; PoolExec CreateLedgerIndex;
         PoolExec AddChecksumColumn; PoolExec BackfillLegacyChecksum]).
Proof.
  unfold RunMigrations. unfold bind at 1. unfold wrap at 1.
  rewrite createMigrationsTable_cases.
  destruct (ledger_writable (contents (db w))); [|done].
  cbv zeta. unfold bind at 1. unfold wrap at 1. unfold lift.
  destruct (loadMigrationFiles dir) as [catalog|e]; [|done].
  unfold bind at 1. unfold wrap at 1. unfold getExecutedMigrations. simpl db. simpl ledger.
  rewrite dom_fmap_L. unfold bind.
  destruct (run_pending _ catalog _) as [[[[]|e] w1] t1]; [|done].
  unfold wrap, verifyMigrationIntegrity, integrity_answer, integrity.
  destruct (scan_rows (ledger_rows (db w1))) as [rows|e]; [|done].
  destruct (verify_rows catalog rows) as [[]|e]; done.
Qed.

Lemma ledger_rows_elem (d : Database) v oc :
  (v, oc) ∈ ledger_rows d <-> exists entry, ledger d !! v = Some entry /\ checksum entry = oc.
Proof.
  unfold ledger_rows. rewrite sort_Slice_elem, list_elem_of_fmap. split.
  - intros ([k entry] & Heq & Hin). simpl in Heq. injection Heq as -> ->.
    exists entry. split; [|done]. now apply elem_of_map_to_list.
  - intros (entry & Hl & <-). exists (v, entry). split; [done|].
    now apply elem_of_map_to_list.
Qed.

Lemma scan_rows_Ok rows ems :
  scan_rows rows = Ok ems ->
  forall v c, MkExecuted v c ∈ ems <-> (v, Some c) ∈ rows.
Proof.
  revert ems. induction rows as [|[v' [c'|]] rows IH]; intros ems H v c; simpl in H.
  - injection H as <-. split; intros Hin; inversion Hin.
  - destruct (scan_rows rows) as [ems'|]; [|discriminate]. injection H as <-.
    rewrite !elem_of_cons, (IH ems' eq_refl). split; intros [Heq|Hin]; auto; left; congruence.
  - discriminate.
Qed.

Lemma scan_rows_Err rows e :
  scan_rows rows = Err e -> e = ErrScanExecuted PgScanNull /\ exists v, (v, None) ∈ rows.
Proof.
  induction rows as [|[v' [c'|]] rows IH]; simpl; intros H.
  - discriminate.
  - destruct (scan_rows rows) as [ems'|e'] eqn:Hs; [discriminate|]. injection H as <-.
    destruct (IH eq_refl) as [-> [v Hv]]. split; [done|]. exists v. now right.
  - injection H as <-. split; [done|]. exists v'. now left.
Qed.

(** Rows without NULL scan. *)
Lemma scan_rows_total rows :
  (forall v, (v, None) ∉ rows) -> exists ems, scan_rows rows = Ok ems.
Proof.
  intros H. destruct (scan_rows rows) as [ems|e] eqn:Hs; [now exists ems|].
  apply scan_rows_Err in Hs as [_ [v Hv]]. now apply H in Hv.
Qed.

Lemma verify_rows_Err catalog rows e :
  verify_rows catalog rows = Err e ->
  exists row, row ∈ rows
    /\ ((e = ErrNotInDirectory (ExVersion row) /\ ExVersion row ∉ Version <$> catalog)
        \/ (e = ErrChecksumMismatch (ExVersion row)
            /\ ExChecksum row <> legacy_checksum
            /\ exists m, m ∈ catalog /\ Version m = ExVersion row
                         /\ Checksum m <> ExChecksum row)).
Proof.
  induction rows as [|row rows IH]; simpl; [discriminate|].
  destruct (find _ catalog) as [m|] eqn:Hfind.
  - destruct (String.eqb_spec (ExChecksum row) legacy_checksum) as [Hl|Hl].
    + intros H. destruct (IH H) as (r & Hr & Hcase). exists r. split; [now right|done].
    + destruct (String.eqb_spec (Checksum m) (ExChecksum row)) as [Hc|Hc]; simpl.
      * intros H. destruct (IH H) as (r & Hr & Hcase). exists r. split; [now right|done].
      * intros [= <-]. exists row. split; [now left|]. right. repeat split; try done.
        exists m. apply find_some in Hfind as [Hin Hv].
        apply String.eqb_eq in Hv. split; [now apply list_elem_of_In|done].
  - intros [= <-]. exists row. split; [now left|]. left. split; [done|].
    now apply find_version_None.
Qed.

Lemma verify_rows_Ok catalog rows :
  NoDup (Version <$> catalog) ->
  verify_rows catalog rows = Ok tt ->
  forall row, row ∈ rows ->
    exists m, m ∈ catalog /\ Version m = ExVersion row
      /\ (ExChecksum row = legacy_checksum \/ Checksum m = ExChecksum row).
Proof.
  intros Hnd. induction rows as [|r rows IH]; simpl; intros H row Hrow; [inversion Hrow|].
  destruct (find _ catalog) as [m|] eqn:Hfind; [|discriminate].
  apply find_version in Hfind as [Hin Hv]; [|done].
  assert (Hr : ExChecksum r = legacy_checksum \/ Checksum m = ExChecksum r).
  { destruct (String.eqb_spec (ExChecksum r) legacy_checksum); [now left|].
    destruct (String.eqb_spec (Checksum m) (ExChecksum r)); [now right|discriminate]. }
  assert (Hrest : verify_rows catalog rows = Ok tt).
  { destruct (String.eqb (ExChecksum r) legacy_checksum); [done|].
    destruct (String.eqb (Checksum m) (ExChecksum r)); [done|discriminate]. }
  apply elem_of_cons in Hrow as [->|Hrow]; [now exists m|now apply IH].
Qed.

Lemma NoDup_version_eq (l : list Migration) m m' :
  NoDup (Version <$> l) -> m ∈ l -> m' ∈ l -> Version m = Version m' -> m = m'.
Proof.
  intros Hnd Hm Hm' Hv.
  apply list_elem_of_lookup in Hm as [i Hi]. apply list_elem_of_lookup in Hm' as [j Hj].
  assert (i = j) as ->.
  { apply (NoDup_lookup (Version <$> l) i j (Version m)); [done| |].
    - now rewrite list_lookup_fmap, Hi.
    - now rewrite list_lookup_fmap, Hj, Hv. }
  congruence.
Qed.

Lemma scan_rows_Ok_noNULL rows ems :
  scan_rows rows = Ok ems -> forall v, (v, None) ∉ rows.
Proof.
  revert ems. induction rows as [|[v' [c'|]] rows IH]; intros ems H v Hin; simpl in H.
  - inversion Hin.
  - destruct (scan_rows rows) as [ems'|] eqn:Hs; [|discriminate].
    apply elem_of_cons in Hin as [Heq|Hin]; [discriminate|]. now apply (IH ems' eq_refl v).
  - discriminate.
Qed.

(** What an integrity failure says about the ledger. *)
Lemma integrity_Err catalog (d : Database) e :
  integrity catalog d = Err e ->
  (e = ErrScanExecuted PgScanNull
   /\ exists v entry, ledger d !! v = Some entry /\ checksum entry = None)
  \/ (exists v, e = ErrNotInDirectory v /\ orphaned catalog (ledger d) v)
  \/ (exists v, e = ErrChecksumMismatch v /\ modified catalog (ledger d) v).
Proof.
  unfold integrity. destruct (scan_rows (ledger_rows d)) as [ems|e'] eqn:Hscan.
  - intros H. right. apply verify_rows_Err in H as ([v c] & Hrow & Hcase). simpl in Hcase.
    apply (scan_rows_Ok _ _ Hscan) in Hrow. apply ledger_rows_elem in Hrow as (entry & Hl & Hc).
    destruct Hcase as [[-> Hv]|(-> & Hleg & m & Hm & Hmv & Hmc)].
    + left. exists v. split; [done|]. split; [now exists entry|done].
    + right. exists v. split; [done|]. now exists entry, c, m.
  - intros [= <-]. left. apply scan_rows_Err in Hscan as [-> [v Hv]]. split; [done|].
    apply ledger_rows_elem in Hv as (entry & Hl & Hc). now exists v, entry.
Qed.

(** What passing integrity verification says about the ledger. *)
Lemma integrity_Ok catalog (d : Database) :
  NoDup (Version <$> catalog) ->
  integrity catalog d = Ok tt ->
  forall v, ~ orphaned catalog (ledger d) v /\ ~ modified catalog (ledger d) v.
Proof.
  unfold integrity. intros Hnd H v.
  destruct (scan_rows (ledger_rows d)) as [ems|e'] eqn:Hscan; [|discriminate].
  assert (Hrow : forall entry, ledger d !! v = Some entry ->
            exists c m, checksum entry = Some c /\ m ∈ catalog /\ Version m = v
              /\ (c = legacy_checksum \/ Checksum m = c)).
  { intros entry Hl. destruct (checksum entry) as [c|] eqn:Hc.
    - assert (Hin : MkExecuted v c ∈ ems).
      { apply (scan_rows_Ok _ _ Hscan). apply ledger_rows_elem. now exists entry. }
      destruct (verify_rows_Ok catalog ems Hnd H _ Hin) as (m & Hm & Hv & Hcase).
      now exists c, m.
    - exfalso. apply (scan_rows_Ok_noNULL _ _ Hscan v).
      apply ledger_rows_elem. now exists entry. }
  split.
  - intros [[entry Hl] Hv]. destruct (Hrow entry Hl) as (c & m & _ & Hm & Hmv & _).
    apply Hv. apply list_elem_of_fmap. now exists m.
  - intros (entry & c & m & Hl & Hc & Hleg & Hm & Hmv & Hmc).
    destruct (Hrow entry Hl) as (c' & m' & Hc' & Hm' & Hmv' & Hcase).
    assert (c' = c) as -> by congruence.
    assert (m' = m) as -> by (apply (NoDup_version_eq catalog); congruence).
    destruct Hcase; contradiction.
Qed.

Lemma StronglySorted_filter {A} (R : A -> A -> Prop) (P : A -> Prop)
      `{!forall x, Decision (P x)} (l : list A) :
  StronglySorted R l -> StronglySorted R (filter P l).
Proof.
  induction 1 as [|x l Hs IH Hx]; [constructor|].
  rewrite filter_cons. destruct (decide (P x)); [|done].
  constructor; [done|]. apply Forall_forall. intros y Hy.
  apply list_elem_of_filter in Hy as [_ Hy]. rewrite Forall_forall in Hx. now apply Hx.
Qed.

Lemma NoDup_pending_versions applied catalog :
  NoDup (Version <$> catalog) -> NoDup (Version <$> pending applied catalog).
Proof.
  intros H. eapply sublist_NoDup; [exact H|]. apply fmap_sublist, sublist_filter.
Qed.

Lemma backfilled_fresh (l : gmap string LedgerEntry) (v : string) :
  v ∉ dom l -> (backfill <$> l) !! v = None.
Proof. intros H. rewrite lookup_fmap. apply not_elem_of_dom in H. now rewrite H. Qed.

(** The run of [RunMigrations] whose pending scripts all go through. *)
Lemma RunMigrations_through dir (w : World) catalog c :
  ledger_writable (contents (db w)) = true ->
  loadMigrationFiles dir = Ok catalog ->
  scripts_pass (SQLContent <$> pending (dom (ledger (db w))) catalog) (contents (db w))
  = Some c ->
  let todo := pending (dom (ledger (db w))) catalog in
  let d := MkDatabase c (record_all (now w) todo (backfill <$> ledger (db w))) in
  RunMigrations dir w =
  (integrity_answer catalog d, MkWorld d (now w + length todo),
   prelude_calls ++ concat (apply_calls <$> todo) ++ [PoolQuery SelectVersionsChecksums]).
Proof.
  intros Hw Hload Hpass todo d. rewrite RunMigrations_cases, Hw, Hload. cbv zeta.
  rewrite (run_pending_ok _ catalog _ c); [done| |simpl|done].
  - now apply (loadMigrationFiles_NoDup dir).
  - intros m _ Hm. now apply backfilled_fresh.
Qed.

(** The run of [RunMigrations] in which a pending script does not go through. *)
Lemma RunMigrations_stops dir (w : World) catalog finished failed rest c :
  ledger_writable (contents (db w)) = true ->
  loadMigrationFiles dir = Ok catalog ->
  pending (dom (ledger (db w))) catalog = finished ++ failed :: rest ->
  scripts_pass (SQLContent <$> finished) (contents (db w)) = Some c ->
  script_passes (SQLContent failed) c = false ->
  exists e reached,
    RunMigrations dir w =
    (Err (ErrExecuteMigration (Version failed) e),
     MkWorld (MkDatabase c (record_all (now w) finished (backfill <$> ledger (db w))))
             (S (now w + length finished)),
     prelude_calls ++ concat (apply_calls <$> finished)
     ++ failed_apply_calls failed reached).
Proof.
  intros Hw Hload Hsplit Hpass Hfail. rewrite RunMigrations_cases, Hw, Hload. cbv zeta.
  destruct (run_pending_fail (dom (ledger (db w))) catalog
              (MkWorld (MkDatabase (contents (db w)) (backfill <$> ledger (db w))) (now w))
              finished failed rest c) as (e & reached & Hrun); try done.
  - now apply (loadMigrationFiles_NoDup dir).
  - intros m _ Hm. now apply backfilled_fresh.
  - exists e, reached. now rewrite Hrun.
Qed.

(** C1. When every pending script goes through, [RunMigrations] executes
    exactly the catalog scripts whose version is not in the applied set:
    one transaction per script, in strictly ascending version order under
    [String.ltb], each transaction running the script and inserting its
    version with its checksum, and nothing for a script that is applied.
    The run then ends with verification, and the ledger holds each executed
    script with that checksum and keeps every other row. (The run in which
    a pending script fails is C2.) *)
Theorem RunMigrations_applies_pending dir (w : World) catalog c :
  ledger_writable (contents (db w)) = true ->
  loadMigrationFiles dir = Ok catalog ->
  scripts_pass (SQLContent <$> pending (dom (ledger (db w))) catalog) (contents (db w))
  = Some c ->
  let todo := pending (dom (ledger (db w))) catalog in
  StronglySorted ascending todo
  /\ (forall m, m ∈ todo <-> m ∈ catalog /\ Version m ∉ dom (ledger (db w)))
  /\ exists r w' t,
       RunMigrations dir w = (r, w', t)
       /\ (r = Ok tt \/ exists e, r = Err (ErrIntegrity e))
       /\ t = prelude_calls ++ concat (apply_calls <$> todo)
              ++ [PoolQuery SelectVersionsChecksums]
       /\ contents (db w') = c
       /\ ledger (db w') = record_all (now w) todo (backfill <$> ledger (db w))
       /\ (forall m, m ∈ todo ->
             exists ts, now w <= ts < now w + length todo
               /\ ledger (db w') !! Version m = Some (MkEntry ts (Some (Checksum m))))
       /\ (forall v, v ∉ Version <$> todo ->
             ledger (db w') !! v = backfill <$> (ledger (db w) !! v)).
Proof.
  intros Hw Hload Hpass todo.
  assert (Hnd : NoDup (Version <$> todo)).
  { apply NoDup_pending_versions. now apply (loadMigrationFiles_NoDup dir). }
  split.
  { apply StronglySorted_filter. now apply (loadMigrationFiles_sorted dir). }
  split; [intros m; apply pending_elem|].
  pose proof (RunMigrations_through dir w catalog c Hw Hload Hpass) as Hrun.
  cbv zeta in Hrun. fold todo in Hrun.
  eexists _, _, _. split; [exact Hrun|]. simpl. split; [|split; [done|split; [done|split; [done|]]]].
  - unfold integrity_answer. destruct (integrity catalog _) as [[]|e]; [now left|right; eauto].
  - split.
    + intros m Hm. now apply record_all_lookup_in.
    + intros v Hv. rewrite record_all_lookup_notin by done. apply lookup_fmap.
Qed.

(** C2. When a pending script does not go through (the server rejects it,
    or the ledger insert after it is refused) while the pending scripts
    before it did, [RunMigrations] returns the error of that script; its
    transaction is rolled back, so the database contents are those left by
    the scripts before it and the ledger has no row for it; no call is made
    for any later pending script, which has no row either; the rows of the
    scripts before it stay committed. *)
Theorem RunMigrations_failure_aborts dir (w : World) catalog finished failed rest c :
  ledger_writable (contents (db w)) = true ->
  loadMigrationFiles dir = Ok catalog ->
  pending (dom (ledger (db w))) catalog = finished ++ failed :: rest ->
  scripts_pass (SQLContent <$> finished) (contents (db w)) = Some c ->
  script_passes (SQLContent failed) c = false ->
  exists e reached w' t,
    RunMigrations dir w = (Err (ErrExecuteMigration (Version failed) e), w', t)
    /\ t = prelude_calls ++ concat (apply_calls <$> finished)
           ++ failed_apply_calls failed reached
    /\ contents (db w') = c
    /\ ledger (db w') = record_all (now w) finished (backfill <$> ledger (db w))
    /\ ledger (db w') !! Version failed = None
    /\ (forall m, m ∈ rest -> ledger (db w') !! Version m = None)
    /\ (forall m, m ∈ finished ->
          exists ts, ledger (db w') !! Version m = Some (MkEntry ts (Some (Checksum m)))).
Proof.
  intros Hw Hload Hsplit Hpass Hfail.
  destruct (RunMigrations_stops dir w catalog finished failed rest c Hw Hload Hsplit Hpass Hfail)
    as (e & reached & Hstop).
  exists e, reached. eexists. eexists. split; [exact Hstop|]. simpl.
  assert (Hnd : NoDup (Version <$> (finished ++ failed :: rest))).
  { rewrite <- Hsplit. apply NoDup_pending_versions. now apply (loadMigrationFiles_NoDup dir). }
  rewrite fmap_app in Hnd. apply NoDup_app in Hnd as (Hfin & Hdisj & Hrest).
  simpl in Hrest. apply NoDup_cons in Hrest as [Hfr Hrest].
  assert (Hnew : forall m, m ∈ failed :: rest ->
            record_all (now w) finished (backfill <$> ledger (db w)) !! Version m = None).
  { intros m Hm. rewrite record_all_lookup_notin.
    - apply backfilled_fresh.
      assert (Hp : m ∈ pending (dom (ledger (db w))) catalog).
      { rewrite Hsplit. apply elem_of_app. now right. }
      now apply pending_elem in Hp as [_ Hp].
    - intros Hin. apply (Hdisj _ Hin). change (Version m ∈ Version <$> failed :: rest).
      apply list_elem_of_fmap. now exists m. }
  repeat split; try done.
  - apply Hnew. now left.
  - intros m Hm. apply Hnew. now right.
  - intros m Hm.
    destruct (record_all_lookup_in (now w) finished (backfill <$> ledger (db w)) m Hfin Hm)
      as (ts & _ & Hl).
    now exists ts.
Qed.

(** After the backfill and the inserts of a run no row has a NULL checksum. *)
Lemma backfill_checksum (entry : LedgerEntry) : checksum (backfill entry) <> None.
Proof. unfold backfill. destruct (checksum entry) eqn:H; simpl; congruence. Qed.

Lemma backfill_Some (entry : LedgerEntry) c :
  checksum entry = Some c -> backfill entry = entry.
Proof. unfold backfill. now intros ->. Qed.

Lemma record_all_checksum t ms (l : gmap string LedgerEntry) :
  (forall v entry, l !! v = Some entry -> checksum entry <> None) ->
  forall v entry, record_all t ms l !! v = Some entry -> checksum entry <> None.
Proof.
  revert t l. induction ms as [|m ms IH]; intros t l Hl; simpl; [done|].
  apply IH. intros v entry. rewrite lookup_insert. case_decide.
  - intros [= <-]. done.
  - apply Hl.
Qed.

Lemma run_ledger_checksum t ms (l : gmap string LedgerEntry) v entry :
  record_all t ms (backfill <$> l) !! v = Some entry -> checksum entry <> None.
Proof.
  apply record_all_checksum. clear. intros v entry. rewrite lookup_fmap.
  destruct (l !! v) as [e|]; simpl; [|done]. intros [= <-]. apply backfill_checksum.
Qed.

(** A row of the ledger a run leaves: recorded by the run, or there before. *)
Lemma run_ledger_lookup t ms (l : gmap string LedgerEntry) v entry :
  NoDup (Version <$> ms) ->
  record_all t ms (backfill <$> l) !! v = Some entry ->
  (exists m, m ∈ ms /\ Version m = v /\ checksum entry = Some (Checksum m))
  \/ ((v ∉ Version <$> ms) /\ exists e, l !! v = Some e /\ entry = backfill e).
Proof.
  intros Hnd Hl. destruct (decide (v ∈ Version <$> ms)) as [Hin|Hout].
  - left. apply list_elem_of_fmap in Hin as (m & -> & Hm). exists m.
    destruct (record_all_lookup_in t ms (backfill <$> l) m Hnd Hm) as (ts & _ & Hts).
    rewrite Hts in Hl. injection Hl as <-. done.
  - right. split; [done|]. rewrite record_all_lookup_notin, lookup_fmap in Hl by done.
    destruct (l !! v) as [e|]; [|done]. injection Hl as <-. now exists e.
Qed.

(** The rows a run records are in order with the catalog: a row is orphaned
    or modified after the run exactly when it was before. *)
Lemma run_ledger_orphaned catalog t ms (l : gmap string LedgerEntry) v :
  (forall m, m ∈ ms -> m ∈ catalog) ->
  orphaned catalog (record_all t ms (backfill <$> l)) v <-> orphaned catalog l v.
Proof.
  intros Hsub. unfold orphaned. rewrite <- !elem_of_dom, record_all_dom, dom_fmap_L.
  split; intros [Hd Hv]; split; try done; [|set_solver].
  apply elem_of_union in Hd as [Hd|Hd]; [done|]. exfalso. apply Hv.
  apply elem_of_list_to_set in Hd. apply list_elem_of_fmap in Hd as (m & -> & Hm).
  apply list_elem_of_fmap. exists m. split; [done|]. now apply Hsub.
Qed.

Lemma run_ledger_modified catalog t ms (l : gmap string LedgerEntry) v :
  NoDup (Version <$> catalog) -> NoDup (Version <$> ms) ->
  (forall m, m ∈ ms -> m ∈ catalog /\ Version m ∉ dom l) ->
  modified catalog (record_all t ms (backfill <$> l)) v <-> modified catalog l v.
Proof.
  intros Hnd Hndm Hsub. split.
  - intros (entry & c & m & Hl & Hc & Hleg & Hm & Hv & Hmc).
    apply (run_ledger_lookup _ _ _ _ _ Hndm) in Hl as [(m' & Hm' & Hv' & Hc')|(Hout & e & He & ->)].
    + exfalso. assert (m' = m) as ->.
      { apply (NoDup_version_eq catalog); [done|now apply Hsub|done|congruence]. }
      congruence.
    + exists e, c, m. repeat split; try done.
      unfold backfill in Hc. destruct (checksum e) as [c'|] eqn:Hce; [congruence|].
      simpl in Hc. congruence.
  - intros (entry & c & m & Hl & Hc & Hleg & Hm & Hv & Hmc).
    exists entry, c, m. repeat split; try done.
    rewrite record_all_lookup_notin, lookup_fmap, Hl; simpl.
    + f_equal. now apply (backfill_Some entry c).
    + intros Hin. apply list_elem_of_fmap in Hin as (m' & -> & Hm').
      apply Hsub in Hm' as [_ Hm']. apply Hm'. apply elem_of_dom. now exists entry.
Qed.

(** Verification stops at the first row that is not in order; when the rows
    out of order are all the modified row of version [v], that is its error. *)
Lemma verify_rows_mismatch catalog rows v :
  (forall r, r ∈ rows ->
     exists m, find (fun mig => String.eqb (Version mig) (ExVersion r)) catalog = Some m
       /\ (ExChecksum r = legacy_checksum \/ Checksum m = ExChecksum r
           \/ ExVersion r = v)) ->
  (exists r m, r ∈ rows /\ ExVersion r = v
     /\ find (fun mig => String.eqb (Version mig) v) catalog = Some m
     /\ ExChecksum r <> legacy_checksum /\ Checksum m <> ExChecksum r) ->
  (forall r r', r ∈ rows -> r' ∈ rows -> ExVersion r = ExVersion r' -> r = r') ->
  verify_rows catalog rows = Err (ErrChecksumMismatch v).
Proof.
  induction rows as [|x rows IH]; intros Hall (r & m & Hr & Hv & Hfind & Hleg & Hmc) Huniq.
  - inversion Hr.
  - simpl. destruct (Hall x) as (mx & Hfx & Hcase); [now left|]. rewrite Hfx.
    destruct (decide (ExVersion x = v)) as [Hxv|Hxv].
    + assert (x = r) as -> by (apply Huniq; [now left|done|congruence]).
      rewrite Hv in Hfx. assert (mx = m) as -> by congruence.
      destruct (String.eqb_spec (ExChecksum r) legacy_checksum); [done|].
      destruct (String.eqb_spec (Checksum m) (ExChecksum r)); [done|]. simpl. now rewrite Hv.
    + assert (Hrest : verify_rows catalog rows = Err (ErrChecksumMismatch v)).
      { apply IH.
        - intros r' Hr'. apply Hall. now right.
        - exists r, m. repeat split; try done.
          apply elem_of_cons in Hr as [->|Hr]; [contradiction|done].
        - intros a b Ha Hb. apply Huniq; now right. }
      destruct Hcase as [Hl|[Hc|Hc]]; [| |contradiction].
      * apply String.eqb_eq in Hl. now rewrite Hl.
      * destruct (String.eqb (ExChecksum x) legacy_checksum); [done|].
        apply String.eqb_eq in Hc. now rewrite Hc.
Qed.

Lemma integrity_modified_only catalog (d : Database) v :
  NoDup (Version <$> catalog) ->
  (forall u entry, ledger d !! u = Some entry -> checksum entry <> None) ->
  modified catalog (ledger d) v ->
  (forall u, u <> v -> ~ orphaned catalog (ledger d) u /\ ~ modified catalog (ledger d) u) ->
  integrity catalog d = Err (ErrChecksumMismatch v).
Proof.
  intros Hnd Hnull (entry & c & m & Hl & Hc & Hleg & Hm & Hmv & Hmc) Hothers.
  unfold integrity.
  destruct (scan_rows_total (ledger_rows d)) as [ems Hscan].
  { intros u Hu. apply ledger_rows_elem in Hu as (e & He & Hce). now apply (Hnull u e). }
  rewrite Hscan.
  assert (Hrow : forall u cu, MkExecuted u cu ∈ ems <->
            exists e, ledger d !! u = Some e /\ checksum e = Some cu).
  { intros u cu. rewrite (scan_rows_Ok _ _ Hscan). apply ledger_rows_elem. }
  apply verify_rows_mismatch.
  - intros [u cu] Hr. apply Hrow in Hr as (e & He & Hce). simpl.
    destruct (decide (u = v)) as [->|Hne].
    + exists m. split; [now apply find_version|]. now right; right.
    + destruct (Hothers u Hne) as [Horph Hmod].
      destruct (decide (u ∈ Version <$> catalog)) as [Hin|Hout].
      * apply list_elem_of_fmap in Hin as (mu & -> & Hmu). exists mu.
        split; [now apply find_version|].
        destruct (decide (cu = legacy_checksum)) as [?|Hl']; [now left|].
        destruct (decide (Checksum mu = cu)) as [?|Hc']; [now right; left|].
        exfalso. apply Hmod. now exists e, cu, mu.
      * exfalso. apply Horph. split; [now exists e|done].
  - exists (MkExecuted v c), m. simpl. repeat split; try done.
    + apply Hrow. now exists entry.
    + now apply find_version.
  - intros [u cu] [u' cu'] Hr Hr'. simpl. intros <-.
    apply Hrow in Hr as (e & He & Hce). apply Hrow in Hr' as (e' & He' & Hce'). congruence.
Qed.

(** Verification at the end of a run whose pending scripts all go through. *)
Lemma RunMigrations_verified dir (w : World) catalog c r w' t :
  ledger_writable (contents (db w)) = true ->
  loadMigrationFiles dir = Ok catalog ->
  scripts_pass (SQLContent <$> pending (dom (ledger (db w))) catalog) (contents (db w))
  = Some c ->
  RunMigrations dir w = (r, w', t) ->
  let l := ledger (db w) in
  last t = Some (PoolQuery SelectVersionsChecksums)
  /\ (r = Ok tt -> forall v, ~ orphaned catalog l v /\ ~ modified catalog l v)
  /\ ((exists v, orphaned catalog l v \/ modified catalog l v) ->
      exists e, r = Err (ErrIntegrity e)
        /\ ((exists u, e = ErrNotInDirectory u /\ orphaned catalog l u)
            \/ (exists u, e = ErrChecksumMismatch u /\ modified catalog l u)))
  /\ (forall v, modified catalog l v ->
        (forall u, u <> v -> ~ orphaned catalog l u /\ ~ modified catalog l u) ->
        r = Err (ErrIntegrity (ErrChecksumMismatch v))
        /\ Error (ErrIntegrity (ErrChecksumMismatch v))
           = "migration integrity verification failed: migration " +:+ v
             +:+ " has been modified after execution (checksum mismatch)").
Proof.
  intros Hw Hload Hpass Hrun l.
  rewrite (RunMigrations_through dir w catalog c Hw Hload Hpass) in Hrun.
  cbv zeta in Hrun. injection Hrun as <- <- <-.
  set (todo := pending (dom (ledger (db w))) catalog).
  set (d := MkDatabase c (record_all (now w) todo (backfill <$> ledger (db w)))).
  pose proof (loadMigrationFiles_NoDup dir catalog Hload) as Hnd.
  assert (Hndt : NoDup (Version <$> todo)) by now apply NoDup_pending_versions.
  assert (Hsub : forall m, m ∈ todo -> m ∈ catalog /\ Version m ∉ dom l).
  { intros m Hm. now apply pending_elem in Hm. }
  assert (Horph : forall v, orphaned catalog (ledger d) v <-> orphaned catalog l v).
  { intros v. apply run_ledger_orphaned. intros m Hm. now apply Hsub. }
  assert (Hmod : forall v, modified catalog (ledger d) v <-> modified catalog l v).
  { intros v. now apply run_ledger_modified. }
  assert (Hok : integrity_answer catalog d = Ok tt ->
            forall v, ~ orphaned catalog l v /\ ~ modified catalog l v).
  { unfold integrity_answer. destruct (integrity catalog d) as [[]|e] eqn:Hi; [|discriminate].
    intros _ v. rewrite <- Horph, <- Hmod. now apply integrity_Ok. }
  split; [|split; [exact Hok|split]].
  - change (last ((prelude_calls ++ concat (apply_calls <$> todo))
                  ++ [PoolQuery SelectVersionsChecksums]) = Some (PoolQuery SelectVersionsChecksums)).
    apply last_snoc.
  - intros [v Hbad]. unfold integrity_answer in *.
    destruct (integrity catalog d) as [[]|e] eqn:Hi.
    + exfalso. destruct (Hok eq_refl v). tauto.
    + exists e. split; [done|].
      apply integrity_Err in Hi as [[_ (u & entry & Hl & Hc)]|[(u & -> & Hu)|(u & -> & Hu)]].
      * exfalso. now apply (run_ledger_checksum _ _ _ _ _ Hl).
      * left. exists u. split; [done|]. now apply Horph.
      * right. exists u. split; [done|]. now apply Hmod.
  - intros v Hv Hothers. split; [|reflexivity].
    unfold integrity_answer. rewrite (integrity_modified_only catalog d v); try done.
    + intros u entry. apply run_ledger_checksum.
    + now apply Hmod.
    + intros u Hu. rewrite Horph, Hmod. now apply Hothers.
Qed.

Lemma apply_calls_no_query (ms : list Migration) (q : Query) :
  PoolQuery q ∉ concat (apply_calls <$> ms).
Proof.
  intros Hin. apply list_elem_of_In, in_concat in Hin as (calls & Hcalls & Hin).
  apply list_elem_of_In, list_elem_of_fmap in Hcalls as (m & -> & _).
  apply list_elem_of_In in Hin. unfold apply_calls in Hin. set_solver.
Qed.

(** C3, as the code has it. A run of [RunMigrations] that reaches its loop
    is in one of two cases. Every pending script goes through, also when
    there is none: then the call ends with integrity verification; it
    returns nil only if no ledger row is orphaned or modified; if some row
    is, it fails with the orphaned-entry error of an orphaned row or the
    checksum-mismatch error of a modified row; and when an applied script
    was edited on disk (its row is modified) while every other row is in
    order, it fails with the checksum-mismatch error of that version, whose
    text names the version and no checksum. Or a pending script fails:
    then the call returns the error of that script and the verification
    query is never sent. *)
Theorem RunMigrations_verifies_integrity dir (w : World) catalog r w' t :
  ledger_writable (contents (db w)) = true ->
  loadMigrationFiles dir = Ok catalog ->
  RunMigrations dir w = (r, w', t) ->
  let l := ledger (db w) in
  let todo := pending (dom l) catalog in
  (forall c,
     scripts_pass (SQLContent <$> todo) (contents (db w)) = Some c ->
     last t = Some (PoolQuery SelectVersionsChecksums)
     /\ (r = Ok tt -> forall v, ~ orphaned catalog l v /\ ~ modified catalog l v)
     /\ ((exists v, orphaned catalog l v \/ modified catalog l v) ->
         exists e, r = Err (ErrIntegrity e)
           /\ ((exists u, e = ErrNotInDirectory u /\ orphaned catalog l u)
               \/ (exists u, e = ErrChecksumMismatch u /\ modified catalog l u)))
     /\ (forall v, modified catalog l v ->
           (forall u, u <> v -> ~ orphaned catalog l u /\ ~ modified catalog l u) ->
           r = Err (ErrIntegrity (ErrChecksumMismatch v))
           /\ Error (ErrIntegrity (ErrChecksumMismatch v))
              = "migration integrity verification failed: migration " +:+ v
                +:+ " has been modified after execution (checksum mismatch)"))
  /\ (forall finished failed rest c,
        todo = finished ++ failed :: rest ->
        scripts_pass (SQLContent <$> finished) (contents (db w)) = Some c ->
        script_passes (SQLContent failed) c = false ->
        (exists e, r = Err (ErrExecuteMigration (Version failed) e))
        /\ (forall e, r <> Err (ErrIntegrity e))
        /\ PoolQuery SelectVersionsChecksums ∉ t)
  /\ ((exists c, scripts_pass (SQLContent <$> todo) (contents (db w)) = Some c)
      \/ (exists finished failed rest c,
            todo = finished ++ failed :: rest
            /\ scripts_pass (SQLContent <$> finished) (contents (db w)) = Some c
            /\ script_passes (SQLContent failed) c = false)).
Proof.
  intros Hw Hload Hrun l todo. split; [|split].
  - intros c Hpass. exact (RunMigrations_verified dir w catalog c r w' t Hw Hload Hpass Hrun).
  - intros finished failed rest c Hsplit Hpass Hfail.
    destruct (RunMigrations_stops dir w catalog finished failed rest c Hw Hload Hsplit Hpass Hfail)
      as (e & reached & Hstop).
    rewrite Hstop in Hrun. injection Hrun as <- _ <-.
    split; [now exists e|]. split; [discriminate|].
    intros Hin. pose proof (apply_calls_no_query finished SelectVersionsChecksums) as Hno.
    unfold prelude_calls, failed_apply_calls in Hin. destruct reached; set_solver.
  - destruct (scripts_pass_cases SQLContent todo (contents (db w)))
      as [[c Hpass]|(fin & failed & rest & c & Hsplit & Hpass & Hfail)].
    + left. now exists c.
    + right. exists fin, failed, rest, c. done.
Qed.

(** C7. A ledger row whose stored checksum is the sentinel
    [legacy_migration_no_checksum_available] never makes integrity
    verification fail with the checksum-mismatch error of its version,
    whatever the checksum of the catalog script: neither
    [verifyMigrationIntegrity] on that ledger, nor a whole [RunMigrations]
    started on it. *)
Theorem legacy_row_never_mismatches (w : World) v entry :
  ledger (db w) !! v = Some entry ->
  checksum entry = Some legacy_checksum ->
  (forall migrations,
     (verifyMigrationIntegrity migrations w).1.1 <> Err (ErrChecksumMismatch v))
  /\ (forall dir,
        (RunMigrations dir w).1.1 <> Err (ErrIntegrity (ErrChecksumMismatch v))).
Proof.
  intros Hl Hc.
  assert (Hnot : forall catalog (l : gmap string LedgerEntry),
            l !! v = Some entry -> ~ modified catalog l v).
  { intros catalog l Hlv (entry' & c & m & Hl' & Hc' & Hleg & _). congruence. }
  split.
  - intros migrations Hres. unfold verifyMigrationIntegrity in Hres. simpl in Hres.
    change (integrity migrations (db w) = Err (ErrChecksumMismatch v)) in Hres.
    apply integrity_Err in Hres as [[Hbad _]|[(u & Hbad & _)|(u & [= <-] & Hu)]];
      [discriminate|discriminate|].
    now apply (Hnot migrations (ledger (db w))).
  - intros dir Hres. rewrite RunMigrations_cases in Hres.
    destruct (ledger_writable (contents (db w))); [|discriminate].
    cbv zeta in Hres. destruct (loadMigrationFiles dir) as [catalog|e] eqn:Hload; [|discriminate].
    pose proof (loadMigrationFiles_NoDup dir catalog Hload) as Hnd.
    set (w0 := MkWorld (MkDatabase (contents (db w)) (backfill <$> ledger (db w))) (now w)) in *.
    destruct (scripts_pass_cases SQLContent (pending (dom (ledger (db w))) catalog)
                (contents (db w)))
      as [[c Hpass]|(fin & failed & rest & c & Hsplit & Hpass & Hfail)].
    + rewrite (run_pending_ok _ catalog w0 c) in Hres; [| |simpl|]; try done.
      * simpl in Hres. unfold integrity_answer in Hres.
        destruct (integrity catalog _) as [[]|e] eqn:Hi; [discriminate|].
        injection Hres as ->.
        apply integrity_Err in Hi as [[Hbad _]|[(u & Hbad & _)|(u & [= <-] & Hu)]];
          [discriminate|discriminate|].
        simpl in Hu. apply run_ledger_modified in Hu.
        -- now apply (Hnot catalog (ledger (db w))).
        -- done.
        -- now apply NoDup_pending_versions.
        -- intros m Hm. now apply pending_elem in Hm.
      * intros m _ Hm. now apply backfilled_fresh.
    + destruct (run_pending_fail (dom (ledger (db w))) catalog w0 fin failed rest c)
        as (e & reached & Hrun); try done.
      * intros m _ Hm. now apply backfilled_fresh.
      * rewrite Hrun in Hres. discriminate.
Qed.

(** C9. Inserting a version that already has a ledger row fails: the INSERT
    statement returns an error (the duplicate-key error whenever the ledger
    can be written at all), and [executeMigration] on such a migration
    returns an error and commits nothing, so the database, and with it the
    existing row with its checksum and timestamp, is unchanged. *)
Theorem recordApplied_duplicate (w : World) (migration : Migration) entry :
  ledger (db w) !! Version migration = Some entry ->
  (forall t cksum,
     exists e, run_statement (InsertLedger (Version migration) cksum) t (db w) = Err e
       /\ (ledger_writable (contents (db w)) = true ->
           e = PgUniqueViolation (Version migration)))
  /\ exists e w' t,
       executeMigration migration w = (Err e, w', t)
       /\ db w' = db w
       /\ ledger (db w') !! Version migration = Some entry
       /\ (Commit ∉ t)
       /\ (script_passes (SQLContent migration) (contents (db w)) = true ->
           e = ErrRecord (PgUniqueViolation (Version migration))).
Proof.
  intros Hl. split.
  - intros t cksum. simpl. rewrite Hl.
    destruct (ledger_writable (contents (db w))); eexists; split; try done.
  - rewrite executeMigration_cases. unfold script_passes.
    destruct (exec_sql (SQLContent migration) (contents (db w))) as [c|].
    + destruct (ledger_writable c).
      * rewrite Hl. eexists _, _, _. split; [reflexivity|]. simpl.
        repeat split; try done.
        intros H. apply list_elem_of_In in H. simpl in H. intuition discriminate.
      * eexists _, _, _. split; [reflexivity|]. simpl. repeat split; try done.
        intros H. apply list_elem_of_In in H. simpl in H. intuition discriminate.
    + eexists _, _, _. split; [reflexivity|]. simpl. repeat split; try done.
      intros H. apply list_elem_of_In in H. simpl in H. intuition discriminate.
Qed.

Lemma rollback_version_cases dir v (w : World) :
  rollback_version dir v w =
  match ReadFile dir (downFilename dir v) with
  | Err e => (Err (ErrReadRollbackFile (downFilename dir v) e), w, [])
  | Ok content =>
      match exec_sql content (contents (db w)) with
      | None =>
          (Err (ErrRollbackSQL (PgStatementError content)),
           MkWorld (db w) (S (now w)), failed_rollback_calls content v false)
      | Some c =>
          if ledger_writable c
          then (Ok tt, MkWorld (MkDatabase c (delete v (ledger (db w)))) (S (now w)),
                rollback_calls content v)
          else (Err (ErrRemoveTracking PgLedgerUnavailable),
                MkWorld (db w) (S (now w)), failed_rollback_calls content v true)
      end
  end.
Proof.
  unfold rollback_version, bind, wrap, lift, pool_Begin, wrap_rollback, tx_Exec, tx_Commit.
  destruct (ReadFile dir (downFilename dir v)) as [content|e]; [|done]. simpl.
  destruct (exec_sql content (contents (db w))) as [c|]; simpl; [|done].
  destruct (ledger_writable c); done.
Qed.

(** A rollback that fails leaves the committed database as it was. *)
Lemma rollback_version_Err dir v (w : World) e w' t :
  rollback_version dir v w = (Err e, w', t) -> db w' = db w /\ Commit ∉ t.
Proof.
  rewrite rollback_version_cases.
  destruct (ReadFile dir (downFilename dir v)) as [content|e'].
  - destruct (exec_sql content (contents (db w))) as [c|].
    + destruct (ledger_writable c); [discriminate|]. intros [= <- <- <-]. split; [done|].
      intros H. apply list_elem_of_In in H. simpl in H. intuition discriminate.
    + intros [= <- <- <-]. split; [done|].
      intros H. apply list_elem_of_In in H. simpl in H. intuition discriminate.
  - intros [= <- <- <-]. split; [done|]. intros H. inversion H.
Qed.

Lemma ltb_empty_r (s : string) : String.ltb s "" = false.
Proof. now destruct s. Qed.

Lemma ltb_empty_l (s : string) : String.ltb "" s = false -> s = "".
Proof. now destruct s. Qed.

Lemma ltb_false_trans (a b c : string) :
  String.ltb a b = false -> String.ltb b c = false -> String.ltb a c = false.
Proof.
  intros Hab Hbc. destruct (String.ltb a c) eqn:Hac; [|done].
  destruct (ltb_trichotomy a b) as [H|[->|H]]; [congruence|congruence|].
  rewrite (ltb_trans _ _ _ H Hac) in Hbc. discriminate.
Qed.

(** The loop that looks for the last migration keeps the greatest string seen. *)
Lemma last_version_fold (versions : list string) (acc : string) :
  let r := fold_left (fun lastMigration version =>
                        if String.ltb lastMigration version then version else lastMigration)
                     versions acc in
  (r = acc \/ r ∈ versions) /\ String.ltb r acc = false
  /\ forall u, u ∈ versions -> String.ltb r u = false.
Proof.
  revert acc. induction versions as [|x versions IH]; intros acc; simpl.
  - split; [now left|]. split; [apply ltb_irrefl|]. intros u Hu. inversion Hu.
  - destruct (String.ltb acc x) eqn:Hlt.
    + destruct (IH x) as (Hin & Hx & Hall). split; [|split].
      * right. destruct Hin as [->|Hin]; [now left|now right].
      * apply (ltb_false_trans _ x); [done|]. now apply ltb_asym.
      * intros u Hu. apply elem_of_cons in Hu as [->|Hu]; [done|now apply Hall].
    + destruct (IH acc) as (Hin & Hacc & Hall). split; [|split; [done|]].
      * destruct Hin as [->|Hin]; [now left|]. right. now right.
      * intros u Hu. apply elem_of_cons in Hu as [->|Hu]; [|now apply Hall].
        now apply (ltb_false_trans _ acc).
Qed.

Lemma last_version_greatest (versions : list string) :
  versions <> [] ->
  last_version versions ∈ versions
  /\ forall u, u ∈ versions -> String.ltb (last_version versions) u = false.
Proof.
  intros Hne. unfold last_version.
  destruct (last_version_fold versions "") as (Hin & _ & Hall). split; [|done].
  destruct Hin as [Hr|Hin]; [|done].
  destruct versions as [|x versions]; [done|].
  pose proof (Hall x (list_elem_of_here _ _)) as Hx. rewrite Hr in Hx.
  apply ltb_empty_l in Hx. subst x. rewrite Hr. now left.
Qed.

Lemma scripts_pass_writable bodies c0 c :
  scripts_pass bodies c0 = Some c ->
  ledger_writable c0 = true -> ledger_writable c = true.
Proof.
  revert c0. induction bodies as [|b bodies IH]; intros c0; simpl.
  - now intros [= <-].
  - destruct (exec_sql b c0) as [c1|]; [|discriminate].
    destruct (ledger_writable c1) eqn:Hw; [|discriminate].
    intros H _. now apply (IH c1).
Qed.

Lemma backfill_idem (l : gmap string LedgerEntry) :
  (forall v entry, l !! v = Some entry -> checksum entry <> None) ->
  backfill <$> l = l.
Proof.
  intros H. apply map_eq. intros v. rewrite lookup_fmap.
  destruct (l !! v) as [entry|] eqn:Hl; [|done]. simpl. f_equal.
  specialize (H v entry Hl). unfold backfill. now destruct (checksum entry).
Qed.

Lemma pending_nil applied catalog :
  (forall m, m ∈ catalog -> Version m ∈ applied) -> pending applied catalog = [].
Proof.
  intros H. induction catalog as [|m catalog IH]; [done|].
  rewrite pending_cons_in by (apply H; now left).
  apply IH. intros m' Hm'. apply H. now right.
Qed.

(** C6. After a call of [RunMigrations] that returned nil, a second call
    on the same directory returns nil as well, sends no script and opens no
    transaction (only the table setup and the two queries), and leaves the
    world, ledger included, exactly as the first call left it. *)
Theorem RunMigrations_idempotent dir (w : World) w1 t1 :
  RunMigrations dir w = (Ok tt, w1, t1) ->
  RunMigrations dir w1
  = (Ok tt, w1, prelude_calls ++ [PoolQuery SelectVersionsChecksums]).
Proof.
  intros Hrun. pose proof Hrun as Hrun'. rewrite RunMigrations_cases in Hrun'.
  destruct (ledger_writable (contents (db w))) eqn:Hw; [|discriminate].
  cbv zeta in Hrun'. destruct (loadMigrationFiles dir) as [catalog|e] eqn:Hload; [|discriminate].
  clear Hrun'.
  pose proof (loadMigrationFiles_NoDup dir catalog Hload) as Hnd.
  set (todo := pending (dom (ledger (db w))) catalog).
  destruct (scripts_pass_cases SQLContent todo (contents (db w)))
    as [[c Hpass]|(fin & failed & rest & c & Hsplit & Hpass & Hfail)].
  - rewrite (RunMigrations_through dir w catalog c Hw Hload Hpass) in Hrun.
    cbv zeta in Hrun. fold todo in Hrun. injection Hrun as Hanswer <- _.
    set (l1 := record_all (now w) todo (backfill <$> ledger (db w))) in *.
    assert (Hnil : pending (dom l1) catalog = []).
    { apply pending_nil. intros m Hm. unfold l1. rewrite record_all_dom, dom_fmap_L.
      destruct (decide (Version m ∈ dom (ledger (db w)))) as [Hin|Hout].
      - apply elem_of_union. now left.
      - apply elem_of_union. right. apply elem_of_list_to_set, list_elem_of_fmap.
        exists m. split; [done|]. now apply pending_elem. }
    assert (Hfix : backfill <$> l1 = l1).
    { apply backfill_idem. intros v entry. apply run_ledger_checksum. }
    rewrite (RunMigrations_through dir _ catalog c); simpl.
    + rewrite Hnil, Hfix. simpl. rewrite Hanswer, Nat.add_0_r. done.
    + now apply (scripts_pass_writable _ _ _ Hpass).
    + done.
    + now rewrite Hnil.
  - destruct (RunMigrations_stops dir w catalog fin failed rest c Hw Hload Hsplit Hpass Hfail)
      as (e & reached & Hstop).
    rewrite Hstop in Hrun. discriminate.
Qed.

Lemma String_length_append (a b : string) :
  String.length (a +:+ b) = String.length a + String.length b.
Proof.
  induction a as [|c a IH]; [done|].
  rewrite append_cons. simpl. now rewrite IH.
Qed.

Lemma substring_append_r (a b : string) :
  substring (String.length a) (String.length b) (a +:+ b) = b.
Proof.
  induction a as [|c a IH].
  - apply substring_all.
  - rewrite append_cons. exact IH.
Qed.

Lemma substring_append_l (a b : string) :
  substring 0 (String.length a) (a +:+ b) = a.
Proof.
  induction a as [|c a IH].
  - now destruct b.
  - rewrite append_cons. simpl. now rewrite IH.
Qed.

Lemma HasSuffix_append (a suffix : string) :
  strings.HasSuffix (a +:+ suffix) suffix = true.
Proof.
  unfold strings.HasSuffix. rewrite String_length_append.
  replace (String.length a + String.length suffix - String.length suffix)
    with (String.length a) by lia.
  rewrite substring_append_r, String.eqb_refl, andb_true_r.
  apply Nat.leb_le. lia.
Qed.

Lemma TrimSuffix_append (a suffix : string) :
  strings.TrimSuffix (a +:+ suffix) suffix = a.
Proof.
  unfold strings.TrimSuffix. rewrite HasSuffix_append, String_length_append.
  replace (String.length a + String.length suffix - String.length suffix)
    with (String.length a) by lia.
  apply substring_append_l.
Qed.

Lemma append_assoc (a b c : string) : (a +:+ b) +:+ c = a +:+ (b +:+ c).
Proof. induction a as [|x a IH]; [done|]. rewrite !append_cons. now rewrite IH. Qed.

(** The name [downFilename] makes up when nothing else is found. *)
Lemma downFilename_fallback dir version :
  version <> "001_create_schema_migrations_table" ->
  version <> "002_create_users_table" ->
  version <> "003_create_indexes" ->
  (forall name e, entries dir !! name = Some e ->
     strings.Contains name "_down_" && strings.Contains name version = false) ->
  downFilename dir version = version +:+ "_down.sql".
Proof.
  intros H1 H2 H3 Hscan. unfold downFilename.
  apply String.eqb_neq in H1, H2, H3. rewrite H1, H2, H3.
  destruct (ReadDir dir) as [files|] eqn:Hrd; [|done].
  destruct (find _ files) as [[name e]|] eqn:Hfind; [|done].
  apply find_some in Hfind as [Hin Hc]. exfalso.
  apply list_elem_of_In, (ReadDir_elem dir files name e Hrd) in Hin.
  unfold Name in Hc. simpl in Hc. rewrite (Hscan name e Hin) in Hc. discriminate.
Qed.

(** A run of [RunMigrations] that got through its loop. *)
Lemma RunMigrations_completed dir (w : World) catalog r w' t :
  loadMigrationFiles dir = Ok catalog ->
  RunMigrations dir w = (r, w', t) ->
  (r = Ok tt \/ exists e, r = Err (ErrIntegrity e)) ->
  let todo := pending (dom (ledger (db w))) catalog in
  t = prelude_calls ++ concat (apply_calls <$> todo) ++ [PoolQuery SelectVersionsChecksums]
  /\ ledger (db w') = record_all (now w) todo (backfill <$> ledger (db w)).
Proof.
  intros Hload Hrun Hr todo.
  destruct (ledger_writable (contents (db w))) eqn:Hw.
  - destruct (scripts_pass_cases SQLContent todo (contents (db w)))
      as [[c Hpass]|(fin & failed & rest & c & Hsplit & Hpass & Hfail)].
    + rewrite (RunMigrations_through dir w catalog c Hw Hload Hpass) in Hrun.
      cbv zeta in Hrun. now injection Hrun as <- <- <-.
    + destruct (RunMigrations_stops dir w catalog fin failed rest c Hw Hload Hsplit Hpass Hfail)
        as (e & reached & Hstop).
      rewrite Hstop in Hrun. injection Hrun as <- _ _.
      destruct Hr as [Hr|[e' Hr]]; discriminate.
  - rewrite RunMigrations_cases, Hw in Hrun. injection Hrun as <- _ _.
    destruct Hr as [Hr|[e' Hr]]; discriminate.
Qed.

(** C10. Every regular file of the directory whose name ends in [.sql] and
    does not contain [_down_] is in the catalog as a forward migration, with
    the name minus [.sql] as version, whatever the name looks like. So is the
    file [<version>_down.sql], the name the rollback operations make up when
    the directory scan finds nothing: it is loaded under the version
    [<version>_down], and a run of [RunMigrations] that gets through its loop
    with that version not yet applied has executed it forward and recorded
    it. *)
Theorem catalog_includes_fallback_down_file dir catalog :
  loadMigrationFiles dir = Ok catalog ->
  (forall name content,
     entries dir !! name = Some (RegularFile content) ->
     strings.HasSuffix name ".sql" = true ->
     strings.Contains name "_down_" = false ->
     MkMigration (strings.TrimSuffix name ".sql") name content (calculateChecksum content)
     ∈ catalog)
  /\ (forall version content,
        entries dir !! (version +:+ "_down.sql") = Some (RegularFile content) ->
        strings.Contains (version +:+ "_down.sql") "_down_" = false ->
        MkMigration (version +:+ "_down") (version +:+ "_down.sql") content
                    (calculateChecksum content) ∈ catalog
        /\ forall (w : World) r w' t,
             RunMigrations dir w = (r, w', t) ->
             (r = Ok tt \/ exists e, r = Err (ErrIntegrity e)) ->
             (version +:+ "_down") ∉ dom (ledger (db w)) ->
             TxExec (Script content) ∈ t
             /\ exists ts, ledger (db w') !! (version +:+ "_down")
                           = Some (MkEntry ts (Some (calculateChecksum content)))).
Proof.
  intros Hload.
  assert (Hall : forall name content,
            entries dir !! name = Some (RegularFile content) ->
            strings.HasSuffix name ".sql" = true ->
            strings.Contains name "_down_" = false ->
            migration_of name content ∈ catalog).
  { intros name content Hfile Hsuf Hdown.
    apply (loadMigrationFiles_elem dir catalog Hload). exists name, content.
    repeat split; try done. unfold forward_name. now rewrite Hsuf, Hdown. }
  split; [exact Hall|].
  intros version content Hfile Hdown.
  assert (Hname : version +:+ "_down.sql" = (version +:+ "_down") +:+ ".sql")
    by now rewrite append_assoc.
  assert (Hm : MkMigration (version +:+ "_down") (version +:+ "_down.sql") content
                 (calculateChecksum content) ∈ catalog).
  { assert (Htrim : strings.TrimSuffix (version +:+ "_down.sql") ".sql" = version +:+ "_down")
      by (rewrite Hname; apply TrimSuffix_append).
    assert (Hsuf : strings.HasSuffix (version +:+ "_down.sql") ".sql" = true)
      by (rewrite Hname; apply HasSuffix_append).
    pose proof (Hall _ _ Hfile Hsuf Hdown) as H. unfold migration_of in H.
    now rewrite Htrim in H. }
  split; [exact Hm|].
  intros w r w' t Hrun Hr Hnew.
  destruct (RunMigrations_completed dir w catalog r w' t Hload Hrun Hr) as [Ht Hl].
  set (m := MkMigration (version +:+ "_down") (version +:+ "_down.sql") content
              (calculateChecksum content)) in *.
  assert (Htodo : m ∈ pending (dom (ledger (db w))) catalog) by now apply pending_elem.
  split.
  - rewrite Ht. apply elem_of_app. right. apply elem_of_app. left.
    apply list_elem_of_In, in_concat. exists (apply_calls m). split.
    + apply list_elem_of_In, list_elem_of_fmap. now exists m.
    + simpl. tauto.
  - rewrite Hl.
    destruct (record_all_lookup_in (now w) (pending (dom (ledger (db w))) catalog)
                (backfill <$> ledger (db w)) m) as (ts & _ & Hts); [|done|now exists ts].
    apply NoDup_pending_versions. now apply (loadMigrationFiles_NoDup dir).
Qed.

Lemma rollback_version_passes dir v (w : World) content c :
  down_content dir v = Some content ->
  exec_sql content (contents (db w)) = Some c -> ledger_writable c = true ->
  rollback_version dir v w
  = (Ok tt, MkWorld (MkDatabase c (delete v (ledger (db w)))) (S (now w)),
     rollback_calls content v).
Proof.
  unfold down_content. intros Hd Hx Hw. rewrite rollback_version_cases.
  destruct (ReadFile dir (downFilename dir v)) as [content'|]; [|discriminate].
  injection Hd as ->. now rewrite Hx, Hw.
Qed.

Lemma rollback_version_fails dir v (w : World) :
  rollback_passes dir v (contents (db w)) = false ->
  exists e w' t, rollback_version dir v w = (Err e, w', t)
    /\ db w' = db w /\ Commit ∉ t.
Proof.
  unfold rollback_passes, down_content, script_passes. intros Hf.
  destruct (rollback_version dir v w) as [[[[]|e] w'] t] eqn:Hrb.
  - exfalso. rewrite rollback_version_cases in Hrb.
    destruct (ReadFile dir (downFilename dir v)) as [content|]; [|discriminate].
    destruct (exec_sql content (contents (db w))) as [c|]; [|discriminate].
    rewrite Hf in Hrb. discriminate.
  - exists e, w', t. split; [done|]. now apply (rollback_version_Err dir v w e).
Qed.

Lemma rollback_each_skip dir applied target m ms (w : World) :
  ~ (Version m ∈ applied /\ String.ltb target (Version m) = true) ->
  rollback_each dir applied target (m :: ms) w = rollback_each dir applied target ms w.
Proof.
  intros H. simpl. unfold isMigrationExecuted.
  destruct (bool_decide_reflect (Version m ∈ applied)) as [Hin|Hout];
    destruct (String.ltb target (Version m)) eqn:Hlt; simpl;
    rewrite ?andb_false_r; try done.
  exfalso. now apply H.
Qed.

Lemma rollback_each_take dir applied target m ms (w : World) :
  strings.Contains (Version m) "_down_" = false ->
  Version m ∈ applied /\ String.ltb target (Version m) = true ->
  rollback_each dir applied target (m :: ms) w =
  match rollback_version dir (Version m) w with
  | (Ok _, w1, t1) =>
      match rollback_each dir applied target ms w1 with
      | (r, w2, t2) => (r, w2, t1 ++ t2)
      end
  | (Err e, w1, t1) => (Err e, w1, t1)
  end.
Proof.
  intros Hd [Hin Hlt]. simpl. unfold isMigrationExecuted.
  rewrite Hd, bool_decide_eq_true_2, Hlt by done. simpl. unfold bind.
  destruct (rollback_version dir (Version m) w) as [[[[]|e] w1] t1]; done.
Qed.

(** Every candidate is rolled back: one transaction each, in order. *)
Lemma rollback_each_ok dir applied target ms (w : World) c :
  (forall m, m ∈ ms -> strings.Contains (Version m) "_down_" = false) ->
  let vs := Version <$> filter (fun m => Version m ∈ applied
                                         /\ String.ltb target (Version m) = true) ms in
  rollbacks_pass dir vs (contents (db w)) = Some c ->
  rollback_each dir applied target ms w
  = (Ok tt, MkWorld (MkDatabase c (remove_all vs (ledger (db w)))) (now w + length vs),
     rollbacks_calls dir vs).
Proof.
  revert w. induction ms as [|m ms IH]; intros w Hdown vs Hpass.
  - simpl in *. injection Hpass as <-. unfold ret. rewrite Nat.add_0_r.
    destruct w as [[c l] t]. done.
  - subst vs. rewrite filter_cons in *.
    destruct (decide (Version m ∈ applied /\ String.ltb target (Version m) = true))
      as [Hyes|Hno].
    + rewrite rollback_each_take; [|apply Hdown; now left|done].
      simpl in Hpass. destruct (down_content dir (Version m)) as [content|] eqn:Hdc; [|done].
      destruct (exec_sql content (contents (db w))) as [c1|] eqn:Hx; [|done].
      destruct (ledger_writable c1) eqn:Hw; [|done].
      rewrite (rollback_version_passes dir _ w content c1) by done.
      rewrite IH; simpl; [| |done].
      * unfold rollbacks_calls. simpl. rewrite Hdc. simpl.
        rewrite Nat.add_succ_r. reflexivity.
      * intros m' Hm'. apply Hdown. now right.
    + rewrite rollback_each_skip by done. apply IH; [|done].
      intros m' Hm'. apply Hdown. now right.
Qed.

(** A candidate cannot be rolled back: the sequence stops there, and the
    candidates before it stay rolled back. *)
Lemma rollback_each_fail dir applied target ms (w : World) finished failed rest c :
  (forall m, m ∈ ms -> strings.Contains (Version m) "_down_" = false) ->
  Version <$> filter (fun m => Version m ∈ applied
                               /\ String.ltb target (Version m) = true) ms
  = finished ++ failed :: rest ->
  rollbacks_pass dir finished (contents (db w)) = Some c ->
  rollback_passes dir failed c = false ->
  exists e w' tail,
    rollback_each dir applied target ms w
    = (Err e, w', rollbacks_calls dir finished ++ tail)
    /\ db w' = MkDatabase c (remove_all finished (ledger (db w)))
    /\ Commit ∉ tail.
Proof.
  revert w finished. induction ms as [|m ms IH]; intros w finished Hdown Hsplit Hpass Hfail.
  - simpl in Hsplit. now destruct finished.
  - rewrite filter_cons in Hsplit.
    destruct (decide (Version m ∈ applied /\ String.ltb target (Version m) = true))
      as [Hyes|Hno].
    + rewrite rollback_each_take; [|apply Hdown; now left|done].
      destruct finished as [|d finished]; simpl in Hsplit; injection Hsplit as <- Hsplit.
      * simpl in Hpass. injection Hpass as <-.
        destruct (rollback_version_fails dir (Version m) w Hfail) as (e & w' & t & -> & Hdb & Hc).
        exists e, w', t. split; [done|]. split; [|done]. rewrite Hdb. now destruct (db w).
      * simpl in Hpass.
        destruct (down_content dir (Version m)) as [content|] eqn:Hdc; [|done].
        destruct (exec_sql content (contents (db w))) as [c1|] eqn:Hx; [|done].
        destruct (ledger_writable c1) eqn:Hw; [|done].
        rewrite (rollback_version_passes dir _ w content c1) by done.
        edestruct (IH (MkWorld (MkDatabase c1 (delete (Version m) (ledger (db w)))) (S (now w)))
                     finished) as (e & w' & tail & Hrun & Hdb & Hc);
          [|exact Hsplit|exact Hpass|exact Hfail|].
        { intros m' Hm'. apply Hdown. now right. }
        exists e, w', tail. rewrite Hrun. split; [|done].
        unfold rollbacks_calls. simpl. rewrite Hdc. done.
    + rewrite rollback_each_skip by done. apply IH; try done.
      intros m' Hm'. apply Hdown. now right.
Qed.

Lemma rollbacks_pass_cases dir (versions : list string) c :
  (exists c', rollbacks_pass dir versions c = Some c')
  \/ (exists finished failed rest c',
        versions = finished ++ failed :: rest
        /\ rollbacks_pass dir finished c = Some c'
        /\ rollback_passes dir failed c' = false).
Proof.
  revert c. induction versions as [|v versions IH]; intros c; simpl.
  - left. now exists c.
  - destruct (down_content dir v) as [content|] eqn:Hdc.
    + destruct (exec_sql content c) as [c1|] eqn:Hx.
      * destruct (ledger_writable c1) eqn:Hw.
        -- destruct (IH c1) as [[c' Hc']|(fin & f & rest & c' & -> & Hd & Hf)].
           ++ left. now exists c'.
           ++ right. exists (v :: fin), f, rest, c'. simpl. now rewrite Hdc, Hx, Hw.
        -- right. exists [], v, versions, c. unfold rollback_passes, script_passes.
           now rewrite Hdc, Hx.
      * right. exists [], v, versions, c. unfold rollback_passes, script_passes.
        now rewrite Hdc, Hx.
    + right. exists [], v, versions, c. unfold rollback_passes. now rewrite Hdc.
Qed.

Lemma remove_all_lookup (versions : list string) (l : gmap string LedgerEntry) v :
  remove_all versions l !! v = if decide (v ∈ versions) then None else l !! v.
Proof.
  unfold remove_all. revert l. induction versions as [|x versions IH]; intros l.
  - destruct (decide (v ∈ [])) as [H|]; [inversion H|done].
  - change (foldl (fun l v => delete v l) (delete x l) versions !! v
            = if decide (v ∈ x :: versions) then None else l !! v).
    rewrite IH.
    destruct (decide (v ∈ versions)) as [Hin|Hout];
      destruct (decide (v ∈ x :: versions)) as [Hin'|Hout']; try done.
    + exfalso. apply Hout'. now right.
    + apply elem_of_cons in Hin' as [->|Hin']; [apply lookup_delete_eq|contradiction].
    + apply lookup_delete_ne. intros ->. apply Hout'. now left.
Qed.

Lemma RunDownMigrations_cases dir target (w : World) :
  RunDownMigrations dir target w =
  match loadMigrationFiles dir with
  | Err e => (Err (ErrLoadFiles e), w, [PoolQuery SelectVersions])
  | Ok catalog =>
      match rollback_each dir (dom (ledger (db w))) target
                          (sort_Slice version_greater catalog) w with
      | (r, w', t) => (r, w', PoolQuery SelectVersions :: t)
      end
  end.
Proof.
  unfold RunDownMigrations, bind, wrap, getExecutedMigrations, lift.
  destruct (loadMigrationFiles dir) as [catalog|e]; [|done].
  destruct (rollback_each _ _ _ _ w) as [[r w'] t]. done.
Qed.

Lemma candidates_sorted dir catalog applied target :
  loadMigrationFiles dir = Ok catalog ->
  StronglySorted (fun a b => String.ltb b a = true) (candidates applied target catalog).
Proof.
  intros Hload. pose proof (loadMigrationFiles_NoDup dir catalog Hload) as Hnd.
  unfold candidates.
  apply (StronglySorted_fmap Version descending (fun a b => String.ltb b a = true)); [intros a b H; exact H|].
  apply StronglySorted_filter.
  apply (sort_Slice_sorted version_greater catalog).
  - eapply NoDup_fmap_1. exact Hnd.
  - now apply version_greater_strict.
Qed.

Lemma candidates_elem catalog applied target v :
  v ∈ candidates applied target catalog
  <-> v ∈ Version <$> catalog /\ v ∈ applied /\ String.ltb target v = true.
Proof.
  unfold candidates. rewrite !list_elem_of_fmap. split.
  - intros (m & -> & Hm). apply list_elem_of_filter in Hm as [[Ha Hlt] Hm].
    apply sort_Slice_elem in Hm. split; [now exists m|done].
  - intros [(m & -> & Hm) [Ha Hlt]]. exists m. split; [done|].
    apply list_elem_of_filter. split; [done|]. now apply sort_Slice_elem.
Qed.

(** C4, as the code has it. [RunDownMigrations] goes through the versions of
    the catalog that are applied and strictly greater than the target, in
    strictly descending version order, and rolls each back in a transaction
    of its own (down script, then ledger delete). It either rolls all of
    them back and returns nil, or stops at the first that cannot be rolled
    back and returns an error: nothing is committed for that version or any
    after it, and the versions before it stay rolled back. *)
Theorem RunDownMigrations_spec dir target (w : World) catalog r w' t :
  loadMigrationFiles dir = Ok catalog ->
  RunDownMigrations dir target w = (r, w', t) ->
  let todo := candidates (dom (ledger (db w))) target catalog in
  StronglySorted (fun a b => String.ltb b a = true) todo
  /\ (forall v, v ∈ todo <->
        v ∈ Version <$> catalog /\ v ∈ dom (ledger (db w)) /\ String.ltb target v = true)
  /\ exists finished rest,
       todo = finished ++ rest
       /\ rollbacks_pass dir finished (contents (db w)) = Some (contents (db w'))
       /\ ledger (db w') = remove_all finished (ledger (db w))
       /\ ((r = Ok tt /\ rest = []
            /\ t = PoolQuery SelectVersions :: rollbacks_calls dir finished)
           \/ (exists e failed rest' tail,
                 r = Err e /\ rest = failed :: rest'
                 /\ rollback_passes dir failed (contents (db w')) = false
                 /\ t = PoolQuery SelectVersions :: rollbacks_calls dir finished ++ tail
                 /\ Commit ∉ tail)).
Proof.
  intros Hload Hrun todo.
  split; [now apply (candidates_sorted dir)|]. split; [apply candidates_elem|].
  rewrite RunDownMigrations_cases, Hload in Hrun.
  assert (Hdown : forall m, m ∈ sort_Slice version_greater catalog ->
            strings.Contains (Version m) "_down_" = false).
  { intros m Hm. apply sort_Slice_elem in Hm. now apply (catalog_no_down_marker dir catalog). }
  destruct (rollbacks_pass_cases dir todo (contents (db w)))
    as [[c Hpass]|(fin & failed & rest & c & Hsplit & Hpass & Hfail)].
  - rewrite (rollback_each_ok dir _ target _ w c Hdown Hpass) in Hrun.
    injection Hrun as <- <- <-. exists todo, []. simpl. rewrite app_nil_r.
    repeat split; try done. left. done.
  - destruct (rollback_each_fail dir (dom (ledger (db w))) target _ w fin failed rest c
                Hdown Hsplit Hpass Hfail) as (e & w1 & tail & Hrb & Hdb & Hc).
    rewrite Hrb in Hrun. injection Hrun as <- <- <-.
    exists fin, (failed :: rest). rewrite Hdb. simpl. repeat split; try done.
    right. exists e, failed, rest, tail. done.
Qed.

End RunnerFacts.

(** ** The worked examples *)

(** [dir_abc] on [two_applied]: 001_a and 002_b are applied and are not
    run again; 003_c alone is pending and is run. *)
Lemma RunMigrations_applies_pending_witness :
  exists w' t,
    RunMigrations (E := toy) dir_abc two_applied = (Ok tt, w', t)
    /\ t = prelude_calls ++ apply_calls (migration_of "003_c.sql" "CREATE c")
           ++ [PoolQuery SelectVersionsChecksums]
    /\ contents (db w') = ["CREATE c"; "CREATE b"; "CREATE a"]
    /\ ledger (db w') !! "003_c" = Some (applied_row 2 "CREATE c")
    /\ ledger (db w') !! "001_a" = Some (applied_row 0 "CREATE a").
Proof.
  assert (Hpending : pending (dom (ledger (db two_applied)))
                       [migration_of "001_a.sql" "CREATE a"; migration_of "002_b.sql" "CREATE b";
                        migration_of "003_c.sql" "CREATE c"]
                     = [migration_of "003_c.sql" "CREATE c"]) by (vm_compute; reflexivity).
  destruct (RunMigrations_applies_pending (E := toy) dir_abc two_applied
              [migration_of "001_a.sql" "CREATE a"; migration_of "002_b.sql" "CREATE b";
               migration_of "003_c.sql" "CREATE c"]
              ["CREATE c"; "CREATE b"; "CREATE a"])
    as (_ & _ & r & w' & t & Hrun & Hr & Ht & Hc & Hl & _);
    [vm_compute; reflexivity|vm_compute; reflexivity|vm_compute; reflexivity|].
  rewrite Hpending in Ht, Hl.
  assert (Hok : r = Ok tt).
  { assert (Hres : (RunMigrations (E := toy) dir_abc two_applied).1.1 = Ok tt)
      by (vm_compute; reflexivity).
    rewrite Hrun in Hres. exact Hres. }
  subst r. exists w', t. split; [exact Hrun|]. split; [rewrite Ht; reflexivity|].
  split; [exact Hc|]. rewrite Hl. split; vm_compute; reflexivity.
Defined.

(** Scripts 001, 002, 003 where 002 is invalid SQL: the ledger afterwards
    contains exactly 001. *)
Lemma RunMigrations_failure_aborts_witness :
  exists e reached w' t,
    RunMigrations (E := toy) dir_bad fresh
    = (Err (ErrExecuteMigration "002_b" e), w', t)
    /\ t = prelude_calls ++ apply_calls (migration_of "001_a.sql" "CREATE a")
           ++ failed_apply_calls (migration_of "002_b.sql" "INVALID b") reached
    /\ contents (db w') = ["CREATE a"]
    /\ dom (ledger (db w')) = {["001_a"]}.
Proof.
  destruct (RunMigrations_failure_aborts (E := toy) dir_bad fresh
              [migration_of "001_a.sql" "CREATE a"; migration_of "002_b.sql" "INVALID b";
               migration_of "003_c.sql" "CREATE c"]
              [migration_of "001_a.sql" "CREATE a"]
              (migration_of "002_b.sql" "INVALID b")
              [migration_of "003_c.sql" "CREATE c"]
              ["CREATE a"])
    as (e & reached & w' & t & Hrun & Ht & Hc & Hl & _); try (vm_compute; reflexivity).
  exists e, reached, w', t. split; [exact Hrun|]. split.
  - rewrite Ht. reflexivity.
  - split; [exact Hc|]. rewrite Hl. vm_compute. reflexivity.
Defined.

(** The edited 002_b.sql of [tampered], with nothing pending: verification
    runs and fails. [dir_bad] on [orphan_world]: 002_b fails, and the
    orphaned row is never looked at. *)
Lemma RunMigrations_verifies_integrity_witness :
  (RunMigrations (E := toy) dir_abc tampered).1.1
  = Err (ErrIntegrity (ErrChecksumMismatch "002_b"))
  /\ (exists e, (RunMigrations (E := toy) dir_bad orphan_world).1.1
                = Err (ErrExecuteMigration "002_b" e))
  /\ PoolQuery SelectVersionsChecksums ∉ (RunMigrations (E := toy) dir_bad orphan_world).2.
Proof.
  split.
  - pose (out := RunMigrations (E := toy) dir_abc tampered).
    destruct (RunMigrations_verifies_integrity (E := toy) dir_abc tampered
                [migration_of "001_a.sql" "CREATE a"; migration_of "002_b.sql" "CREATE b";
                 migration_of "003_c.sql" "CREATE c"]
                (out.1.1) (out.1.2) (out.2))
      as (Hthrough & _ & _);
      [vm_compute; reflexivity|vm_compute; reflexivity|vm_compute; reflexivity|].
    destruct (Hthrough ["CREATE c"; "CREATE b -- as first applied"; "CREATE a"])
      as (_ & _ & _ & Htamper); [vm_compute; reflexivity|].
    apply (Htamper "002_b").
    + exists (applied_row 1 "CREATE b -- as first applied"),
        (calculateChecksum "CREATE b -- as first applied"),
        (migration_of "002_b.sql" "CREATE b").
      repeat split; try (vm_compute; reflexivity); try (vm_compute; discriminate).
      apply list_elem_of_In. vm_compute. tauto.
    + intros u Hu. split.
      * intros [[entry Hl] Hout]. apply Hout.
        assert (Hd : u ∈ dom (ledger (db tampered))) by (apply elem_of_dom; now exists entry).
        apply elem_of_elements, list_elem_of_In in Hd. vm_compute in Hd.
        apply list_elem_of_In. vm_compute. tauto.
      * intros (entry & cu & m & Hl & Hc & Hleg & Hm & Hmv & Hmc).
        apply list_elem_of_In in Hm. simpl in Hm.
        destruct Hm as [<-|[<-|[<-|[]]]]; simpl in Hmv; subst u.
        -- vm_compute in Hl. injection Hl as <-. vm_compute in Hc. injection Hc as <-.
           apply Hmc. vm_compute. reflexivity.
        -- now apply Hu.
        -- vm_compute in Hl. injection Hl as <-. vm_compute in Hc. injection Hc as <-.
           apply Hmc. vm_compute. reflexivity.
  - pose (out := RunMigrations (E := toy) dir_bad orphan_world).
    destruct (RunMigrations_verifies_integrity (E := toy) dir_bad orphan_world
                [migration_of "001_a.sql" "CREATE a"; migration_of "002_b.sql" "INVALID b";
                 migration_of "003_c.sql" "CREATE c"]
                (out.1.1) (out.1.2) (out.2))
      as (_ & Hstops & _);
      [vm_compute; reflexivity|vm_compute; reflexivity|vm_compute; reflexivity|].
    destruct (Hstops [migration_of "001_a.sql" "CREATE a"]
                     (migration_of "002_b.sql" "INVALID b")
                     [migration_of "003_c.sql" "CREATE c"]
                     ["CREATE a"; "CREATE z"])
      as ((e & He) & _ & Hno);
      [vm_compute; reflexivity|vm_compute; reflexivity|vm_compute; reflexivity|].
    split; [exists e; exact He|exact Hno].
Defined.

(** C3 as stated fails twice. On [tampered] the row of 002_b is modified and
    the call fails with the checksum-mismatch error, but the text of the
    error contains neither the recorded nor the current checksum. On
    [orphan_world] with [dir_bad] a ledger row is orphaned, but script 002_b
    fails first: the call returns that script's error and never sends the
    verification query. *)
Lemma RunMigrations_integrity_counterexample :
  (modified [migration_of "001_a.sql" "CREATE a"; migration_of "002_b.sql" "CREATE b";
             migration_of "003_c.sql" "CREATE c"]
            (ledger (db tampered)) "002_b"
   /\ exists e,
        (RunMigrations (E := toy) dir_abc tampered).1.1 = Err e
        /\ e = ErrIntegrity (ErrChecksumMismatch "002_b")
        /\ strings.Contains (Error e) (calculateChecksum "CREATE b -- as first applied")
           = false
        /\ strings.Contains (Error e) (calculateChecksum "CREATE b") = false)
  /\ (orphaned [migration_of "001_a.sql" "CREATE a"; migration_of "002_b.sql" "INVALID b";
                migration_of "003_c.sql" "CREATE c"]
               (ledger (db orphan_world)) "000_gone"
      /\ (RunMigrations (E := toy) dir_bad orphan_world).1.1
         = Err (ErrExecuteMigration "002_b"
                  (ErrMigrationSQL (PgStatementError "INVALID b")))
      /\ PoolQuery SelectVersionsChecksums ∉ (RunMigrations (E := toy) dir_bad orphan_world).2).
Proof.
  split; [split|split; [|split]].
  - exists (applied_row 1 "CREATE b -- as first applied"),
      (calculateChecksum "CREATE b -- as first applied"),
      (migration_of "002_b.sql" "CREATE b").
    repeat split; try (vm_compute; reflexivity); try (vm_compute; discriminate).
    apply list_elem_of_In. vm_compute. tauto.
  - exists (ErrIntegrity (ErrChecksumMismatch "002_b")).
    repeat split; vm_compute; reflexivity.
  - split.
    + exists (applied_row 0 "CREATE z"). vm_compute. reflexivity.
    + intros H. apply list_elem_of_In in H. vm_compute in H.
      intuition discriminate.
  - vm_compute. reflexivity.
  - intros H. apply list_elem_of_In in H. vm_compute in H.
    intuition discriminate.
Qed.

(** The legacy row of [legacy_world]: no mismatch, and the run succeeds. *)
Lemma legacy_row_never_mismatches_witness :
  (RunMigrations (E := toy) dir_abc legacy_world).1.1
  <> Err (ErrIntegrity (ErrChecksumMismatch "001_a"))
  /\ (RunMigrations (E := toy) dir_abc legacy_world).1.1 = Ok tt.
Proof.
  split; [|vm_compute; reflexivity].
  apply (legacy_row_never_mismatches (E := toy) legacy_world "001_a"
           (MkEntry 0 (Some legacy_checksum)));
    vm_compute; reflexivity.
Defined.

(** Recording 002_b again on [tampered]: refused, the old row stays. *)
Lemma recordApplied_duplicate_witness :
  exists e w' t,
    executeMigration (E := toy) (migration_of "002_b.sql" "CREATE b") tampered
    = (Err e, w', t)
    /\ db w' = db tampered
    /\ ledger (db w') !! "002_b" = Some (applied_row 1 "CREATE b -- as first applied")
    /\ e = ErrRecord (PgUniqueViolation "002_b").
Proof.
  destruct (recordApplied_duplicate (E := toy) tampered
              (migration_of "002_b.sql" "CREATE b")
              (applied_row 1 "CREATE b -- as first applied"))
    as (_ & e & w' & t & Hrun & Hdb & Hrow & _ & He); [vm_compute; reflexivity|].
  exists e, w', t. repeat split; try done.
  apply He. vm_compute. reflexivity.
Defined.

(** [dir_abc] on a fresh database, run twice. *)
Lemma RunMigrations_idempotent_witness :
  exists w1 t1,
    RunMigrations (E := toy) dir_abc fresh = (Ok tt, w1, t1)
    /\ RunMigrations (E := toy) dir_abc w1
       = (Ok tt, w1, prelude_calls ++ [PoolQuery SelectVersionsChecksums])
    /\ dom (ledger (db w1)) = {["001_a"; "002_b"; "003_c"]}.
Proof.
  pose (out := RunMigrations (E := toy) dir_abc fresh).
  exists (out.1.2), (out.2).
  assert (Hfirst : RunMigrations (E := toy) dir_abc fresh = (Ok tt, out.1.2, out.2))
    by (vm_compute; reflexivity).
  split; [exact Hfirst|]. split.
  - exact (RunMigrations_idempotent (E := toy) dir_abc fresh (out.1.2) (out.2) Hfirst).
  - vm_compute. reflexivity.
Defined.

(** [dir_down] on a fresh database: the two down files run as forward
    migrations, right after the scripts they are meant to undo. *)
Lemma catalog_includes_fallback_down_file_witness :
  migration_of "001_a_down.sql" "DROP a"
  ∈ [migration_of "001_a.sql" "CREATE a"; migration_of "001_a_down.sql" "DROP a";
     migration_of "002_b.sql" "CREATE b"; migration_of "002_b_down.sql" "DROP b"]
  /\ downFilename dir_down "001_a" = "001_a_down.sql"
  /\ contents (db (RunMigrations (E := toy) dir_down fresh).1.2)
     = ["DROP b"; "CREATE b"; "DROP a"; "CREATE a"]
  /\ TxExec (Script "DROP a") ∈ (RunMigrations (E := toy) dir_down fresh).2.
Proof.
  destruct (catalog_includes_fallback_down_file (E := toy) dir_down
              [migration_of "001_a.sql" "CREATE a"; migration_of "001_a_down.sql" "DROP a";
               migration_of "002_b.sql" "CREATE b"; migration_of "002_b_down.sql" "DROP b"])
    as [_ Hdown]; [vm_compute; reflexivity|].
  destruct (Hdown "001_a" "DROP a") as [Hin Hrun];
    [vm_compute; reflexivity|vm_compute; reflexivity|].
  split; [exact Hin|]. split; [vm_compute; reflexivity|]. split; [vm_compute; reflexivity|].
  pose (out := RunMigrations (E := toy) dir_down fresh).
  destruct (Hrun fresh (out.1.1) (out.1.2) (out.2)) as [Hexec _].
  - vm_compute. reflexivity.
  - left. vm_compute. reflexivity.
  - intros H. apply elem_of_elements, list_elem_of_In in H. vm_compute in H. done.
  - exact Hexec.
Defined.

(** [two_applied] rolled back to 000 with [dir_down]: 002_b, then 001_a. *)
Lemma RunDownMigrations_spec_witness :
  exists r w' t,
    RunDownMigrations (E := toy) dir_down "000" two_applied = (r, w', t)
    /\ candidates (dom (ledger (db two_applied))) "000"
         [migration_of "001_a.sql" "CREATE a"; migration_of "001_a_down.sql" "DROP a";
          migration_of "002_b.sql" "CREATE b"; migration_of "002_b_down.sql" "DROP b"]
       = ["002_b"; "001_a"]
    /\ r = Ok tt
    /\ t = PoolQuery SelectVersions
           :: rollback_calls "DROP b" "002_b" ++ rollback_calls "DROP a" "001_a"
    /\ ledger (db w') = ∅.
Proof.
  pose (out := RunDownMigrations (E := toy) dir_down "000" two_applied).
  exists (out.1.1), (out.1.2), (out.2).
  destruct (RunDownMigrations_spec (E := toy) dir_down "000" two_applied
              [migration_of "001_a.sql" "CREATE a"; migration_of "001_a_down.sql" "DROP a";
               migration_of "002_b.sql" "CREATE b"; migration_of "002_b_down.sql" "DROP b"]
              (out.1.1) (out.1.2) (out.2))
    as (_ & _ & fin & rest & Hsplit & _ & Hl & Hcase).
  - vm_compute. reflexivity.
  - vm_compute. reflexivity.
  - split; [vm_compute; reflexivity|]. split; [vm_compute; reflexivity|].
    split; [vm_compute; reflexivity|]. split; [vm_compute; reflexivity|].
    destruct Hcase as [(_ & -> & _)|(e & failed & rest' & tail & He & _)].
    + rewrite app_nil_r in Hsplit. rewrite Hl, <- Hsplit. vm_compute. reflexivity.
    + vm_compute in He. discriminate.
Defined.

(** C4 as stated fails on [orphan_world]: the applied version 000_gone is
    greater than the target 000, but its script is not in the directory, so
    [RunDownMigrations] returns nil without opening a transaction and the
    row is still in the ledger. *)
Lemma RunDownMigrations_counterexample :
  "000_gone" ∈ dom (ledger (db orphan_world))
  /\ String.ltb "000" "000_gone" = true
  /\ RunDownMigrations (E := toy) dir_abc "000" orphan_world
     = (Ok tt, orphan_world, [PoolQuery SelectVersions]).
Proof.
  split; [|split; vm_compute; reflexivity].
  apply elem_of_dom. exists (applied_row 0 "CREATE z"). vm_compute. reflexivity.
Qed.

(** C8 does not hold of the code. In [dir_conventional] the applied version
    004_add_email has its down script under the conventional name
    004_down_add_email.sql, the pattern of the three built-in names. The
    directory scan asks for a name that contains the whole version string,
    which that name does not, so the fallback name 004_add_email_down.sql is
    taken and both [RollbackLastMigration] and [RunDownMigrations] fail
    reading it, without opening a transaction. *)
Theorem rollback_misses_conventional_down_file :
  entries dir_conventional !! "004_down_add_email.sql"
    = Some (RegularFile "ALTER TABLE users DROP email")
  /\ loadMigrationFiles dir_conventional
     = Ok [migration_of "004_add_email.sql" "ALTER TABLE users ADD email"]
  /\ dom (ledger (db email_applied)) = {["004_add_email"]}
  /\ strings.Contains "004_down_add_email.sql" "_down_" = true
  /\ strings.Contains "004_down_add_email.sql" "004_add_email" = false
  /\ downFilename dir_conventional "004_add_email" = "004_add_email_down.sql"
  /\ RollbackLastMigration (E := toy) dir_conventional email_applied
     = (Err (ErrReadRollbackFile "004_add_email_down.sql"
               (OsReadFileError "004_add_email_down.sql")),
        email_applied, [PoolQuery SelectVersions])
  /\ RunDownMigrations (E := toy) dir_conventional "003" email_applied
     = (Err (ErrReadRollbackFile "004_add_email_down.sql"
               (OsReadFileError "004_add_email_down.sql")),
        email_applied, [PoolQuery SelectVersions])
  /\ strings.HasPrefix
       (Error (ErrReadRollbackFile "004_add_email_down.sql"
                 (OsReadFileError "004_add_email_down.sql")))
       "failed to read rollback file 004_add_email_down.sql: " = true
  /\ downFilename dir_conventional "002_create_users_table"
     = "002_down_create_users_table.sql".
Proof.
  split; [vm_compute; reflexivity|]. split; [vm_compute; reflexivity|].
  split.
  { unfold email_applied. simpl. rewrite dom_insert_L, dom_empty_L. set_solver. }
  repeat split; vm_compute; reflexivity.
Qed.

(** * More properties of the package *)

(** ** Checksums *)

Lemma hex_digit_lower (x : N) : lower_hex (sha256.hex_digit (N.land x 0xf)) = true.
Proof.
  change 0xf%N with (N.ones 4). rewrite N.land_ones.
  assert (Hlt : (N.to_nat (x mod 2 ^ 4) < 16)%nat).
  { pose proof (N.mod_upper_bound x (2 ^ 4)%N ltac:(discriminate)) as H.
    change (2 ^ 4)%N with 16%N in *. lia. }
  unfold sha256.hex_digit. generalize dependent (N.to_nat (x mod 2 ^ 4)). intros n Hlt.
  do 16 (destruct n as [|n]; [reflexivity|]). lia.
Qed.

Lemma hex_word_lower (w : N) (tail : string) :
  forallb lower_hex (list_ascii_of_string (sha256.hex_word w tail))
  = forallb lower_hex (list_ascii_of_string tail).
Proof.
  unfold sha256.hex_word. change (rev (seq 0 8)) with [7; 6; 5; 4; 3; 2; 1; 0]%nat.
  cbn [fold_right list_ascii_of_string forallb]. now rewrite !hex_digit_lower.
Qed.

(** X1. [calculateChecksum] returns 64 characters, all of them lower-case
    hex digits, whatever the content: the value fits the column
    [checksum VARCHAR(64)], the slice [Checksum[:16]] of the log lines is in
    range, and no checksum of a file is the sentinel of the legacy rows. *)
Theorem calculateChecksum_hex64 (content : string) :
  String.length (calculateChecksum content) = 64
  /\ forallb lower_hex (list_ascii_of_string (calculateChecksum content)) = true
  /\ String.length (substring 0 16 (calculateChecksum content)) = 16
  /\ calculateChecksum content <> legacy_checksum.
Proof.
  split; [reflexivity|]. split.
  { unfold calculateChecksum, sha256.EncodeToString. now rewrite !hex_word_lower. }
  split; [reflexivity|].
  intros H. apply (f_equal String.length) in H.
  change (String.length (calculateChecksum content)) with 64 in H. discriminate H.
Qed.
(** ** Loading the catalog *)

Section CatalogLoading.

(** X2. Every migration of the loaded catalog was read from a regular file
    of the directory: its file name ends in [.sql] and has no [_down_], its
    version is the file name without [.sql], its content is the content of
    the file and its checksum the SHA-256 of that content. *)
Theorem loadMigrationFiles_from_files dir catalog m :
  loadMigrationFiles dir = Ok catalog -> m ∈ catalog ->
  entries dir !! Filename m = Some (RegularFile (SQLContent m))
  /\ strings.HasSuffix (Filename m) ".sql" = true
  /\ strings.Contains (Filename m) "_down_" = false
  /\ Version m = strings.TrimSuffix (Filename m) ".sql"
  /\ Filename m = Version m +:+ ".sql"
  /\ Checksum m = calculateChecksum (SQLContent m).
Proof.
  intros Hload Hm.
  apply (loadMigrationFiles_elem dir catalog Hload) in Hm as (name & content & Hf & Hfw & ->).
  unfold forward_name in Hfw. apply andb_prop in Hfw as [Hs Hd].
  apply negb_true_iff in Hd. simpl.
  repeat split; try done. now apply HasSuffix_split.
Qed.

Lemma StronglySorted_at {A} (R : A -> A -> Prop) (l : list A) i j a b :
  StronglySorted R l -> l !! i = Some a -> l !! j = Some b -> i < j -> R a b.
Proof.
  intros Hs. revert i j. induction Hs as [|x l Hs IH Hx]; intros i j Hi Hj Hlt.
  - discriminate.
  - destruct j as [|j]; [lia|]. destruct i as [|i].
    + injection Hi as ->. rewrite Forall_forall in Hx. apply Hx.
      eapply list_elem_of_lookup_2. exact Hj.
    + apply (IH i j); [done|done|lia].
Qed.

(** X3. The loaded catalog is strictly ascending in version under Go's
    string comparison: an earlier element has the smaller version. No two
    of its migrations share a version or a file name. *)
Theorem loadMigrationFiles_strictly_ascending dir catalog :
  loadMigrationFiles dir = Ok catalog ->
  (forall i j a b, catalog !! i = Some a -> catalog !! j = Some b -> i < j ->
     String.ltb (Version a) (Version b) = true)
  /\ NoDup (Version <$> catalog)
  /\ NoDup (Filename <$> catalog).
Proof.
  intros Hload. pose proof (loadMigrationFiles_sorted dir catalog Hload) as Hs.
  pose proof (loadMigrationFiles_NoDup dir catalog Hload) as Hnd.
  split; [|split; [done|]].
  - intros i j a b Hi Hj Hlt. apply (StronglySorted_at ascending catalog i j a b); done.
  - apply NoDup_fmap_2_strong; [|eapply NoDup_fmap_1; exact Hnd].
    intros x y Hx Hy Hxy. apply (NoDup_version_eq catalog x y Hnd Hx Hy).
    apply (loadMigrationFiles_elem dir catalog Hload) in Hx as (n1 & c1 & _ & _ & ->).
    apply (loadMigrationFiles_elem dir catalog Hload) in Hy as (n2 & c2 & _ & _ & ->).
    simpl in *. now rewrite Hxy.
Qed.

Lemma ReadDir_sorted dir files :
  ReadDir dir = Ok files ->
  StronglySorted (fun a b => String.ltb (Name a) (Name b) = true) files.
Proof.
  unfold ReadDir. destruct (listable dir); [|discriminate]. intros [= <-].
  apply (sort_Slice_sorted (fun a b => String.ltb (Name a) (Name b))).
  - apply NoDup_map_to_list.
  - split.
    + intros x y z. apply ltb_trans.
    + intros x y Hx Hy Hne.
      destruct (ltb_trichotomy (Name x) (Name y)) as [H|[H|H]]; [now left| |now right].
      exfalso. apply Hne. destruct x as [n1 e1], y as [n2 e2]. unfold Name in H. simpl in H.
      subst n2. apply elem_of_map_to_list in Hx, Hy. congruence.
Qed.

Lemma load_entries_Err dir files e :
  (forall name d, (name, d) ∈ files -> entries dir !! name = Some d) ->
  load_entries dir files = Err e ->
  exists pre name post,
    files = pre ++ (name, UnreadableFile) :: post
    /\ e = ErrReadMigrationFile name (OsReadFileError name)
    /\ forward_name name = true
    /\ forall n, (n, UnreadableFile) ∈ pre -> forward_name n = false.
Proof.
  induction files as [|[name d] files IH]; intros Hdir Hload; [discriminate|].
  assert (Hrest : forall n d', (n, d') ∈ files -> entries dir !! n = Some d').
  { intros n d' H. apply Hdir. now right. }
  simpl in Hload. unfold Name in Hload. simpl in Hload.
  assert (Hskip : forward_name name = false -> load_entries dir files = Err e ->
            exists pre n post, (name, d) :: files = pre ++ (n, UnreadableFile) :: post
              /\ e = ErrReadMigrationFile n (OsReadFileError n) /\ forward_name n = true
              /\ forall n', (n', UnreadableFile) ∈ pre -> forward_name n' = false).
  { intros Hfw Hl. destruct (IH Hrest Hl) as (pre & n & post & -> & -> & Hn & Hpre).
    exists ((name, d) :: pre), n, post. repeat split; try done.
    intros n' Hn'. apply elem_of_cons in Hn' as [[= -> _]|Hn']; [done|]. now apply Hpre. }
  destruct (IsDir d || negb (strings.HasSuffix name ".sql")) eqn:Hc1.
  { destruct (strings.HasSuffix name ".sql") eqn:Hs.
    - rewrite orb_false_r in Hc1. destruct d; try discriminate.
      unfold ReadFile in Hload. 
      destruct (forward_name name) eqn:Hfw; [|now apply Hskip].
      destruct (IH Hrest Hload) as (pre & n & post & -> & -> & Hn & Hpre).
      exists ((name, SubDirectory) :: pre), n, post. repeat split; try done.
      intros n' Hn'. apply elem_of_cons in Hn' as [[=]|Hn']. now apply Hpre.
    - apply Hskip; [|done]. unfold forward_name. now rewrite Hs. }
  destruct (strings.Contains name "_down_") eqn:Hc2.
  { apply Hskip; [|done]. unfold forward_name. rewrite Hc2. apply andb_false_r. }
  apply orb_false_elim in Hc1 as [Hd Hs]. apply negb_false_iff in Hs.
  assert (Hfw : forward_name name = true) by (unfold forward_name; now rewrite Hs, Hc2).
  unfold ReadFile in Hload. rewrite (Hdir name d) in Hload by now left.
  destruct d as [|content|]; [discriminate| |].
  - destruct (load_entries dir files) as [ms|e'] eqn:Hms; [discriminate|].
    injection Hload as ->.
    destruct (IH Hrest eq_refl) as (pre & n & post & -> & -> & Hn & Hpre).
    exists ((name, RegularFile content) :: pre), n, post. repeat split; try done.
    intros n' Hn'. apply elem_of_cons in Hn' as [[=]|Hn']. now apply Hpre.
  - injection Hload as <-. exists [], name, files. repeat split; try done.
    intros n Hn. inversion Hn.
Qed.

Lemma loadMigrationFiles_Err dir e :
  loadMigrationFiles dir = Err e ->
  (listable dir = false /\ e = ErrReadDir OsReadDirError)
  \/ (listable dir = true
      /\ exists name,
           e = ErrReadMigrationFile name (OsReadFileError name)
           /\ unreadable_forward dir name
           /\ forall other, unreadable_forward dir other -> String.ltb other name = false).
Proof.
  unfold loadMigrationFiles. destruct (ReadDir dir) as [files|e0] eqn:Hrd.
  - right. assert (Hl : listable dir = true).
    { unfold ReadDir in Hrd. now destruct (listable dir). }
    split; [done|].
    assert (Hdir : forall name d, (name, d) ∈ files -> entries dir !! name = Some d).
    { intros n d. apply (ReadDir_elem dir files n d Hrd). }
    destruct (load_entries dir files) as [ms|e'] eqn:Hload; [discriminate|].
    injection H as ->.
    destruct (load_entries_Err dir files e Hdir Hload) as (pre & n & post & Hsplit & -> & Hn & Hpre).
    exists n. split; [done|]. split.
    { split; [|done]. apply Hdir. rewrite Hsplit. apply elem_of_app. right. now left. }
    intros other [Ho Hof].
    apply (ReadDir_elem dir files other UnreadableFile Hrd) in Ho.
    pose proof (ReadDir_sorted dir files Hrd) as Hs. rewrite Hsplit in Hs, Ho.
    apply elem_of_app in Ho as [Ho|Ho].
    { rewrite (Hpre other Ho) in Hof. discriminate. }
    apply elem_of_cons in Ho as [[= ->]|Ho]; [apply ltb_irrefl|].
    apply StronglySorted_app_1_r in Hs. inversion Hs as [|? ? _ Hall]; subst.
    rewrite Forall_forall in Hall. specialize (Hall _ Ho). unfold Name in Hall. simpl in Hall.
    destruct (String.ltb other n) eqn:Hc; [|done].
    pose proof (ltb_trans _ _ _ Hall Hc) as Hbad. now rewrite ltb_irrefl in Hbad.
  - left. unfold ReadDir in Hrd. destruct (listable dir); [discriminate|].
    injection Hrd as <-. now injection H as <-.
Qed.

Lemma load_entries_Ok_readable dir files migrations :
  (forall name d, (name, d) ∈ files -> entries dir !! name = Some d) ->
  load_entries dir files = Ok migrations ->
  forall name, (name, UnreadableFile) ∈ files -> forward_name name = false.
Proof.
  revert migrations. induction files as [|[name d] files IH]; intros migrations Hdir Hload n Hn.
  - inversion Hn.
  - assert (Hrest : forall n d', (n, d') ∈ files -> entries dir !! n = Some d').
    { intros n' d' H. apply Hdir. now right. }
    simpl in Hload. unfold Name in Hload. simpl in Hload.
    destruct (forward_name n) eqn:Hfw; [exfalso|done].
    pose proof Hfw as Hfw'. unfold forward_name in Hfw'.
    apply andb_prop in Hfw' as [Hs Hd]. apply negb_true_iff in Hd.
    apply elem_of_cons in Hn as [[= <- <-]|Hn].
    + rewrite Hs, Hd in Hload. simpl in Hload.
      unfold ReadFile in Hload. rewrite (Hdir n UnreadableFile) in Hload by now left.
      discriminate.
    + destruct (IsDir d || negb (strings.HasSuffix name ".sql")).
      { rewrite (IH _ Hrest Hload n Hn) in Hfw. discriminate. }
      destruct (strings.Contains name "_down_").
      { rewrite (IH _ Hrest Hload n Hn) in Hfw. discriminate. }
      destruct (ReadFile dir name); [|discriminate].
      destruct (load_entries dir files) as [ms|] eqn:Hms; [|discriminate].
      rewrite (IH _ Hrest eq_refl n Hn) in Hfw. discriminate.
Qed.

Lemma loadMigrationFiles_Ok_readable dir catalog name :
  loadMigrationFiles dir = Ok catalog -> ~ unreadable_forward dir name.
Proof.
  unfold loadMigrationFiles. destruct (ReadDir dir) as [files|] eqn:Hrd; [|discriminate].
  destruct (load_entries dir files) as [ms|] eqn:Hload; [|discriminate].
  intros _ [Hn Hf].
  assert (Hdir : forall name d, (name, d) ∈ files -> entries dir !! name = Some d).
  { intros n d. apply (ReadDir_elem dir files n d Hrd). }
  rewrite (load_entries_Ok_readable dir files ms Hdir Hload name) in Hf; [discriminate|].
  now apply (ReadDir_elem dir files name UnreadableFile Hrd).
Qed.

(** X4. What [loadMigrationFiles] answers. It returns a catalog only if the
    directory can be listed and every file it wants (a name ending in [.sql]
    without [_down_], not a directory) can be read. Otherwise the error is
    the one of [os.ReadDir], or it names the first file in name order that
    cannot be read; files that are skipped are never opened. *)
Theorem loadMigrationFiles_outcome dir :
  match loadMigrationFiles dir with
  | Ok catalog =>
      listable dir = true /\ forall name, ~ unreadable_forward dir name
  | Err e =>
      (listable dir = false /\ e = ErrReadDir OsReadDirError)
      \/ (listable dir = true
          /\ exists name,
               e = ErrReadMigrationFile name (OsReadFileError name)
               /\ unreadable_forward dir name
               /\ forall other, unreadable_forward dir other ->
                                String.ltb other name = false)
  end.
Proof.
  destruct (loadMigrationFiles dir) as [catalog|e] eqn:Hload.
  - split.
    + unfold loadMigrationFiles, ReadDir in Hload. now destruct (listable dir).
    + intros name. now apply (loadMigrationFiles_Ok_readable dir catalog).
  - now apply loadMigrationFiles_Err.
Qed.

(** X5. The catalog depends on the forward files only. Two directories
    that hold the same entries under the names ending in [.sql] without
    [_down_] give the same answer, catalog or error: down scripts,
    subdirectories and other files, readable or not, change nothing. *)
Theorem loadMigrationFiles_ignores_other_entries dir dir' :
  listable dir = listable dir' ->
  (forall name, forward_name name = true -> entries dir !! name = entries dir' !! name) ->
  loadMigrationFiles dir = loadMigrationFiles dir'
  /\ LoadMigrationFiles dir = LoadMigrationFiles dir'.
Proof.
  intros Hl Hsame. unfold LoadMigrationFiles.
  assert (loadMigrationFiles dir = loadMigrationFiles dir') as ->; [|done].
  assert (Hunr : forall n, unreadable_forward dir n <-> unreadable_forward dir' n).
  { intros n. unfold unreadable_forward. split; intros [H Hf]; (split; [|done]).
    - now rewrite <- Hsame. - now rewrite Hsame. }
  destruct (loadMigrationFiles dir) as [c1|e1] eqn:H1;
    destruct (loadMigrationFiles dir') as [c2|e2] eqn:H2.
  - f_equal. apply (sorted_unique version_less).
    + intros x. apply ltb_irrefl.
    + intros x y z. apply ltb_trans.
    + now apply (loadMigrationFiles_sorted dir).
    + now apply (loadMigrationFiles_sorted dir').
    + apply NoDup_Permutation.
      * eapply NoDup_fmap_1. now apply (loadMigrationFiles_NoDup dir).
      * eapply NoDup_fmap_1. now apply (loadMigrationFiles_NoDup dir').
      * intros m. rewrite (loadMigrationFiles_elem dir c1 H1 m).
        rewrite (loadMigrationFiles_elem dir' c2 H2 m).
        split; intros (n & c & Hn & Hf & ->); exists n, c; (split; [|done]).
        -- now rewrite <- Hsame. -- now rewrite Hsame.
  - exfalso. apply loadMigrationFiles_Err in H2 as [[Hl' _]|(_ & n & _ & Hn & _)].
    + assert (listable dir = true) by (unfold loadMigrationFiles, ReadDir in H1;
                                        now destruct (listable dir)). congruence.
    + apply Hunr in Hn. now apply (loadMigrationFiles_Ok_readable dir c1 n) in Hn.
  - exfalso. apply loadMigrationFiles_Err in H1 as [[Hl' _]|(_ & n & _ & Hn & _)].
    + assert (listable dir' = true) by (unfold loadMigrationFiles, ReadDir in H2;
                                         now destruct (listable dir')). congruence.
    + apply Hunr in Hn. now apply (loadMigrationFiles_Ok_readable dir' c2 n) in Hn.
  - f_equal.
    apply loadMigrationFiles_Err in H1 as [[Hl1 ->]|(Hl1 & n1 & -> & Hn1 & Hmin1)];
      apply loadMigrationFiles_Err in H2 as [[Hl2 ->]|(Hl2 & n2 & -> & Hn2 & Hmin2)];
      try congruence.
    assert (n1 = n2) as ->; [|done].
    apply Hunr in Hn1 as Hn1'. apply Hunr in Hn2 as Hn2'.
    specialize (Hmin1 n2 Hn2'). specialize (Hmin2 n1 Hn1').
    destruct (ltb_trichotomy n1 n2) as [H|[H|H]]; congruence.
Qed.

End CatalogLoading.

(** [dir_abc]: the catalog entry of 002_b.sql. *)
Lemma loadMigrationFiles_from_files_witness :
  entries dir_abc !! "002_b.sql" = Some (RegularFile "CREATE b")
  /\ Version (migration_of "002_b.sql" "CREATE b") = "002_b"
  /\ Checksum (migration_of "002_b.sql" "CREATE b") = calculateChecksum "CREATE b".
Proof.
  destruct (loadMigrationFiles_from_files dir_abc
              [migration_of "001_a.sql" "CREATE a"; migration_of "002_b.sql" "CREATE b";
               migration_of "003_c.sql" "CREATE c"]
              (migration_of "002_b.sql" "CREATE b"))
    as (Hfile & _ & _ & Hv & _ & Hc).
  - vm_compute. reflexivity.
  - apply elem_of_cons. right. apply elem_of_cons. now left.
  - split; [exact Hfile|]. split; [|exact Hc]. rewrite Hv. vm_compute. reflexivity.
Defined.

(** [dir_abc]: 001_a comes before 003_c. *)
Lemma loadMigrationFiles_strictly_ascending_witness :
  String.ltb "001_a" "003_c" = true.
Proof.
  destruct (loadMigrationFiles_strictly_ascending dir_abc
              [migration_of "001_a.sql" "CREATE a"; migration_of "002_b.sql" "CREATE b";
               migration_of "003_c.sql" "CREATE c"]) as [Hlt _].
  - vm_compute. reflexivity.
  - apply (Hlt 0 2 (migration_of "001_a.sql" "CREATE a") (migration_of "003_c.sql" "CREATE c"));
      [reflexivity|reflexivity|lia].
Defined.

(** [dir_abc] and [dir_forward_only] load the same catalog. *)
Lemma loadMigrationFiles_ignores_other_entries_witness :
  loadMigrationFiles dir_abc = loadMigrationFiles dir_forward_only.
Proof.
  apply (loadMigrationFiles_ignores_other_entries dir_abc dir_forward_only); [reflexivity|].
  intros name Hf.
  destruct (decide (name = "002_down_b.sql")) as [->|H1]; [vm_compute in Hf; discriminate|].
  destruct (decide (name = "notes")) as [->|H2]; [vm_compute in Hf; discriminate|].
  destruct (decide (name = "001_a.sql")) as [->|H3]; [vm_compute; reflexivity|].
  destruct (decide (name = "002_b.sql")) as [->|H4]; [vm_compute; reflexivity|].
  destruct (decide (name = "003_c.sql")) as [->|H5]; [vm_compute; reflexivity|].
  unfold dir_abc, dir_forward_only. simpl.
  rewrite !lookup_insert_ne by done. reflexivity.
Defined.

(** [dir_locked]: 002_b.sql is the first file that cannot be read; the
    unreadable 003_c.sql after it is not the one reported. *)
Lemma loadMigrationFiles_outcome_witness :
  loadMigrationFiles dir_locked
  = Err (ErrReadMigrationFile "002_b.sql" (OsReadFileError "002_b.sql"))
  /\ unreadable_forward dir_locked "003_c.sql"
  /\ String.ltb "003_c.sql" "002_b.sql" = false.
Proof.
  pose proof (loadMigrationFiles_outcome dir_locked) as H.
  assert (Hload : loadMigrationFiles dir_locked
                  = Err (ErrReadMigrationFile "002_b.sql" (OsReadFileError "002_b.sql")))
    by (vm_compute; reflexivity).
  assert (Hc : unreadable_forward dir_locked "003_c.sql") by (split; vm_compute; reflexivity).
  rewrite Hload in H. destruct H as [[Hl _]|(_ & name & He & _ & Hmin)].
  - vm_compute in Hl. discriminate Hl.
  - injection He as <-. split; [exact Hload|]. split; [exact Hc|]. exact (Hmin _ Hc).
Defined.

(** ** The ledger table *)

Section LedgerFacts.

Context {E : Engine}.

(** X6. When [createMigrationsTable] returns nil, the ledger holds the same
    versions as before with the same timestamps, and every row has a
    checksum: the one it had, or the legacy sentinel where it had none. The
    rest of the database is untouched, and the four statements went to the
    pool outside any transaction. *)
Theorem createMigrationsTable_backfills (w w' : World) t :
  createMigrationsTable w = (Ok tt, w', t) ->
  contents (db w') = contents (db w)
  /\ dom (ledger (db w')) = dom (ledger (db w))
  /\ (forall v entry, ledger (db w') !! v = Some entry -> checksum entry <> None)
  /\ (forall v entry, ledger (db w) !! v = Some entry ->
        exists entry', ledger (db w') !! v = Some entry'
          /\ executed_at entry' = executed_at entry
          /\ checksum entry' = Some (default legacy_checksum (checksum entry)))
  /\ t = [PoolExec CreateLedgerTable; PoolExec CreateLedgerIndex;
          PoolExec AddChecksumColumn; PoolExec BackfillLegacyChecksum].
Proof.
  rewrite createMigrationsTable_cases.
  destruct (ledger_writable (contents (db w))); [|discriminate].
  intros [= <- <-]. simpl. split; [done|]. split; [apply dom_fmap_L|]. split; [|split; [|done]].
  - intros v entry. rewrite lookup_fmap. destruct (ledger (db w) !! v) as [e|]; [|done].
    intros [= <-]. apply backfill_checksum.
  - intros v entry Hv. exists (backfill entry). rewrite lookup_fmap, Hv. split; [done|].
    unfold backfill. destruct (checksum entry) eqn:Hc; simpl; [|done]. now rewrite Hc.
Qed.

(** X7. [createMigrationsTable] can be repeated: after a call that
    returned nil, a second call returns nil and changes nothing. *)
Theorem createMigrationsTable_idempotent (w w1 : World) t :
  createMigrationsTable w = (Ok tt, w1, t) ->
  createMigrationsTable w1 = (Ok tt, w1, t).
Proof.
  rewrite !createMigrationsTable_cases.
  destruct (ledger_writable (contents (db w))) eqn:Hw; [|discriminate].
  intros [= <- <-]. simpl. rewrite Hw. do 2 f_equal.
  rewrite backfill_idem; [done|].
  intros v entry. rewrite lookup_fmap. destruct (ledger (db w) !! v) as [e|]; [|done].
  intros [= <-]. apply backfill_checksum.
Qed.

(** X8. [executeMigration] is all or nothing. Either it returns nil: the
    version was not in the executed set before and is in it afterwards, the
    script ran, the ledger gained the one row of this version with the
    checksum of the migration, and the transaction was committed. Or it
    returns an error: the committed database is as before and the
    transaction ended with a rollback, never a commit. *)
Theorem executeMigration_all_or_nothing (migration : Migration) (w : World) r w' t :
  executeMigration migration w = (r, w', t) ->
  (r = Ok tt
   /\ isMigrationExecuted (Version migration) (dom (ledger (db w))) = false
   /\ exec_sql (SQLContent migration) (contents (db w)) = Some (contents (db w'))
   /\ ledger (db w')
      = <[Version migration := MkEntry (now w) (Some (Checksum migration))]> (ledger (db w))
   /\ t = apply_calls migration
   /\ (GetExecutedMigrations w').1.1 = Ok (dom (ledger (db w)) ∪ {[Version migration]})
   /\ isMigrationExecuted (Version migration) (dom (ledger (db w'))) = true)
  \/ (exists e, r = Err e /\ db w' = db w /\ (Commit ∉ t) /\ last t = Some Rollback).
Proof.
  rewrite executeMigration_cases.
  destruct (exec_sql (SQLContent migration) (contents (db w))) as [c|] eqn:Hx.
  - destruct (ledger_writable c).
    + destruct (ledger (db w) !! Version migration) as [old|] eqn:Hold.
      * intros [= <- <- <-]. right. eexists. repeat split. set_solver.
      * intros [= <- <- <-]. left. simpl. repeat split.
        -- unfold isMigrationExecuted. apply bool_decide_eq_false.
           now apply not_elem_of_dom.
        -- rewrite dom_insert_L. f_equal. set_solver.
        -- unfold isMigrationExecuted. apply bool_decide_eq_true.
           rewrite dom_insert_L. set_solver.
    + intros [= <- <- <-]. right. eexists. repeat split. set_solver.
  - intros [= <- <- <-]. right. eexists. repeat split. set_solver.
Qed.

Lemma ledger_rows_sorted (d : Database) :
  StronglySorted (fun a b => String.ltb (fst a) (fst b) = true) (ledger_rows d).
Proof.
  unfold ledger_rows.
  apply (sort_Slice_sorted (fun a b : string * option string => String.ltb (fst a) (fst b))).
  - apply (NoDup_fmap_1 fst). rewrite <- list_fmap_compose.
    apply NoDup_fst_map_to_list.
  - split.
    + intros x y z. apply ltb_trans.
    + intros x y Hx Hy Hne.
      destruct (ltb_trichotomy (fst x) (fst y)) as [H|[H|H]]; [now left| |now right].
      exfalso. apply Hne.
      apply list_elem_of_fmap in Hx as ([v1 e1] & -> & Hx).
      apply list_elem_of_fmap in Hy as ([v2 e2] & -> & Hy).
      simpl in H. subst v2. apply elem_of_map_to_list in Hx, Hy. simpl. congruence.
Qed.

Lemma scan_rows_fmap rows ems :
  scan_rows rows = Ok ems ->
  rows = (fun em => (ExVersion em, Some (ExChecksum em))) <$> ems.
Proof.
  revert ems. induction rows as [|[v [c|]] rows IH]; intros ems Hs; simpl in Hs.
  - now injection Hs as <-.
  - destruct (scan_rows rows) as [ems'|]; [|discriminate].
    injection Hs as <-. simpl. f_equal. now apply IH.
  - discriminate.
Qed.

Lemma scan_rows_null rows v :
  (v, None) ∈ rows -> scan_rows rows = Err (ErrScanExecuted PgScanNull).
Proof.
  intros Hv. destruct (scan_rows rows) as [ems|e] eqn:Hs.
  - now apply (scan_rows_Ok_noNULL rows ems Hs v) in Hv.
  - now apply scan_rows_Err in Hs as [-> _].
Qed.

(** The first row that does not verify: the rows before it do. *)
Lemma verify_rows_first catalog rows e :
  verify_rows catalog rows = Err e ->
  exists pre row post,
    rows = pre ++ row :: post
    /\ verify_rows catalog pre = Ok tt
    /\ verify_rows catalog [row] = Err e.
Proof.
  induction rows as [|row rows IH]; intros Hv; [discriminate|].
  destruct (verify_rows catalog [row]) as [[]|e'] eqn:Hrow.
  - assert (Hrest : verify_rows catalog rows = Err e).
    { simpl in Hv, Hrow.
      destruct (find _ catalog) as [m|]; [|discriminate].
      destruct (String.eqb (ExChecksum row) legacy_checksum); [done|].
      destruct (negb _); [discriminate|done]. }
    destruct (IH Hrest) as (pre & r & post & -> & Hpre & Hr).
    exists (row :: pre), r, post. split; [done|]. split; [|done].
    simpl in Hrow |- *.
    destruct (find _ catalog) as [m|]; [|discriminate].
    destruct (String.eqb (ExChecksum row) legacy_checksum); [done|].
    destruct (negb _); [discriminate|done].
  - exists [], row, rows. split; [done|]. split; [done|].
    simpl in Hv, Hrow |- *.
    destruct (find _ catalog) as [m|]; [|congruence].
    destruct (String.eqb (ExChecksum row) legacy_checksum); [discriminate|].
    destruct (negb _); [congruence|discriminate].
Qed.

(** X9. [verifyMigrationIntegrity] reports the first bad row in version
    order. On a ledger without NULL checksums and a catalog without
    repeated versions, an error it returns is the orphaned-entry error or
    the checksum-mismatch error of a row that is orphaned or modified, and
    no row with a smaller version is orphaned or modified. *)
Theorem verifyMigrationIntegrity_reports_first (catalog : list Migration) (w : World) e :
  NoDup (Version <$> catalog) ->
  (forall v entry, ledger (db w) !! v = Some entry -> checksum entry <> None) ->
  (verifyMigrationIntegrity catalog w).1.1 = Err e ->
  exists v,
    ((e = ErrNotInDirectory v /\ orphaned catalog (ledger (db w)) v)
     \/ (e = ErrChecksumMismatch v /\ modified catalog (ledger (db w)) v))
    /\ forall u, String.ltb u v = true ->
         ~ orphaned catalog (ledger (db w)) u /\ ~ modified catalog (ledger (db w)) u.
Proof.
  intros Hnd Hnn. unfold verifyMigrationIntegrity. simpl.
  destruct (scan_rows (ledger_rows (db w))) as [ems|e0] eqn:Hscan.
  2: { exfalso. apply scan_rows_Err in Hscan as (_ & v & Hv).
       apply ledger_rows_elem in Hv as (entry & He & Hc). now apply (Hnn v entry). }
  intros Hver.
  destruct (verify_rows_first catalog ems e Hver) as (pre & row & post & Hsplit & Hpre & Hrow).
  pose proof (ledger_rows_sorted (db w)) as Hsorted.
  rewrite (scan_rows_fmap _ _ Hscan), Hsplit, fmap_app, fmap_cons in Hsorted.
  assert (Hin : forall r, r ∈ ems ->
            exists entry, ledger (db w) !! ExVersion r = Some entry
                          /\ checksum entry = Some (ExChecksum r)).
  { intros [v c] Hr. apply (scan_rows_Ok _ _ Hscan) in Hr. now apply ledger_rows_elem in Hr. }
  exists (ExVersion row). split.
  - destruct (Hin row) as (entry & He & Hc); [rewrite Hsplit; set_solver|].
    apply verify_rows_Err in Hrow as (r & Hr & Hcase).
    apply list_elem_of_singleton in Hr as ->.
    destruct Hcase as [[-> Hno]|(-> & Hleg & m & Hm & Hmv & Hmc)].
    + left. split; [done|]. split; [eauto|done].
    + right. split; [done|]. exists entry, (ExChecksum row), m. done.
  - intros u Hu.
    assert (Hu_pre : forall entry, ledger (db w) !! u = Some entry ->
              exists r, r ∈ pre /\ ExVersion r = u /\ checksum entry = Some (ExChecksum r)).
    { intros entry He. destruct (checksum entry) as [c|] eqn:Hc; [|now apply Hnn in He].
      assert (Hr : MkExecuted u c ∈ ems).
      { apply (scan_rows_Ok _ _ Hscan). apply ledger_rows_elem. eauto. }
      rewrite Hsplit in Hr. apply elem_of_app in Hr as [Hr|Hr]; [now exists (MkExecuted u c)|].
      exfalso. apply elem_of_cons in Hr as [<-|Hr].
      - simpl in Hu. now rewrite ltb_irrefl in Hu.
      - apply StronglySorted_app_1_r in Hsorted. inversion Hsorted as [|? ? _ Hall]; subst.
        rewrite Forall_forall in Hall.
        specialize (Hall (u, Some c)). simpl in Hall.
        assert (Hlt : String.ltb (ExVersion row) u = true).
        { apply Hall. apply list_elem_of_fmap. now exists (MkExecuted u c). }
        pose proof (ltb_trans _ _ _ Hlt Hu) as Hbad. now rewrite ltb_irrefl in Hbad. }
    pose proof (verify_rows_Ok catalog pre Hnd Hpre) as Hok.
    split.
    + intros [[entry He] Hno]. destruct (Hu_pre entry He) as (r & Hr & <- & _).
      destruct (Hok r Hr) as (m & Hm & Hmv & _). apply Hno.
      apply list_elem_of_fmap. now exists m.
    + intros (entry & c & m & He & Hc & Hleg & Hm & Hmv & Hmc).
      destruct (Hu_pre entry He) as (r & Hr & <- & Hc').
      destruct (Hok r Hr) as (m' & Hm' & Hmv' & Hch).
      assert (m' = m) as -> by (apply (NoDup_version_eq catalog); congruence).
      rewrite Hc in Hc'. injection Hc' as ->. destruct Hch; congruence.
Qed.

(** X10. A single ledger row with a NULL checksum makes
    [verifyMigrationIntegrity] fail while scanning, whatever the catalog:
    nothing is verified, and the database is only queried. *)
Theorem verifyMigrationIntegrity_null_checksum (w : World) v entry :
  ledger (db w) !! v = Some entry -> checksum entry = None ->
  forall migrations,
    verifyMigrationIntegrity migrations w
    = (Err (ErrScanExecuted PgScanNull), w, [PoolQuery SelectVersionsChecksums]).
Proof.
  intros He Hc migrations. unfold verifyMigrationIntegrity.
  rewrite (scan_rows_null _ v); [done|]. apply ledger_rows_elem. eauto.
Qed.

End LedgerFacts.

(** ** RunMigrations as a whole *)

Section RunMigrationsFacts.

Context {E : Engine}.

(** What [RunMigrations] answers once its loop is through, and where it
    stands when the loop stops. *)
Lemma RunMigrations_outcome dir (w : World) catalog :
  ledger_writable (contents (db w)) = true ->
  loadMigrationFiles dir = Ok catalog ->
  let l0 := backfill <$> ledger (db w) in
  (exists c,
     let todo := pending (dom (ledger (db w))) catalog in
     let d := MkDatabase c (record_all (now w) todo l0) in
     RunMigrations dir w
     = (integrity_answer catalog d, MkWorld d (now w + length todo),
        prelude_calls ++ concat (apply_calls <$> todo) ++ [PoolQuery SelectVersionsChecksums]))
  \/ (exists finished failed rest c e reached,
        pending (dom (ledger (db w))) catalog = finished ++ failed :: rest
        /\ RunMigrations dir w
           = (Err (ErrExecuteMigration (Version failed) e),
              MkWorld (MkDatabase c (record_all (now w) finished l0))
                      (S (now w + length finished)),
              prelude_calls ++ concat (apply_calls <$> finished)
              ++ failed_apply_calls failed reached)).
Proof.
  intros Hw Hload l0.
  destruct (scripts_pass_cases SQLContent (pending (dom (ledger (db w))) catalog)
                               (contents (db w)))
    as [[c Hpass]|(finished & failed & rest & c & Hsplit & Hpass & Hfail)].
  - left. exists c. now apply RunMigrations_through.
  - right.
    destruct (RunMigrations_stops dir w catalog finished failed rest c Hw Hload Hsplit Hpass Hfail)
      as (e & reached & Hrun).
    exists finished, failed, rest, c, e, reached. done.
Qed.

(** X11. [RunMigrations] never fails scanning a NULL checksum into a Go
    string: the table setup has given every row without a checksum the
    sentinel before verification reads the ledger, and the rows the loop
    adds carry a checksum. *)
Theorem RunMigrations_never_scan_error dir (w : World) cause :
  (RunMigrations dir w).1.1 <> Err (ErrIntegrity (ErrScanExecuted cause)).
Proof.
  destruct (ledger_writable (contents (db w))) eqn:Hw.
  2: { rewrite RunMigrations_cases, Hw. discriminate. }
  destruct (loadMigrationFiles dir) as [catalog|e] eqn:Hload.
  2: { rewrite RunMigrations_cases, Hw, Hload. discriminate. }
  destruct (RunMigrations_outcome dir w catalog Hw Hload)
    as [[c Hrun]|(fin & failed & rest & c & e & reached & _ & Hrun)];
    rewrite Hrun; simpl; [|discriminate].
  unfold integrity_answer.
  destruct (integrity catalog _) as [[]|e] eqn:Hint; [discriminate|].
  intros [= ->]. apply integrity_Err in Hint as [(_ & v & entry & He & Hc)|[(v & Hv & _)|(v & Hv & _)]];
    try discriminate.
  simpl in He. now apply run_ledger_checksum in He.
Qed.

(** X12. [RunMigrations] reads the directory after the table setup. When
    the directory cannot be loaded it returns the load error, but the four
    setup statements have run: rows without a checksum now carry the
    sentinel. Nothing else was sent: no query, no transaction. *)
Theorem RunMigrations_unreadable_directory dir (w : World) e :
  ledger_writable (contents (db w)) = true ->
  loadMigrationFiles dir = Err e ->
  exists w' t,
    RunMigrations dir w = (Err (ErrLoadFiles e), w', t)
    /\ contents (db w') = contents (db w)
    /\ ledger (db w') = backfill <$> ledger (db w)
    /\ t = [PoolExec CreateLedgerTable; PoolExec CreateLedgerIndex;
            PoolExec AddChecksumColumn; PoolExec BackfillLegacyChecksum].
Proof.
  intros Hw Hload. rewrite RunMigrations_cases, Hw, Hload. simpl.
  eexists _, _. repeat split.
Qed.

Lemma record_all_keeps t ms (l : gmap string LedgerEntry) v entry :
  (forall m, m ∈ ms -> Version m ∉ dom l) ->
  l !! v = Some entry -> record_all t ms l !! v = Some entry.
Proof.
  intros Hfresh Hv. rewrite record_all_lookup_notin; [done|].
  intros Hin. apply list_elem_of_fmap in Hin as (m & -> & Hm).
  apply (Hfresh m Hm). apply elem_of_dom. eauto.
Qed.

(** X13. [RunMigrations] never removes or rewrites a ledger row, however it
    ends: a row that was there is still there with its timestamp and its
    checksum, except that a NULL checksum has become the sentinel; and no
    DELETE on the ledger is ever sent. *)
Theorem RunMigrations_keeps_rows dir (w : World) r w' t v entry :
  RunMigrations dir w = (r, w', t) ->
  ledger (db w) !! v = Some entry ->
  (ledger (db w') !! v = Some entry
   \/ (checksum entry = None
       /\ ledger (db w') !! v = Some (MkEntry (executed_at entry) (Some legacy_checksum))))
  /\ forall u, TxExec (DeleteLedger u) ∉ t.
Proof.
  intros Hrun Hv.
  assert (Hbf : (backfill <$> ledger (db w)) !! v = Some (backfill entry))
    by now rewrite lookup_fmap, Hv.
  assert (Hcase : forall l : gmap string LedgerEntry,
            l !! v = Some (backfill entry) ->
            l !! v = Some entry
            \/ (checksum entry = None
                /\ l !! v = Some (MkEntry (executed_at entry) (Some legacy_checksum)))).
  { intros l Hl. unfold backfill in Hl. destruct (checksum entry) eqn:Hc; [now left|].
    right. done. }
  assert (Hfresh : forall catalog (ms : list Migration),
            (forall m, m ∈ ms -> m ∈ pending (dom (ledger (db w))) catalog) ->
            forall m, m ∈ ms -> Version m ∉ dom (backfill <$> ledger (db w))).
  { intros catalog ms Hsub m Hm. rewrite dom_fmap_L.
    apply Hsub in Hm. now apply pending_elem in Hm as [_ Hm]. }
  assert (Hnodel : forall ms u, TxExec (DeleteLedger u) ∉ concat (apply_calls <$> ms)).
  { intros ms u Hin. apply list_elem_of_In, in_concat in Hin as (calls & Hcalls & Hin).
    apply list_elem_of_In, list_elem_of_fmap in Hcalls as (m & -> & _).
    apply list_elem_of_In in Hin. unfold apply_calls in Hin. set_solver. }
  destruct (ledger_writable (contents (db w))) eqn:Hw.
  2: { rewrite RunMigrations_cases, Hw in Hrun. injection Hrun as <- <- <-.
       split; [now left|]. intros u. set_solver. }
  destruct (loadMigrationFiles dir) as [catalog|e] eqn:Hload.
  2: { rewrite RunMigrations_cases, Hw, Hload in Hrun. injection Hrun as <- <- <-.
       split; [now apply Hcase|]. intros u. set_solver. }
  destruct (RunMigrations_outcome dir w catalog Hw Hload)
    as [[c Hrun']|(fin & failed & rest & c & e & reached & Hsplit & Hrun')];
    rewrite Hrun' in Hrun; injection Hrun as <- <- <-; simpl.
  - split.
    + apply Hcase. apply record_all_keeps; [|done]. now apply (Hfresh catalog).
    + intros u Hin. pose proof (Hnodel (pending (dom (ledger (db w))) catalog) u) as Hn.
      unfold prelude_calls in Hin. set_solver.
  - split.
    + apply Hcase. apply record_all_keeps; [|done]. apply (Hfresh catalog).
      intros m Hm. rewrite Hsplit. apply elem_of_app. now left.
    + intros u Hin. pose proof (Hnodel fin u) as Hn.
      unfold prelude_calls, failed_apply_calls in Hin. destruct reached; set_solver.
Qed.

(** The ledger a successful run leaves: verified against the catalog, with
    a row for every script. *)
Lemma RunMigrations_Ok_ledger dir (w : World) catalog w' t :
  loadMigrationFiles dir = Ok catalog ->
  RunMigrations dir w = (Ok tt, w', t) ->
  integrity catalog (db w') = Ok tt
  /\ (forall v entry, ledger (db w') !! v = Some entry -> checksum entry <> None)
  /\ dom (ledger (db w')) = list_to_set (Version <$> catalog).
Proof.
  intros Hload Hrun.
  pose proof (loadMigrationFiles_NoDup dir catalog Hload) as Hnd.
  destruct (ledger_writable (contents (db w))) eqn:Hw.
  2: { rewrite RunMigrations_cases, Hw in Hrun. discriminate. }
  destruct (RunMigrations_outcome dir w catalog Hw Hload)
    as [[c Hrun']|(fin & failed & rest & c & e & reached & _ & Hrun')];
    rewrite Hrun' in Hrun; [|discriminate].
  injection Hrun as Hint <- _. simpl.
  set (todo := pending (dom (ledger (db w))) catalog) in *.
  set (l' := record_all (now w) todo (backfill <$> ledger (db w))) in *.
  unfold integrity_answer in Hint.
  destruct (integrity catalog (MkDatabase c l')) as [[]|] eqn:Hok; [|discriminate].
  split; [done|]. split.
  { intros v entry He. now apply (run_ledger_checksum _ _ _ _ _ He). }
  pose proof (integrity_Ok catalog _ Hnd Hok) as Hfine. simpl in Hfine.
  apply set_eq. intros v. rewrite elem_of_list_to_set. split.
  - intros Hv. destruct (decide (v ∈ Version <$> catalog)) as [|Hno]; [done|].
    exfalso. apply (proj1 (Hfine v)). split; [now apply elem_of_dom|done].
  - intros Hv. subst l'. rewrite record_all_dom, dom_fmap_L.
    destruct (decide (v ∈ dom (ledger (db w)))) as [|Hout]; [set_solver|].
    apply elem_of_union. right. apply elem_of_list_to_set.
    apply list_elem_of_fmap in Hv as (m & -> & Hm).
    apply list_elem_of_fmap. exists m. split; [done|]. now apply pending_elem.
Qed.

(** X14. After [RunMigrations] returned nil the applied versions are
    exactly the versions of the catalog, and the row of every catalog
    script holds the SHA-256 of the file as it is on disk, or the legacy
    sentinel. *)
Theorem RunMigrations_success_state dir (w : World) catalog w' t :
  loadMigrationFiles dir = Ok catalog ->
  RunMigrations dir w = (Ok tt, w', t) ->
  dom (ledger (db w')) = list_to_set (Version <$> catalog)
  /\ forall m, m ∈ catalog ->
       exists entry,
         ledger (db w') !! Version m = Some entry
         /\ (checksum entry = Some (calculateChecksum (SQLContent m))
             \/ checksum entry = Some legacy_checksum).
Proof.
  intros Hload Hrun.
  pose proof (loadMigrationFiles_NoDup dir catalog Hload) as Hnd.
  destruct (RunMigrations_Ok_ledger dir w catalog w' t Hload Hrun) as (Hok & Hnn & Hdom).
  pose proof (integrity_Ok catalog _ Hnd Hok) as Hfine.
  split; [exact Hdom|].
  intros m Hm.
  assert (Hin : Version m ∈ dom (ledger (db w'))).
  { rewrite Hdom. apply elem_of_list_to_set, list_elem_of_fmap. eauto. }
  apply elem_of_dom in Hin as [entry He]. exists entry. split; [done|].
  destruct (checksum entry) as [ck|] eqn:Hck; [|now apply Hnn in He].
  destruct (decide (ck = legacy_checksum)) as [->|Hleg]; [now right|]. left.
  destruct (decide (Checksum m = ck)) as [<-|Hne].
  - f_equal.
    now apply (loadMigrationFiles_elem dir catalog Hload) in Hm as (n & ct & _ & _ & ->).
  - exfalso. apply (proj2 (Hfine (Version m))). exists entry, ck, m. done.
Qed.

(** X15. Only new scripts run. After a successful [RunMigrations] on one
    directory, a run on another directory that gets through its loop
    executes exactly the scripts whose version the first catalog did not
    have, in catalog order, also those that sort before versions already
    applied; the rows of the first run are kept as they are. *)
Theorem RunMigrations_incremental dir dir' (w w1 w2 : World) catalog catalog' t1 r t2 :
  loadMigrationFiles dir = Ok catalog ->
  loadMigrationFiles dir' = Ok catalog' ->
  RunMigrations dir w = (Ok tt, w1, t1) ->
  RunMigrations dir' w1 = (r, w2, t2) ->
  (r = Ok tt \/ exists e, r = Err (ErrIntegrity e)) ->
  let added := filter (fun m => Version m ∉ Version <$> catalog) catalog' in
  t2 = prelude_calls ++ concat (apply_calls <$> added) ++ [PoolQuery SelectVersionsChecksums]
  /\ dom (ledger (db w2)) = dom (ledger (db w1)) ∪ list_to_set (Version <$> added)
  /\ forall v entry, ledger (db w1) !! v = Some entry -> ledger (db w2) !! v = Some entry.
Proof.
  intros Hload Hload' Hfirst Hsecond Hr added.
  destruct (RunMigrations_Ok_ledger dir w catalog w1 t1 Hload Hfirst) as (_ & Hnn & Hdom).
  destruct (RunMigrations_completed dir' w1 catalog' r w2 t2 Hload' Hsecond Hr) as [Ht Hl].
  assert (Hadded : pending (dom (ledger (db w1))) catalog' = added).
  { unfold pending, added. rewrite Hdom. apply list_filter_iff. intros m.
    now rewrite elem_of_list_to_set. }
  rewrite Hadded in Ht, Hl. rewrite (backfill_idem _ Hnn) in Hl.
  split; [exact Ht|]. split.
  - now rewrite Hl, record_all_dom.
  - intros v entry Hv. rewrite Hl. apply record_all_keeps; [|done].
    intros m Hm. rewrite <- Hadded in Hm. now apply pending_elem in Hm as [_ Hm].
Qed.

End RunMigrationsFacts.

(** ** Rolling back *)

Section RollbackFacts.

Context {E : Engine}.

(** What [RunDownMigrations] answers on a directory it can load. *)
Lemma RunDownMigrations_outcome dir target (w : World) catalog :
  loadMigrationFiles dir = Ok catalog ->
  let todo := candidates (dom (ledger (db w))) target catalog in
  (exists c,
     rollbacks_pass dir todo (contents (db w)) = Some c
     /\ RunDownMigrations dir target w
        = (Ok tt,
           MkWorld (MkDatabase c (remove_all todo (ledger (db w)))) (now w + length todo),
           PoolQuery SelectVersions :: rollbacks_calls dir todo))
  \/ (exists finished failed rest c e w' tail,
        todo = finished ++ failed :: rest
        /\ RunDownMigrations dir target w
           = (Err e, w', PoolQuery SelectVersions :: rollbacks_calls dir finished ++ tail)
        /\ db w' = MkDatabase c (remove_all finished (ledger (db w)))).
Proof.
  intros Hload todo. rewrite RunDownMigrations_cases, Hload.
  assert (Hdown : forall m, m ∈ sort_Slice version_greater catalog ->
            strings.Contains (Version m) "_down_" = false).
  { intros m Hm. apply sort_Slice_elem in Hm. now apply (catalog_no_down_marker dir catalog). }
  destruct (rollbacks_pass_cases dir todo (contents (db w)))
    as [[c Hpass]|(fin & failed & rest & c & Hsplit & Hpass & Hfail)].
  - left. exists c. split; [done|].
    now rewrite (rollback_each_ok dir _ target _ w c Hdown Hpass).
  - right.
    destruct (rollback_each_fail dir (dom (ledger (db w))) target _ w fin failed rest c
                Hdown Hsplit Hpass Hfail) as (e & w1 & tail & Hrb & Hdb & _).
    exists fin, failed, rest, c, e, w1, tail. now rewrite Hrb.
Qed.

(** The ledger after a rollback that went through, when every applied
    version above the target has its script in the catalog. *)
Lemma RunDownMigrations_Ok_lookup dir target (w : World) catalog w' t :
  loadMigrationFiles dir = Ok catalog ->
  (forall v, v ∈ dom (ledger (db w)) -> String.ltb target v = true ->
             v ∈ Version <$> catalog) ->
  RunDownMigrations dir target w = (Ok tt, w', t) ->
  forall v, ledger (db w') !! v
            = if String.ltb target v then None else ledger (db w) !! v.
Proof.
  intros Hload Hcat Hrun v.
  destruct (RunDownMigrations_outcome dir target w catalog Hload)
    as [(c & _ & Hrun')|(fin & failed & rest & c & e & w1 & tail & _ & Hrun' & _)];
    rewrite Hrun' in Hrun; [|discriminate].
  injection Hrun as <- _. simpl. rewrite remove_all_lookup.
  destruct (decide (v ∈ candidates (dom (ledger (db w))) target catalog)) as [Hin|Hout].
  - apply candidates_elem in Hin as (_ & _ & ->). done.
  - destruct (String.ltb target v) eqn:Hlt; [|done].
    destruct (ledger (db w) !! v) as [entry|] eqn:Hv; [|done].
    exfalso. apply Hout. apply candidates_elem.
    assert (v ∈ dom (ledger (db w))) by (apply elem_of_dom; eauto).
    split; [now apply Hcat|done].
Qed.

(** X16. When every applied version above the target has its script in the
    catalog, a [RunDownMigrations] that returns nil has removed exactly the
    rows above the target: the ledger is the old one cut at the target, the
    versions rolled back are the applied versions above it, and the
    database went through their down scripts in that order. *)
Theorem RunDownMigrations_reaches_target dir target (w : World) catalog w' t :
  loadMigrationFiles dir = Ok catalog ->
  (forall v, v ∈ dom (ledger (db w)) -> String.ltb target v = true ->
             v ∈ Version <$> catalog) ->
  RunDownMigrations dir target w = (Ok tt, w', t) ->
  (forall v, ledger (db w') !! v
             = if String.ltb target v then None else ledger (db w) !! v)
  /\ (forall v, v ∈ dom (ledger (db w')) -> String.ltb target v = false)
  /\ rollbacks_pass dir (candidates (dom (ledger (db w))) target catalog) (contents (db w))
     = Some (contents (db w'))
  /\ forall v, v ∈ candidates (dom (ledger (db w))) target catalog
               <-> v ∈ dom (ledger (db w)) /\ String.ltb target v = true.
Proof.
  intros Hload Hcat Hrun.
  pose proof (RunDownMigrations_Ok_lookup dir target w catalog w' t Hload Hcat Hrun) as Hlk.
  split; [exact Hlk|]. split; [|split].
  - intros v Hv. apply elem_of_dom in Hv as [entry Hv]. rewrite Hlk in Hv.
    now destruct (String.ltb target v).
  - destruct (RunDownMigrations_outcome dir target w catalog Hload)
      as [(c & Hpass & Hrun')|(fin & failed & rest & c & e & w1 & tail & _ & Hrun' & _)];
      rewrite Hrun' in Hrun; [|discriminate].
    now injection Hrun as <- _.
  - intros v. rewrite candidates_elem. split; [tauto|].
    intros [Hin Hlt]. split; [now apply Hcat|done].
Qed.

(** X18. However [RunDownMigrations] ends, it leaves alone every row at or
    below the target and every row whose version is not in the catalog,
    and a row found afterwards was there before, unchanged. *)
Theorem RunDownMigrations_frame dir target (w : World) r w' t :
  RunDownMigrations dir target w = (r, w', t) ->
  (forall v, String.ltb target v = false -> ledger (db w') !! v = ledger (db w) !! v)
  /\ (forall catalog v, loadMigrationFiles dir = Ok catalog -> v ∉ Version <$> catalog ->
                        ledger (db w') !! v = ledger (db w) !! v)
  /\ (forall v entry, ledger (db w') !! v = Some entry -> ledger (db w) !! v = Some entry).
Proof.
  intros Hrun.
  destruct (loadMigrationFiles dir) as [catalog|e] eqn:Hload.
  2: { rewrite RunDownMigrations_cases, Hload in Hrun. injection Hrun as <- <- <-. done. }
  assert (Hrem : forall vs v,
            (forall u, u ∈ vs -> u ∈ candidates (dom (ledger (db w))) target catalog) ->
            (String.ltb target v = false ->
             remove_all vs (ledger (db w)) !! v = ledger (db w) !! v)
            /\ (v ∉ Version <$> catalog ->
                remove_all vs (ledger (db w)) !! v = ledger (db w) !! v)
            /\ (forall entry, remove_all vs (ledger (db w)) !! v = Some entry ->
                              ledger (db w) !! v = Some entry)).
  { intros vs v Hsub. rewrite remove_all_lookup. split; [|split].
    - intros Hle. destruct (decide (v ∈ vs)) as [Hin|]; [|done].
      apply Hsub, candidates_elem in Hin as (_ & _ & Hlt). congruence.
    - intros Hno. destruct (decide (v ∈ vs)) as [Hin|]; [|done].
      now apply Hsub, candidates_elem in Hin as (Hin & _).
    - intros entry. now destruct (decide (v ∈ vs)). }
  destruct (RunDownMigrations_outcome dir target w catalog Hload)
    as [(c & _ & Hrun')|(fin & failed & rest & c & e & w1 & tail & Hsplit & Hrun' & Hdb)];
    rewrite Hrun' in Hrun; injection Hrun as <- <- <-.
  - simpl. split; [intros v; now apply Hrem|]. split; [|intros v; now apply Hrem].
    intros catalog' v [= <-]. now apply Hrem.
  - rewrite Hdb. simpl.
    assert (Hsub : forall u, u ∈ fin -> u ∈ candidates (dom (ledger (db w))) target catalog).
    { intros u Hu. rewrite Hsplit. apply elem_of_app. now left. }
    split; [intros v; now apply Hrem|]. split; [|intros v; now apply Hrem].
    intros catalog' v [= <-]. now apply Hrem.
Qed.

(** X19. With no applied catalog script above the target,
    [RunDownMigrations] returns nil after its one query: no transaction is
    opened and nothing changes. *)
Theorem RunDownMigrations_nothing_above_target dir target (w : World) catalog :
  loadMigrationFiles dir = Ok catalog ->
  (forall m, m ∈ catalog -> Version m ∈ dom (ledger (db w)) ->
             String.ltb target (Version m) = false) ->
  RunDownMigrations dir target w = (Ok tt, w, [PoolQuery SelectVersions]).
Proof.
  intros Hload Hnone.
  assert (Hnil : candidates (dom (ledger (db w))) target catalog = []).
  { destruct (candidates _ _ _) as [|v vs] eqn:Hc; [done|]. exfalso.
    assert (Hv : v ∈ candidates (dom (ledger (db w))) target catalog)
      by (rewrite Hc; now left).
    apply candidates_elem in Hv as (Hcat & Hin & Hlt).
    apply list_elem_of_fmap in Hcat as (m & -> & Hm).
    rewrite (Hnone m Hm Hin) in Hlt. discriminate. }
  destruct (RunDownMigrations_outcome dir target w catalog Hload)
    as [(c & Hpass & Hrun)|(fin & failed & rest & c & e & w1 & tail & Hsplit & _)].
  - rewrite Hrun, Hnil. rewrite Hnil in Hpass. simpl in Hpass. injection Hpass as <-.
    simpl. rewrite Nat.add_0_r. destruct w as [[c l] n]. done.
  - rewrite Hnil in Hsplit. now destruct fin.
Qed.

End RollbackFacts.

(** ** Migrating and rolling back together *)

Section UpAndDown.

Context {E : Engine}.

Lemma filter_ext_elem {A} (P Q : A -> Prop) `{!forall x, Decision (P x)}
      `{!forall x, Decision (Q x)} (l : list A) :
  (forall x, x ∈ l -> P x <-> Q x) -> filter P l = filter Q l.
Proof.
  induction l as [|x l IH]; intros Hext; [done|].
  rewrite !filter_cons.
  destruct (decide (P x)) as [HP|HP]; destruct (decide (Q x)) as [HQ|HQ].
  - f_equal. apply IH. intros y Hy. apply Hext. now right.
  - exfalso. apply HQ. apply Hext; [now left|done].
  - exfalso. apply HP. apply Hext; [now left|done].
  - apply IH. intros y Hy. apply Hext. now right.
Qed.

(** X17. Migrating and rolling back compose. After a successful
    [RunMigrations], a [RunDownMigrations] on the same directory that
    returns nil leaves exactly the rows at or below the target, and the
    scripts pending for the next [RunMigrations] are exactly the catalog
    scripts above the target. *)
Theorem RunDownMigrations_after_RunMigrations dir target (w w1 w2 : World) catalog t1 t2 :
  loadMigrationFiles dir = Ok catalog ->
  RunMigrations dir w = (Ok tt, w1, t1) ->
  RunDownMigrations dir target w1 = (Ok tt, w2, t2) ->
  (forall v, ledger (db w2) !! v
             = if String.ltb target v then None else ledger (db w1) !! v)
  /\ (forall m, m ∈ catalog ->
        Version m ∈ dom (ledger (db w2)) <-> String.ltb target (Version m) = false)
  /\ pending (dom (ledger (db w2))) catalog
     = filter (fun m => String.ltb target (Version m) = true) catalog.
Proof.
  intros Hload Hup Hdown.
  destruct (RunMigrations_Ok_ledger dir w catalog w1 t1 Hload Hup) as (_ & _ & Hdom).
  assert (Hcat : forall v, v ∈ dom (ledger (db w1)) -> String.ltb target v = true ->
                           v ∈ Version <$> catalog).
  { intros v Hv _. rewrite Hdom in Hv. now apply elem_of_list_to_set in Hv. }
  pose proof (RunDownMigrations_Ok_lookup dir target w1 catalog w2 t2 Hload Hcat Hdown) as Hlk.
  assert (Hin : forall m, m ∈ catalog ->
            Version m ∈ dom (ledger (db w2)) <-> String.ltb target (Version m) = false).
  { intros m Hm. rewrite elem_of_dom, Hlk.
    assert (Hm1 : is_Some (ledger (db w1) !! Version m)).
    { apply elem_of_dom. rewrite Hdom. apply elem_of_list_to_set, list_elem_of_fmap. eauto. }
    destruct (String.ltb target (Version m)); split; try done.
    all: try (intros [x Hx]; discriminate). }
  split; [exact Hlk|]. split; [exact Hin|].
  unfold pending. apply filter_ext_elem. intros m Hm. rewrite (Hin m Hm).
  now destruct (String.ltb target (Version m)).
Qed.

Lemma RollbackLastMigration_cases dir (w : World) :
  RollbackLastMigration dir w =
  if (size (dom (ledger (db w))) =? 0)%nat
  then (Ok tt, w, [PoolQuery SelectVersions])
  else match rollback_version dir (last_version (elements (dom (ledger (db w))))) w with
       | (r, w', t) => (r, w', PoolQuery SelectVersions :: t)
       end.
Proof.
  unfold RollbackLastMigration, bind, wrap, getExecutedMigrations.
  destruct (size (dom (ledger (db w))) =? 0)%nat; [done|].
  destruct (rollback_version _ _ w) as [[r w'] t]. done.
Qed.

Lemma rollback_each_none dir applied target ms (w : World) :
  (forall m, m ∈ ms -> ~ (Version m ∈ applied /\ String.ltb target (Version m) = true)) ->
  rollback_each dir applied target ms w = (Ok tt, w, []).
Proof.
  induction ms as [|m ms IH]; intros Hnone; [done|].
  rewrite rollback_each_skip by (apply Hnone; now left).
  apply IH. intros m' Hm'. apply Hnone. now right.
Qed.

Lemma rollback_each_only dir applied target ms (w : World) v :
  NoDup (Version <$> ms) ->
  (forall m, m ∈ ms -> strings.Contains (Version m) "_down_" = false) ->
  v ∈ Version <$> ms ->
  (forall m, m ∈ ms ->
     (Version m ∈ applied /\ String.ltb target (Version m) = true) <-> Version m = v) ->
  rollback_each dir applied target ms w = rollback_version dir v w.
Proof.
  induction ms as [|m ms IH]; intros Hnd Hdown Hv Hsel; [inversion Hv|].
  rewrite fmap_cons in Hnd. apply NoDup_cons in Hnd as [Hm Hnd].
  destruct (decide (Version m = v)) as [<-|Hne].
  - rewrite rollback_each_take; [|apply Hdown; now left|apply Hsel; [now left|done]].
    destruct (rollback_version dir (Version m) w) as [[[[]|e] w1] t1]; [|done].
    rewrite rollback_each_none; [now rewrite app_nil_r|].
    intros m' Hm' Hyes. apply Hsel in Hyes; [|now right].
    apply Hm. rewrite <- Hyes. apply list_elem_of_fmap. eauto.
  - rewrite rollback_each_skip.
    + apply IH; [done| | |].
      * intros m' Hm'. apply Hdown. now right.
      * apply elem_of_cons in Hv as [Hv|Hv]; [congruence|done].
      * intros m' Hm'. apply Hsel. now right.
    + intros Hyes. apply Hne. apply Hsel; [now left|done].
Qed.

Lemma ltb_le_lt (a b c : string) :
  String.ltb b a = false -> String.ltb b c = true -> String.ltb a c = true.
Proof.
  intros Hab Hbc. destruct (ltb_trichotomy a b) as [H|[->|H]]; [|done|congruence].
  now apply (ltb_trans a b c).
Qed.

(** The applied version that [RollbackLastMigration] picks. *)
Lemma last_version_is (versions : gset string) (v : string) :
  v ∈ versions -> (forall u, u ∈ versions -> u <> v -> String.ltb u v = true) ->
  last_version (elements versions) = v.
Proof.
  intros Hv Hmax.
  assert (Hne : elements versions <> []).
  { intros H. apply elem_of_elements in Hv. rewrite H in Hv. inversion Hv. }
  destruct (last_version_greatest _ Hne) as [Hin Hgt].
  destruct (decide (last_version (elements versions) = v)) as [|Hdiff]; [done|].
  exfalso. apply elem_of_elements in Hin.
  pose proof (Hmax _ Hin Hdiff) as Hlt.
  rewrite (Hgt v) in Hlt; [discriminate|]. now apply elem_of_elements.
Qed.

(** X20. When one applied version is above the target and it has a script
    in the catalog, [RunDownMigrations] does what [RollbackLastMigration]
    does: same answer, same database, same calls. *)
Theorem RunDownMigrations_one_step dir target (w : World) catalog v :
  loadMigrationFiles dir = Ok catalog ->
  v ∈ Version <$> catalog ->
  v ∈ dom (ledger (db w)) ->
  String.ltb target v = true ->
  (forall u, u ∈ dom (ledger (db w)) -> u <> v -> String.ltb target u = false) ->
  RunDownMigrations dir target w = RollbackLastMigration dir w.
Proof.
  intros Hload Hcat Hin Hlt Hrest.
  rewrite RunDownMigrations_cases, Hload, RollbackLastMigration_cases.
  assert (Hsize : (size (dom (ledger (db w))) =? 0)%nat = false).
  { apply Nat.eqb_neq. intros H. apply size_empty_inv in H. set_solver. }
  rewrite Hsize.
  rewrite (last_version_is _ v Hin).
  2: { intros u Hu Hne. apply (ltb_le_lt u target v); [now apply Hrest|done]. }
  rewrite (rollback_each_only dir _ target _ w v); [done| | | |].
  - rewrite sort_Slice_perm. now apply (loadMigrationFiles_NoDup dir).
  - intros m Hm. apply sort_Slice_elem in Hm. now apply (catalog_no_down_marker dir catalog).
  - rewrite sort_Slice_perm. exact Hcat.
  - intros m Hm. split.
    + intros [Ha Hb]. destruct (decide (Version m = v)) as [|Hne]; [done|].
      rewrite (Hrest _ Ha Hne) in Hb. discriminate.
    + intros ->. done.
Qed.

(** X21. After a successful [RunMigrations], a [RollbackLastMigration] that
    returns nil has rolled back the last script of the catalog: its row is
    gone, the other rows are kept, and that script alone is pending for
    the next [RunMigrations]. *)
Theorem RollbackLastMigration_after_RunMigrations dir (w w1 w2 : World) catalog m t1 t2 :
  loadMigrationFiles dir = Ok catalog ->
  last catalog = Some m ->
  RunMigrations dir w = (Ok tt, w1, t1) ->
  RollbackLastMigration dir w1 = (Ok tt, w2, t2) ->
  ledger (db w2) = delete (Version m) (ledger (db w1))
  /\ pending (dom (ledger (db w2))) catalog = [m]
  /\ exists content,
       ReadFile dir (downFilename dir (Version m)) = Ok content
       /\ t2 = PoolQuery SelectVersions :: rollback_calls content (Version m).
Proof.
  intros Hload Hlast Hup Hback.
  destruct (RunMigrations_Ok_ledger dir w catalog w1 t1 Hload Hup) as (_ & _ & Hdom).
  pose proof (loadMigrationFiles_sorted dir catalog Hload) as Hsorted.
  pose proof (loadMigrationFiles_NoDup dir catalog Hload) as Hnd.
  apply last_Some in Hlast as [init ->].
  apply StronglySorted_app in Hsorted as (Hlt & _ & _).
  assert (Hv : Version m ∈ dom (ledger (db w1))).
  { rewrite Hdom. apply elem_of_list_to_set, list_elem_of_fmap. exists m. set_solver. }
  rewrite RollbackLastMigration_cases in Hback.
  assert (Hsize : (size (dom (ledger (db w1))) =? 0)%nat = false).
  { apply Nat.eqb_neq. intros H. apply size_empty_inv in H. set_solver. }
  rewrite Hsize in Hback.
  rewrite (last_version_is _ (Version m) Hv) in Hback.
  2: { intros u Hu Hne. rewrite Hdom in Hu.
       apply elem_of_list_to_set, list_elem_of_fmap in Hu as (x & -> & Hx).
       apply elem_of_app in Hx as [Hx|Hx]; [|set_solver].
       apply (Hlt x m Hx). now left. }
  rewrite rollback_version_cases in Hback.
  destruct (ReadFile dir (downFilename dir (Version m))) as [content|] eqn:Hread; [|discriminate].
  destruct (exec_sql content (contents (db w1))) as [c|]; [|discriminate].
  destruct (ledger_writable c); [|discriminate].
  injection Hback as <- <-. simpl. split; [done|]. split; [|eauto].
  unfold pending. rewrite filter_app, dom_delete_L.
  rewrite fmap_app in Hnd. apply NoDup_app in Hnd as (_ & Hdisj & _).
  assert (Hinit : filter (fun x => Version x ∉ dom (ledger (db w1)) ∖ {[Version m]}) init = []).
  { destruct (filter _ init) as [|x xs] eqn:Hf; [done|]. exfalso.
    assert (Hx : x ∈ filter (fun x => Version x ∉ dom (ledger (db w1)) ∖ {[Version m]}) init)
      by (rewrite Hf; now left).
    apply list_elem_of_filter in Hx as [Hout Hx]. apply Hout.
    apply elem_of_difference. split.
    - rewrite Hdom. apply elem_of_list_to_set, list_elem_of_fmap. exists x. set_solver.
    - intros Heq. apply elem_of_singleton in Heq.
      apply (Hdisj (Version x)); [apply list_elem_of_fmap; eauto|].
      rewrite Heq. now left. }
  rewrite Hinit. simpl. rewrite filter_cons.
  destruct (decide (Version m ∉ dom (ledger (db w1)) ∖ {[Version m]})) as [|Hno]; [done|].
  exfalso. apply Hno. set_solver.
Qed.

End UpAndDown.

(** ** The down script of a version *)

Section DownScript.

Lemma find_first {A} (P : A -> bool) (l : list A) (x : A) :
  find P l = Some x ->
  exists pre post, l = pre ++ x :: post /\ P x = true /\ forall y, y ∈ pre -> P y = false.
Proof.
  induction l as [|a l IH]; intros Hf; [discriminate|]. simpl in Hf.
  destruct (P a) eqn:Ha.
  - injection Hf as <-. exists [], l. repeat split; [done|]. intros y Hy. inversion Hy.
  - destruct (IH Hf) as (pre & post & -> & Hx & Hpre).
    exists (a :: pre), post. repeat split; [done|].
    intros y Hy. apply elem_of_cons in Hy as [->|Hy]; [done|now apply Hpre].
Qed.

Lemma find_none_elem {A} (P : A -> bool) (l : list A) :
  find P l = None -> forall y, y ∈ l -> P y = false.
Proof.
  intros Hf y Hy. apply list_elem_of_In in Hy. exact (find_none P l Hf y Hy).
Qed.

(** X22. How the down script of a version other than the three built-in
    ones is resolved. Either the directory can be listed and the name is
    the first entry in name order that contains both [_down_] and the
    version: such a name is never a forward script, and the entry need not
    be a regular file. Or no entry matches, or the directory cannot be
    listed, and the name is [<version>_down.sql]. *)
Theorem downFilename_resolution dir version :
  version <> "001_create_schema_migrations_table" ->
  version <> "002_create_users_table" ->
  version <> "003_create_indexes" ->
  (listable dir = true
   /\ is_Some (entries dir !! downFilename dir version)
   /\ down_match version (downFilename dir version) = true
   /\ forward_name (downFilename dir version) = false
   /\ forall other, is_Some (entries dir !! other) -> down_match version other = true ->
                    String.ltb other (downFilename dir version) = false)
  \/ (downFilename dir version = version +:+ "_down.sql"
      /\ (listable dir = false
          \/ forall other, is_Some (entries dir !! other) -> down_match version other = false)).
Proof.
  intros H1 H2 H3. unfold downFilename.
  apply String.eqb_neq in H1, H2, H3. rewrite H1, H2, H3.
  destruct (ReadDir dir) as [files|e] eqn:Hrd.
  2: { right. split; [done|]. left. unfold ReadDir in Hrd. now destruct (listable dir). }
  assert (Hl : listable dir = true) by (unfold ReadDir in Hrd; now destruct (listable dir)).
  fold (down_match version).
  change (fun file : string * DirEntry =>
            strings.Contains (Name file) "_down_" && strings.Contains (Name file) version)
    with (fun file : string * DirEntry => down_match version (Name file)).
  destruct (find _ files) as [[n d]|] eqn:Hfind.
  - left. apply find_first in Hfind as (pre & post & Hsplit & Hn & Hpre).
    unfold Name in *. simpl in *.
    split; [done|]. split; [|split; [done|split]].
    + exists d. apply (ReadDir_elem dir files n d Hrd). rewrite Hsplit. set_solver.
    + unfold forward_name. unfold down_match in Hn. apply andb_prop in Hn as [-> _].
      apply andb_false_r.
    + intros other [d' Ho] Hmatch.
      apply (ReadDir_elem dir files other d' Hrd) in Ho.
      pose proof (ReadDir_sorted dir files Hrd) as Hs. rewrite Hsplit in Hs, Ho.
      apply elem_of_app in Ho as [Ho|Ho].
      { apply Hpre in Ho. simpl in Ho. congruence. }
      apply elem_of_cons in Ho as [[= -> _]|Ho]; [apply ltb_irrefl|].
      apply StronglySorted_app_1_r in Hs. inversion Hs as [|? ? _ Hall]; subst.
      rewrite Forall_forall in Hall. specialize (Hall _ Ho). unfold Name in Hall. simpl in Hall.
      destruct (String.ltb other n) eqn:Hc; [|done].
      pose proof (ltb_trans _ _ _ Hall Hc) as Hbad. now rewrite ltb_irrefl in Hbad.
  - right. split; [done|]. right. intros other [d' Ho].
    apply (ReadDir_elem dir files other d' Hrd) in Ho.
    exact (find_none_elem _ files Hfind (other, d') Ho).
Qed.

End DownScript.

(** ** Worked examples of the further properties *)

(** [null_world]: the NULL checksum of 001_a becomes the sentinel. *)
Lemma createMigrationsTable_backfills_witness :
  exists w' t,
    createMigrationsTable (E := toy) null_world = (Ok tt, w', t)
    /\ ledger (db w') !! "001_a" = Some (MkEntry 0 (Some legacy_checksum)).
Proof.
  pose (out := createMigrationsTable (E := toy) null_world).
  exists (out.1.2), (out.2).
  assert (Hrun : createMigrationsTable (E := toy) null_world = (Ok tt, out.1.2, out.2))
    by (vm_compute; reflexivity).
  split; [exact Hrun|].
  destruct (createMigrationsTable_backfills (E := toy) null_world (out.1.2) (out.2) Hrun)
    as (_ & _ & _ & Hrows & _).
  destruct (Hrows "001_a" (MkEntry 0 None)) as (entry & He & Hts & Hck);
    [vm_compute; reflexivity|].
  rewrite He. destruct entry as [ts ck]. simpl in Hts, Hck. now subst.
Defined.

(** [null_world]: the table setup twice. *)
Lemma createMigrationsTable_idempotent_witness :
  exists w1 t,
    createMigrationsTable (E := toy) null_world = (Ok tt, w1, t)
    /\ createMigrationsTable (E := toy) w1 = (Ok tt, w1, t).
Proof.
  pose (out := createMigrationsTable (E := toy) null_world).
  exists (out.1.2), (out.2).
  assert (Hrun : createMigrationsTable (E := toy) null_world = (Ok tt, out.1.2, out.2))
    by (vm_compute; reflexivity).
  split; [exact Hrun|].
  exact (createMigrationsTable_idempotent (E := toy) null_world (out.1.2) (out.2) Hrun).
Defined.

(** 001_a.sql on the fresh database goes through; on [two_applied] it is a
    duplicate and nothing changes. *)
Lemma executeMigration_all_or_nothing_witness :
  (exists w' t,
     executeMigration (E := toy) (migration_of "001_a.sql" "CREATE a") fresh = (Ok tt, w', t)
     /\ ledger (db w') !! "001_a" = Some (applied_row 0 "CREATE a"))
  /\ (exists e w' t,
        executeMigration (E := toy) (migration_of "001_a.sql" "CREATE a") two_applied
        = (Err e, w', t)
        /\ db w' = db two_applied).
Proof.
  split.
  - pose (out := executeMigration (E := toy) (migration_of "001_a.sql" "CREATE a") fresh).
    exists (out.1.2), (out.2).
    assert (Hrun : executeMigration (E := toy) (migration_of "001_a.sql" "CREATE a") fresh
                   = (Ok tt, out.1.2, out.2)) by (vm_compute; reflexivity).
    split; [exact Hrun|].
    destruct (executeMigration_all_or_nothing (E := toy) _ _ _ _ _ Hrun)
      as [(_ & _ & _ & Hl & _)|(e & He & _)]; [|discriminate He].
    rewrite Hl. vm_compute. reflexivity.
  - pose (out := executeMigration (E := toy) (migration_of "001_a.sql" "CREATE a") two_applied).
    exists (ErrRecord (PgUniqueViolation "001_a")), (out.1.2), (out.2).
    assert (Hrun : executeMigration (E := toy) (migration_of "001_a.sql" "CREATE a") two_applied
                   = (Err (ErrRecord (PgUniqueViolation "001_a")), out.1.2, out.2))
      by (vm_compute; reflexivity).
    split; [exact Hrun|].
    destruct (executeMigration_all_or_nothing (E := toy) _ _ _ _ _ Hrun)
      as [(Hok & _)|(e & _ & Hdb & _)]; [discriminate Hok|exact Hdb].
Defined.

(** [two_bad_world] against the catalog of [dir_abc]: the orphaned 000_gone
    is reported, not the edited 002_b after it. *)
Lemma verifyMigrationIntegrity_reports_first_witness :
  (verifyMigrationIntegrity (E := toy)
     [migration_of "001_a.sql" "CREATE a"; migration_of "002_b.sql" "CREATE b";
      migration_of "003_c.sql" "CREATE c"] two_bad_world).1.1
  = Err (ErrNotInDirectory "000_gone")
  /\ orphaned [migration_of "001_a.sql" "CREATE a"; migration_of "002_b.sql" "CREATE b";
               migration_of "003_c.sql" "CREATE c"] (ledger (db two_bad_world)) "000_gone"
  /\ String.ltb "000_gone" "002_b" = true.
Proof.
  assert (Hrun : (verifyMigrationIntegrity (E := toy)
                    [migration_of "001_a.sql" "CREATE a"; migration_of "002_b.sql" "CREATE b";
                     migration_of "003_c.sql" "CREATE c"] two_bad_world).1.1
                 = Err (ErrNotInDirectory "000_gone")) by (vm_compute; reflexivity).
  split; [exact Hrun|]. split; [|vm_compute; reflexivity].
  assert (Hnn : forall v entry, ledger (db two_bad_world) !! v = Some entry ->
                                checksum entry <> None).
  { assert (Hdom : dom (ledger (db two_bad_world)) = {["000_gone"; "002_b"]})
      by (vm_compute; reflexivity).
    assert (Hgone : ledger (db two_bad_world) !! "000_gone" = Some (applied_row 0 "CREATE z"))
      by (vm_compute; reflexivity).
    assert (Hb : ledger (db two_bad_world) !! "002_b"
                 = Some (applied_row 1 "CREATE b -- as first applied"))
      by (vm_compute; reflexivity).
    intros v entry He.
    assert (Hd : v ∈ dom (ledger (db two_bad_world))) by (apply elem_of_dom; now exists entry).
    rewrite Hdom in Hd.
    apply elem_of_union in Hd as [Hd|Hd]; apply elem_of_singleton in Hd; subst v.
    - rewrite Hgone in He. injection He as <-. discriminate.
    - rewrite Hb in He. injection He as <-. discriminate. }
  assert (Hload : loadMigrationFiles dir_abc
                  = Ok [migration_of "001_a.sql" "CREATE a"; migration_of "002_b.sql" "CREATE b";
                        migration_of "003_c.sql" "CREATE c"]) by (vm_compute; reflexivity).
  destruct (verifyMigrationIntegrity_reports_first (E := toy) _ two_bad_world _
              (loadMigrationFiles_NoDup dir_abc _ Hload) Hnn Hrun)
    as (v & [[Hv Horph]|[Hv _]] & _); [injection Hv as <-; exact Horph|discriminate Hv].
Defined.

(** [null_world]: the NULL checksum of 001_a stops verification. *)
Lemma verifyMigrationIntegrity_null_checksum_witness :
  verifyMigrationIntegrity (E := toy) [migration_of "001_a.sql" "CREATE a"] null_world
  = (Err (ErrScanExecuted PgScanNull), null_world, [PoolQuery SelectVersionsChecksums]).
Proof.
  apply (verifyMigrationIntegrity_null_checksum (E := toy) null_world "001_a" (MkEntry 0 None));
    vm_compute; reflexivity.
Defined.

(** [dir_locked] on [null_world]: the load fails, the NULL checksum of 001_a
    has become the sentinel all the same. *)
Lemma RunMigrations_unreadable_directory_witness :
  exists w' t,
    RunMigrations (E := toy) dir_locked null_world
    = (Err (ErrLoadFiles (ErrReadMigrationFile "002_b.sql" (OsReadFileError "002_b.sql"))),
       w', t)
    /\ ledger (db w') !! "001_a" = Some (MkEntry 0 (Some legacy_checksum)).
Proof.
  destruct (RunMigrations_unreadable_directory (E := toy) dir_locked null_world
              (ErrReadMigrationFile "002_b.sql" (OsReadFileError "002_b.sql")))
    as (w' & t & Hrun & _ & Hl & _); [vm_compute; reflexivity|vm_compute; reflexivity|].
  exists w', t. split; [exact Hrun|]. rewrite Hl. vm_compute. reflexivity.
Defined.

(** [dir_bad] on [orphan_world]: the run stops at 002_b, the row of 000_gone
    is as it was. *)
Lemma RunMigrations_keeps_rows_witness :
  ledger (db (RunMigrations (E := toy) dir_bad orphan_world).1.2) !! "000_gone"
  = Some (applied_row 0 "CREATE z").
Proof.
  pose (out := RunMigrations (E := toy) dir_bad orphan_world).
  destruct (RunMigrations_keeps_rows (E := toy) dir_bad orphan_world (out.1.1) (out.1.2) (out.2)
              "000_gone" (applied_row 0 "CREATE z"))
    as [[Hkept|[Hnull _]] _]; [vm_compute; reflexivity|vm_compute; reflexivity| |].
  - exact Hkept.
  - vm_compute in Hnull. discriminate Hnull.
Defined.

(** [dir_abc] on the fresh database: the three scripts are the applied set. *)
Lemma RunMigrations_success_state_witness :
  exists w' t,
    RunMigrations (E := toy) dir_abc fresh = (Ok tt, w', t)
    /\ dom (ledger (db w')) = {["001_a"; "002_b"; "003_c"]}.
Proof.
  pose (out := RunMigrations (E := toy) dir_abc fresh).
  exists (out.1.2), (out.2).
  assert (Hrun : RunMigrations (E := toy) dir_abc fresh = (Ok tt, out.1.2, out.2))
    by (vm_compute; reflexivity).
  split; [exact Hrun|].
  destruct (RunMigrations_success_state (E := toy) dir_abc fresh
              [migration_of "001_a.sql" "CREATE a"; migration_of "002_b.sql" "CREATE b";
               migration_of "003_c.sql" "CREATE c"] (out.1.2) (out.2))
    as [Hdom _]; [vm_compute; reflexivity|exact Hrun|].
  rewrite Hdom. vm_compute. reflexivity.
Defined.

(** [dir_b_only], then [dir_forward_only]: 001_a and 003_c are run, 001_a
    although it sorts before the applied 002_b. *)
Lemma RunMigrations_incremental_witness :
  exists w1 t1 w2 t2,
    RunMigrations (E := toy) dir_b_only fresh = (Ok tt, w1, t1)
    /\ RunMigrations (E := toy) dir_forward_only w1 = (Ok tt, w2, t2)
    /\ t2 = prelude_calls
            ++ apply_calls (migration_of "001_a.sql" "CREATE a")
            ++ apply_calls (migration_of "003_c.sql" "CREATE c")
            ++ [PoolQuery SelectVersionsChecksums].
Proof.
  pose (out1 := RunMigrations (E := toy) dir_b_only fresh).
  pose (out2 := RunMigrations (E := toy) dir_forward_only (out1.1.2)).
  exists (out1.1.2), (out1.2), (out2.1.2), (out2.2).
  assert (H1 : RunMigrations (E := toy) dir_b_only fresh = (Ok tt, out1.1.2, out1.2))
    by (vm_compute; reflexivity).
  assert (H2 : RunMigrations (E := toy) dir_forward_only (out1.1.2) = (Ok tt, out2.1.2, out2.2))
    by (vm_compute; reflexivity).
  split; [exact H1|]. split; [exact H2|].
  destruct (RunMigrations_incremental (E := toy) dir_b_only dir_forward_only fresh
              (out1.1.2) (out2.1.2) [migration_of "002_b.sql" "CREATE b"]
              [migration_of "001_a.sql" "CREATE a"; migration_of "002_b.sql" "CREATE b";
               migration_of "003_c.sql" "CREATE c"] (out1.2) (Ok tt) (out2.2))
    as [Ht _]; [vm_compute; reflexivity|vm_compute; reflexivity|exact H1|exact H2|now left|].
  rewrite Ht. vm_compute. reflexivity.
Defined.

(** [two_applied] rolled back to 000 with [dir_down]: both rows are gone. *)
Lemma RunDownMigrations_reaches_target_witness :
  exists w' t,
    RunDownMigrations (E := toy) dir_down "000" two_applied = (Ok tt, w', t)
    /\ ledger (db w') !! "001_a" = None
    /\ ledger (db w') !! "002_b" = None.
Proof.
  pose (out := RunDownMigrations (E := toy) dir_down "000" two_applied).
  exists (out.1.2), (out.2).
  assert (Hrun : RunDownMigrations (E := toy) dir_down "000" two_applied
                 = (Ok tt, out.1.2, out.2)) by (vm_compute; reflexivity).
  split; [exact Hrun|].
  destruct (RunDownMigrations_reaches_target (E := toy) dir_down "000" two_applied
              [migration_of "001_a.sql" "CREATE a"; migration_of "001_a_down.sql" "DROP a";
               migration_of "002_b.sql" "CREATE b"; migration_of "002_b_down.sql" "DROP b"]
              (out.1.2) (out.2)) as (Hlk & _); [vm_compute; reflexivity| |exact Hrun|].
  - assert (Hdom : dom (ledger (db two_applied)) = {["001_a"; "002_b"]})
      by (vm_compute; reflexivity).
    intros v Hv _. rewrite Hdom in Hv. apply list_elem_of_In.
    apply elem_of_union in Hv as [Hv|Hv]; apply elem_of_singleton in Hv; subst v;
      vm_compute; tauto.
  - split; rewrite Hlk; vm_compute; reflexivity.
Defined.

(** [dir_updown] on the fresh database, then back to 001_a: 002_b is
    pending again. *)
Lemma RunDownMigrations_after_RunMigrations_witness :
  exists w1 t1 w2 t2,
    RunMigrations (E := toy) dir_updown fresh = (Ok tt, w1, t1)
    /\ RunDownMigrations (E := toy) dir_updown "001_a" w1 = (Ok tt, w2, t2)
    /\ pending (dom (ledger (db w2)))
               [migration_of "001_a.sql" "CREATE a"; migration_of "002_b.sql" "CREATE b"]
       = [migration_of "002_b.sql" "CREATE b"].
Proof.
  pose (out1 := RunMigrations (E := toy) dir_updown fresh).
  pose (out2 := RunDownMigrations (E := toy) dir_updown "001_a" (out1.1.2)).
  exists (out1.1.2), (out1.2), (out2.1.2), (out2.2).
  assert (H1 : RunMigrations (E := toy) dir_updown fresh = (Ok tt, out1.1.2, out1.2))
    by (vm_compute; reflexivity).
  assert (H2 : RunDownMigrations (E := toy) dir_updown "001_a" (out1.1.2)
               = (Ok tt, out2.1.2, out2.2)) by (vm_compute; reflexivity).
  split; [exact H1|]. split; [exact H2|].
  destruct (RunDownMigrations_after_RunMigrations (E := toy) dir_updown "001_a" fresh
              (out1.1.2) (out2.1.2)
              [migration_of "001_a.sql" "CREATE a"; migration_of "002_b.sql" "CREATE b"]
              (out1.2) (out2.2)) as (_ & _ & Hp); [vm_compute; reflexivity|exact H1|exact H2|].
  rewrite Hp. vm_compute. reflexivity.
Defined.

(** [two_applied] rolled back to 001_a with [dir_down]: the row of 001_a is
    as it was. *)
Lemma RunDownMigrations_frame_witness :
  ledger (db (RunDownMigrations (E := toy) dir_down "001_a" two_applied).1.2) !! "001_a"
  = Some (applied_row 0 "CREATE a").
Proof.
  pose (out := RunDownMigrations (E := toy) dir_down "001_a" two_applied).
  destruct (RunDownMigrations_frame (E := toy) dir_down "001_a" two_applied
              (out.1.1) (out.1.2) (out.2)) as (Hbelow & _); [vm_compute; reflexivity|].
  change (ledger (db (out.1.2)) !! "001_a" = Some (applied_row 0 "CREATE a")).
  rewrite (Hbelow "001_a"); vm_compute; reflexivity.
Defined.

(** [two_applied] rolled back to 002_b: nothing to do. *)
Lemma RunDownMigrations_nothing_above_target_witness :
  RunDownMigrations (E := toy) dir_down "002_b" two_applied
  = (Ok tt, two_applied, [PoolQuery SelectVersions]).
Proof.
  apply (RunDownMigrations_nothing_above_target (E := toy) dir_down "002_b" two_applied
           [migration_of "001_a.sql" "CREATE a"; migration_of "001_a_down.sql" "DROP a";
            migration_of "002_b.sql" "CREATE b"; migration_of "002_b_down.sql" "DROP b"]);
    [vm_compute; reflexivity|].
  assert (Hdom : dom (ledger (db two_applied)) = {["001_a"; "002_b"]})
    by (vm_compute; reflexivity).
  intros m Hm Hin. rewrite Hdom in Hin.
  apply list_elem_of_In in Hm. simpl in Hm.
  destruct Hm as [<-|[<-|[<-|[<-|[]]]]]; try (vm_compute; reflexivity);
    exfalso; apply elem_of_union in Hin as [Hin|Hin]; apply elem_of_singleton in Hin;
    vm_compute in Hin; discriminate Hin.
Defined.

(** [two_applied] rolled back to 001_a: the one step [RollbackLastMigration]
    takes. *)
Lemma RunDownMigrations_one_step_witness :
  RunDownMigrations (E := toy) dir_down "001_a" two_applied
  = RollbackLastMigration (E := toy) dir_down two_applied.
Proof.
  apply (RunDownMigrations_one_step (E := toy) dir_down "001_a" two_applied
           [migration_of "001_a.sql" "CREATE a"; migration_of "001_a_down.sql" "DROP a";
            migration_of "002_b.sql" "CREATE b"; migration_of "002_b_down.sql" "DROP b"]
           "002_b").
  - vm_compute. reflexivity.
  - apply list_elem_of_In. vm_compute. tauto.
  - apply elem_of_elements, list_elem_of_In. vm_compute. tauto.
  - vm_compute. reflexivity.
  - assert (Hdom : dom (ledger (db two_applied)) = {["001_a"; "002_b"]})
      by (vm_compute; reflexivity).
    intros u Hu Hne. rewrite Hdom in Hu.
    apply elem_of_union in Hu as [Hu|Hu]; apply elem_of_singleton in Hu; subst u;
      [vm_compute; reflexivity|now destruct Hne].
Defined.

(** [dir_updown] on the fresh database, then the last script rolled back:
    002_b is pending again. *)
Lemma RollbackLastMigration_after_RunMigrations_witness :
  exists w1 t1 w2 t2,
    RunMigrations (E := toy) dir_updown fresh = (Ok tt, w1, t1)
    /\ RollbackLastMigration (E := toy) dir_updown w1 = (Ok tt, w2, t2)
    /\ pending (dom (ledger (db w2)))
               [migration_of "001_a.sql" "CREATE a"; migration_of "002_b.sql" "CREATE b"]
       = [migration_of "002_b.sql" "CREATE b"]
    /\ contents (db w2) = ["DROP b"; "CREATE b"; "CREATE a"].
Proof.
  pose (out1 := RunMigrations (E := toy) dir_updown fresh).
  pose (out2 := RollbackLastMigration (E := toy) dir_updown (out1.1.2)).
  exists (out1.1.2), (out1.2), (out2.1.2), (out2.2).
  assert (H1 : RunMigrations (E := toy) dir_updown fresh = (Ok tt, out1.1.2, out1.2))
    by (vm_compute; reflexivity).
  assert (H2 : RollbackLastMigration (E := toy) dir_updown (out1.1.2)
               = (Ok tt, out2.1.2, out2.2)) by (vm_compute; reflexivity).
  split; [exact H1|]. split; [exact H2|].
  destruct (RollbackLastMigration_after_RunMigrations (E := toy) dir_updown fresh
              (out1.1.2) (out2.1.2)
              [migration_of "001_a.sql" "CREATE a"; migration_of "002_b.sql" "CREATE b"]
              (migration_of "002_b.sql" "CREATE b") (out1.2) (out2.2))
    as (_ & Hp & _); [vm_compute; reflexivity|reflexivity|exact H1|exact H2|].
  split; [exact Hp|]. vm_compute. reflexivity.
Defined.

(** [dir_scan]: the scan settles on 005_x_down_a.sql, a directory, although
    005_x_down.sql and 005_x_down_b.sql are files. *)
Lemma downFilename_resolution_witness :
  downFilename dir_scan "005_x" = "005_x_down_a.sql"
  /\ entries dir_scan !! "005_x_down_a.sql" = Some SubDirectory
  /\ forward_name (downFilename dir_scan "005_x") = false
  /\ String.ltb "005_x_down_b.sql" (downFilename dir_scan "005_x") = false.
Proof.
  assert (Hname : downFilename dir_scan "005_x" = "005_x_down_a.sql")
    by (vm_compute; reflexivity).
  split; [exact Hname|]. split; [vm_compute; reflexivity|].
  pose proof (downFilename_resolution dir_scan "005_x"
                ltac:(discriminate) ltac:(discriminate) ltac:(discriminate)) as H.
  rewrite Hname in H. rewrite Hname.
  destruct H as [(_ & _ & _ & Hfw & Hleast)|(Hfall & _)].
  - split; [exact Hfw|]. apply Hleast; [|vm_compute; reflexivity].
    exists (RegularFile "DROP x"). vm_compute. reflexivity.
  - discriminate Hfall.
Defined.

(** ** Rolling back the last migration *)

Section RollbackLast.

Context {E : Engine}.

Lemma downFilename_resolved dir version :
  resolved_down_name dir version (downFilename dir version).
Proof.
  unfold resolved_down_name, downFilename.
  destruct (String.eqb_spec version "001_create_schema_migrations_table") as [->|H1];
    [left; done|].
  destruct (String.eqb_spec version "002_create_users_table") as [->|H2];
    [right; left; done|].
  destruct (String.eqb_spec version "003_create_indexes") as [->|H3];
    [right; right; left; done|].
  right. right. right. split; [done|]. split; [done|]. split; [done|].
  destruct (ReadDir dir) as [files|e] eqn:Hrd.
  2: { right. split; [done|]. left. unfold ReadDir in Hrd. now destruct (listable dir). }
  assert (Hl : listable dir = true) by (unfold ReadDir in Hrd; now destruct (listable dir)).
  change (fun file : string * DirEntry =>
            strings.Contains (Name file) "_down_" && strings.Contains (Name file) version)
    with (fun file : string * DirEntry => down_match version (Name file)).
  destruct (find _ files) as [[n d]|] eqn:Hfind.
  - left. apply find_first in Hfind as (pre & post & Hsplit & Hn & Hpre).
    unfold Name in *. simpl in *.
    split; [done|]. split; [|split; [done|]].
    + exists d. apply (ReadDir_elem dir files n d Hrd). rewrite Hsplit. set_solver.
    + intros other [d' Ho] Hmatch.
      apply (ReadDir_elem dir files other d' Hrd) in Ho.
      pose proof (ReadDir_sorted dir files Hrd) as Hs. rewrite Hsplit in Hs, Ho.
      apply elem_of_app in Ho as [Ho|Ho].
      { apply Hpre in Ho. simpl in Ho. congruence. }
      apply elem_of_cons in Ho as [[= -> _]|Ho]; [apply ltb_irrefl|].
      apply StronglySorted_app_1_r in Hs. inversion Hs as [|? ? _ Hall]; subst.
      rewrite Forall_forall in Hall. specialize (Hall _ Ho). unfold Name in Hall. simpl in Hall.
      destruct (String.ltb other n) eqn:Hc; [|done].
      pose proof (ltb_trans _ _ _ Hall Hc) as Hbad. now rewrite ltb_irrefl in Hbad.
  - right. split; [done|]. right. intros other [d' Ho].
    apply (ReadDir_elem dir files other d' Hrd) in Ho.
    exact (find_none_elem _ files Hfind (other, d') Ho).
Qed.

(** C5. [RollbackLastMigration] on an empty ledger returns nil after its
    one query and changes nothing. On a non-empty ledger it takes the
    greatest applied version under [String.ltb] and the down script
    resolved for it. If that file cannot be read it returns the read error
    and has opened no transaction. Otherwise it opens one transaction,
    runs the script in it and deletes the row of the version: when both
    steps go through the transaction is committed, the script has taken
    effect and exactly that row is gone; when the script is rejected, or
    the delete after it is refused, the transaction is rolled back and the
    committed database, ledger included, is the one it started from. *)
Theorem RollbackLastMigration_spec dir (w : World) :
  (ledger (db w) = ∅ ->
   RollbackLastMigration dir w = (Ok tt, w, [PoolQuery SelectVersions]))
  /\ (ledger (db w) <> ∅ ->
      exists v name,
        v ∈ dom (ledger (db w))
        /\ (forall u, u ∈ dom (ledger (db w)) -> String.ltb v u = false)
        /\ resolved_down_name dir v name
        /\ (forall e, ReadFile dir name = Err e ->
              RollbackLastMigration dir w
              = (Err (ErrReadRollbackFile name e), w, [PoolQuery SelectVersions]))
        /\ (forall content c,
              ReadFile dir name = Ok content ->
              exec_sql content (contents (db w)) = Some c ->
              ledger_writable c = true ->
              RollbackLastMigration dir w
              = (Ok tt, MkWorld (MkDatabase c (delete v (ledger (db w)))) (S (now w)),
                 PoolQuery SelectVersions :: rollback_calls content v))
        /\ (forall content,
              ReadFile dir name = Ok content ->
              exec_sql content (contents (db w)) = None ->
              RollbackLastMigration dir w
              = (Err (ErrRollbackSQL (PgStatementError content)),
                 MkWorld (db w) (S (now w)),
                 PoolQuery SelectVersions :: failed_rollback_calls content v false))
        /\ (forall content c,
              ReadFile dir name = Ok content ->
              exec_sql content (contents (db w)) = Some c ->
              ledger_writable c = false ->
              RollbackLastMigration dir w
              = (Err (ErrRemoveTracking PgLedgerUnavailable),
                 MkWorld (db w) (S (now w)),
                 PoolQuery SelectVersions :: failed_rollback_calls content v true))).
Proof.
  split.
  - intros Hempty. rewrite RollbackLastMigration_cases, Hempty, dom_empty_L. reflexivity.
  - intros Hne.
    assert (Hel : elements (dom (ledger (db w))) <> []).
    { intros H. apply elements_empty_inv in H. apply leibniz_equiv in H.
      now apply dom_empty_inv_L in H. }
    assert (Hsize : (size (dom (ledger (db w))) =? 0)%nat = false).
    { apply Nat.eqb_neq. intros H. apply size_empty_inv in H.
      apply leibniz_equiv in H. now apply dom_empty_inv_L in H. }
    destruct (last_version_greatest _ Hel) as [Hin Hmax].
    set (v := last_version (elements (dom (ledger (db w))))) in *.
    exists v, (downFilename dir v).
    split; [now apply elem_of_elements|]. split.
    { intros u Hu. apply Hmax. now apply elem_of_elements. }
    split; [apply downFilename_resolved|].
    rewrite RollbackLastMigration_cases, Hsize. fold v. rewrite rollback_version_cases.
    repeat split.
    + intros e Hread. now rewrite Hread.
    + intros content c Hread Hx Hw. now rewrite Hread, Hx, Hw.
    + intros content Hread Hx. now rewrite Hread, Hx.
    + intros content c Hread Hx Hw. now rewrite Hread, Hx, Hw.
Qed.

End RollbackLast.

(** [dir_shipped] on [users_applied]: the shipped down script runs, not the
    file under the fallback name. *)
Lemma RollbackLastMigration_spec_witness :
  RollbackLastMigration (E := toy) dir_shipped users_applied
  = (Ok tt,
     MkWorld (MkDatabase (E := toy) ["DROP TABLE users"; "CREATE TABLE users"] ∅) 2,
     PoolQuery SelectVersions :: rollback_calls "DROP TABLE users" "002_create_users_table").
Proof.
  destruct (RollbackLastMigration_spec (E := toy) dir_shipped users_applied) as [_ Hlast].
  destruct Hlast as (v & name & Hv & _ & Hname & _ & Hok & _).
  { intros H.
    assert (Hrow : ledger (db users_applied) !! "002_create_users_table"
                   = Some (applied_row 0 "CREATE TABLE users")) by (vm_compute; reflexivity).
    rewrite H, lookup_empty in Hrow. discriminate Hrow. }
  assert (Hdom : dom (ledger (db users_applied)) = {["002_create_users_table"]})
    by (vm_compute; reflexivity).
  rewrite Hdom in Hv. apply elem_of_singleton in Hv. subst v.
  destruct Hname as [[H _]|[[_ ->]|[[H _]|(_ & H & _)]]]; try discriminate H; [|now destruct H].
  rewrite (Hok "DROP TABLE users" ["DROP TABLE users"; "CREATE TABLE users"]);
    [|vm_compute; reflexivity|vm_compute; reflexivity|vm_compute; reflexivity].
  vm_compute. reflexivity.
Defined.
